(** * End-to-end encryption core of the chat client

    A shallow embedding of [frontend/src/services/crypto.service.ts]
    (class [CryptoService]) and of the code that calls it: the chat page
    ([sendMessage], [decryptAndAddMessage], [loadConversation],
    [handleAddChat]), the session ([AuthContext]: [register], [login],
    [logout] and the effect that restores the session), the group chat
    ([loadGroupKeyAndMessages], [decryptAndAddMessage], [sendMessage],
    [handleAddMember]) and the creation of a group ([handleCreateGroup]).

    - JavaScript strings are sequences of UTF-16 code units ([list N]);
      [ArrayBuffer] / [Uint8Array] values are [list byte].
    - A thrown exception is the left injection of [result]; a [try]/[catch]
      block is [try_catch].
    - The browser functions [btoa], [atob], [TextEncoder.encode],
      [TextDecoder.decode], [String.prototype.split] and
      [String.prototype.trim] are written out after their standards
      (RFC 4648 / WHATWG forgiving-base64, WHATWG Encoding, ECMA-262).
    - The provider ([crypto.subtle], [crypto.getRandomValues], [JSON]) is
      the class [Platform]; what the proofs use of it is [PlatformLaws].
      The module [Toy] is a small platform that keeps this contract and
      computes.  The pages need two things more of the browser, JSON for
      the user object ([UserJSON]) and raw AES keys ([GroupKeyProvider]),
      with their contracts [UserJSONLaws] and [GroupKeyLaws]; the module
      [ToyPages] provides them for the small platform.
    - The state of a React component is passed explicitly: a handler takes
      the state it reads and returns the state it leaves.  What the server
      answers to a request is an argument ([Answer]), and so is the
      clock. *)

From Stdlib Require Import NArith ZArith List Lia ZifyNat ZifyN Bool String Ascii.
From Stdlib Require Import DecimalString.
From Stdlib.Strings Require Import Byte.
Import ListNotations.
Local Open Scope N_scope.

(* ================================================================== *)
(** * JavaScript values, exceptions and control flow *)
(* ================================================================== *)

(** A JavaScript string: its UTF-16 code units. *)
Definition jsstring : Type := list N.

(** The contents of an [ArrayBuffer] or of a [Uint8Array]. *)
Definition bytes : Type := list byte.

(** A string literal of the source (ASCII only). *)
Definition lit (s : string) : jsstring :=
  map N_of_ascii (list_ascii_of_string s).

(** Thrown values are error objects; the code reads their [name] and their
    [message]. *)
Record exn : Type := {
  exn_name : string;
  exn_message : string
}.

(** [new Error(message)] *)
Definition Error (message : string) : exn :=
  {| exn_name := "Error"; exn_message := message |}.

(** The platform's [DOMException]s. *)
Definition DOMException (name message : string) : exn :=
  {| exn_name := name; exn_message := message |}.

(** A computation that returns or throws. *)
Definition result (A : Type) : Type := (exn + A)%type.

Abbreviation Ok := (@inr exn _).
Abbreviation Throw := (@inl exn _).

Definition bind {A B : Type} (m : result A) (k : A -> result B) : result B :=
  match m with
  | inl e => inl e
  | inr a => k a
  end.

Declare Scope js_scope.
Delimit Scope js_scope with js.
Notation "x <- m ;; k" := (bind m (fun x => k))
  (at level 61, m at next level, right associativity) : js_scope.
Notation "' pat <- m ;; k" := (bind m (fun x => match x with pat => k end))
  (at level 61, pat pattern, m at next level, right associativity) : js_scope.
Local Open Scope js_scope.

(** [try { body } catch (error) { handler }] *)
Definition try_catch {A : Type} (body : result A) (handler : exn -> result A)
  : result A :=
  match body with
  | inl e => handler e
  | inr a => inr a
  end.

(** A computation that also draws from the random generator, whose state
    is threaded through. *)
Definition rand (S A : Type) : Type := S -> result A * S.

Definition rret {S A : Type} (a : A) : rand S A := fun s => (Ok a, s).

Definition rbind {S A B : Type} (m : rand S A) (k : A -> rand S B) : rand S B :=
  fun s =>
    match m s with
    | (inl e, s') => (inl e, s')
    | (inr a, s') => k a s'
    end.

(** A computation that draws nothing. *)
Definition lift {S A : Type} (m : result A) : rand S A := fun s => (m, s).

Definition rtry_catch {S A : Type} (body : rand S A) (handler : exn -> rand S A)
  : rand S A :=
  fun s =>
    match body s with
    | (inl e, s') => handler e s'
    | (inr a, s') => (inr a, s')
    end.

Declare Scope rand_scope.
Delimit Scope rand_scope with rand.
Notation "x <- m ;; k" := (rbind m (fun x => k))
  (at level 61, m at next level, right associativity) : rand_scope.

(** A byte as a number and back ([Uint8Array] stores values modulo 256). *)
Definition byte_of_N (n : N) : byte :=
  match Byte.of_N (n mod 256) with
  | Some b => b
  | None => x00
  end.

(* ================================================================== *)
(** * Base64: [btoa] and [atob] *)
(* ================================================================== *)

(** The base64 alphabet: value to character code, and back. *)
Definition b64_char (i : N) : N :=
  if i <? 26 then 65 + i
  else if i <? 52 then 97 + (i - 26)
  else if i <? 62 then 48 + (i - 52)
  else if i =? 62 then 43
  else 47.

Definition b64_index (c : N) : option N :=
  if (65 <=? c) && (c <=? 90) then Some (c - 65)
  else if (97 <=? c) && (c <=? 122) then Some (c - 97 + 26)
  else if (48 <=? c) && (c <=? 57) then Some (c - 48 + 52)
  else if c =? 43 then Some 62
  else if c =? 47 then Some 63
  else None.

(** Character code of [=]. *)
Definition pad_char : N := 61.

(** Three bytes become four characters; a last group of one or two bytes is
    padded with [=]. *)
Fixpoint btoa_groups (s : list N) : list N :=
  match s with
  | [] => []
  | [a] => [b64_char (a / 4); b64_char ((a mod 4) * 16); pad_char; pad_char]
  | [a; b] =>
      [b64_char (a / 4); b64_char ((a mod 4) * 16 + b / 16);
       b64_char ((b mod 16) * 4); pad_char]
  | a :: b :: c :: rest =>
      b64_char (a / 4) :: b64_char ((a mod 4) * 16 + b / 16)
      :: b64_char ((b mod 16) * 4 + c / 64) :: b64_char (c mod 64)
      :: btoa_groups rest
  end.

Definition invalid_character : exn :=
  DOMException "InvalidCharacterError" "The string contains invalid characters.".

(** [btoa(binary)]: throws when a code unit is above 255. *)
Definition btoa (binary : jsstring) : result jsstring :=
  if forallb (fun c => c <=? 255) binary then Ok (btoa_groups binary)
  else Throw invalid_character.

Definition is_ascii_whitespace (c : N) : bool :=
  (c =? 9) || (c =? 10) || (c =? 12) || (c =? 13) || (c =? 32).

(** Removes a trailing [=], if there is one. *)
Definition drop_pad (data : list N) : list N :=
  match rev data with
  | c :: r => if c =? pad_char then rev r else data
  | [] => data
  end.

(** When the length is a multiple of four, one or two trailing [=] are
    removed. *)
Definition strip_padding (data : list N) : list N :=
  if (List.length data mod 4 =? 0)%nat then drop_pad (drop_pad data)
  else data.

(** The alphabet values of the characters; [None] when one of them is not in
    the alphabet. *)
Fixpoint sextets (data : list N) : option (list N) :=
  match data with
  | [] => Some []
  | c :: rest =>
      match b64_index c, sextets rest with
      | Some i, Some l => Some (i :: l)
      | _, _ => None
      end
  end.

(** Four values become three bytes; of a last group of two or three values
    the left-over bits are discarded. *)
Fixpoint atob_groups (l : list N) : list N :=
  match l with
  | a :: b :: c :: d :: rest =>
      (a * 4 + b / 16) :: ((b mod 16) * 16 + c / 4) :: ((c mod 4) * 64 + d)
      :: atob_groups rest
  | [a; b; c] => [a * 4 + b / 16; (b mod 16) * 16 + c / 4]
  | [a; b] => [a * 4 + b / 16]
  | _ => []
  end.

(** [atob(data)]: the forgiving-base64 decoder. *)
Definition atob (data : jsstring) : result jsstring :=
  let data := filter (fun c => negb (is_ascii_whitespace c)) data in
  let data := strip_padding data in
  if (List.length data mod 4 =? 1)%nat then Throw invalid_character
  else
    match sextets data with
    | None => Throw invalid_character
    | Some l => Ok (atob_groups l)
    end.

(* ================================================================== *)
(** * CryptoService: base64 conversion *)
(* ================================================================== *)

(** [CryptoService.arrayBufferToBase64] *)
Definition arrayBufferToBase64 (buffer : bytes) : result jsstring :=
  try_catch
    (if (List.length buffer =? 0)%nat then Throw (Error "Buffer vazio")
     else
       let binary := map Byte.to_N buffer in
       base64 <- btoa binary ;;
       Ok base64)
    (fun error => Throw error).

(** [CryptoService.base64ToArrayBuffer] *)
Definition base64ToArrayBuffer (base64 : jsstring) : result bytes :=
  try_catch
    (match base64 with
     | [] => Throw (Error "Base64 inválido")
     | _ =>
         binary <- atob base64 ;;
         Ok (map byte_of_N binary)
     end)
    (fun error => Throw error).

(* ================================================================== *)
(** * Text encoding: [TextEncoder] and [TextDecoder] *)
(* ================================================================== *)

Definition is_high_surrogate (c : N) : bool := (0xD800 <=? c) && (c <=? 0xDBFF).
Definition is_low_surrogate (c : N) : bool := (0xDC00 <=? c) && (c <=? 0xDFFF).

(** U+FFFD, written for what cannot be encoded or decoded. *)
Definition replacement : N := 0xFFFD.

(** U+FEFF, the byte order mark. *)
Definition bom : N := 0xFEFF.

(** The scalar values of a string: a surrogate pair is one scalar value, a
    surrogate without its partner becomes U+FFFD. *)
Fixpoint scalar_values (s : jsstring) : list N :=
  match s with
  | [] => []
  | c :: rest =>
      if is_high_surrogate c then
        match rest with
        | d :: rest' =>
            if is_low_surrogate d then
              (0x10000 + (c - 0xD800) * 0x400 + (d - 0xDC00))
              :: scalar_values rest'
            else replacement :: scalar_values rest
        | [] => [replacement]
        end
      else if is_low_surrogate c then replacement :: scalar_values rest
      else c :: scalar_values rest
  end.

(** The UTF-8 bytes of one scalar value. *)
Definition utf8_encode_scalar (c : N) : list N :=
  if c <? 0x80 then [c]
  else if c <? 0x800 then [0xC0 + c / 0x40; 0x80 + c mod 0x40]
  else if c <? 0x10000 then
    [0xE0 + c / 0x1000; 0x80 + (c / 0x40) mod 0x40; 0x80 + c mod 0x40]
  else
    [0xF0 + c / 0x40000; 0x80 + (c / 0x1000) mod 0x40;
     0x80 + (c / 0x40) mod 0x40; 0x80 + c mod 0x40].

(** [new TextEncoder().encode(s)] *)
Definition TextEncoder_encode (s : jsstring) : bytes :=
  map byte_of_N (flat_map utf8_encode_scalar (scalar_values s)).

(** The state of the UTF-8 decoder: the code point read so far, the number
    of bytes it still needs and the bounds of the next byte. *)
Record utf8_state : Type := {
  code_point : N;
  bytes_needed : nat;
  lower_boundary : N;
  upper_boundary : N
}.

Definition utf8_initial : utf8_state :=
  {| code_point := 0; bytes_needed := 0;
     lower_boundary := 0x80; upper_boundary := 0xBF |}.

(** A byte read when no sequence is open: what is written, and the next
    state. *)
Definition utf8_lead (b : N) : list N * utf8_state :=
  if b <=? 0x7F then ([b], utf8_initial)
  else if (0xC2 <=? b) && (b <=? 0xDF) then
    ([], {| code_point := b - 0xC0; bytes_needed := 1;
            lower_boundary := 0x80; upper_boundary := 0xBF |})
  else if (0xE0 <=? b) && (b <=? 0xEF) then
    ([], {| code_point := b - 0xE0; bytes_needed := 2;
            lower_boundary := if b =? 0xE0 then 0xA0 else 0x80;
            upper_boundary := if b =? 0xED then 0x9F else 0xBF |})
  else if (0xF0 <=? b) && (b <=? 0xF4) then
    ([], {| code_point := b - 0xF0; bytes_needed := 3;
            lower_boundary := if b =? 0xF0 then 0x90 else 0x80;
            upper_boundary := if b =? 0xF4 then 0x8F else 0xBF |})
  else ([replacement], utf8_initial).

(** The decoder without [fatal]: a malformed sequence is written as U+FFFD
    and the byte that ended it is read again as a first byte. *)
Fixpoint utf8_decode (st : utf8_state) (input : list N) : list N :=
  match input with
  | [] =>
      match bytes_needed st with
      | O => []
      | S _ => [replacement]
      end
  | b :: rest =>
      match bytes_needed st with
      | O => let (out, st') := utf8_lead b in out ++ utf8_decode st' rest
      | S k =>
          if (lower_boundary st <=? b) && (b <=? upper_boundary st) then
            let cp := code_point st * 0x40 + (b - 0x80) in
            match k with
            | O => cp :: utf8_decode utf8_initial rest
            | S _ =>
                utf8_decode {| code_point := cp; bytes_needed := k;
                               lower_boundary := 0x80;
                               upper_boundary := 0xBF |} rest
            end
          else
            replacement
            :: (let (out, st') := utf8_lead b in out ++ utf8_decode st' rest)
      end
  end.

(** The bytes EF BB BF at the start of the input are skipped
    ([ignoreBOM] is false in a decoder made without options). *)
Definition skip_bom (input : list N) : list N :=
  match input with
  | b0 :: b1 :: b2 :: rest =>
      if (b0 =? 0xEF) && (b1 =? 0xBB) && (b2 =? 0xBF) then rest else input
  | _ => input
  end.

(** The code units of a scalar value. *)
Definition code_units (c : N) : list N :=
  if c <? 0x10000 then [c]
  else [0xD800 + (c - 0x10000) / 0x400; 0xDC00 + (c - 0x10000) mod 0x400].

(** [new TextDecoder().decode(buffer)] *)
Definition TextDecoder_decode (buffer : bytes) : jsstring :=
  flat_map code_units (utf8_decode utf8_initial (skip_bom (map Byte.to_N buffer))).

(** A string without unpaired surrogates (and of 16-bit code units). *)
Fixpoint well_formed (s : jsstring) : bool :=
  match s with
  | [] => true
  | c :: rest =>
      if is_high_surrogate c then
        match rest with
        | d :: rest' => is_low_surrogate d && well_formed rest'
        | [] => false
        end
      else negb (is_low_surrogate c) && (c <? 0x10000) && well_formed rest
  end.

(** [s.startsWith("\uFEFF")] *)
Definition starts_with_bom (s : jsstring) : bool :=
  match s with
  | c :: _ => c =? bom
  | [] => false
  end.

(** A Unicode scalar value: a code point that is not a surrogate. *)
Definition is_scalar (c : N) : Prop :=
  c < 0x110000 /\ (c < 0xD800 \/ 0xDFFF < c).

(* ================================================================== *)
(** * [String.prototype.split] and [String.prototype.trim] *)
(* ================================================================== *)

(** [s.split(sep)] for a separator of one character. *)
Fixpoint split (sep : N) (s : jsstring) : list jsstring :=
  match s with
  | [] => [[]]
  | c :: rest =>
      if c =? sep then [] :: split sep rest
      else
        match split sep rest with
        | piece :: pieces => (c :: piece) :: pieces
        | [] => [[c]]
        end
  end.

(** White space and line terminators of ECMA-262. *)
Definition is_js_whitespace (c : N) : bool :=
  ((9 <=? c) && (c <=? 13)) || (c =? 0x20) || (c =? 0xA0) || (c =? 0x1680)
  || ((0x2000 <=? c) && (c <=? 0x200A)) || (c =? 0x2028) || (c =? 0x2029)
  || (c =? 0x202F) || (c =? 0x205F) || (c =? 0x3000) || (c =? 0xFEFF).

Fixpoint trim_start (s : jsstring) : jsstring :=
  match s with
  | c :: rest => if is_js_whitespace c then trim_start rest else s
  | [] => []
  end.

(** [s.trim()] *)
Definition trim (s : jsstring) : jsstring :=
  rev (trim_start (rev (trim_start s))).

(** Truthiness of a string: the empty string is falsy. *)
Definition truthy (s : jsstring) : bool :=
  match s with
  | [] => false
  | _ :: _ => true
  end.

(* ================================================================== *)
(** * The platform: Web Crypto and JSON *)
(* ================================================================== *)

(** What the browser provides and the source does not define.

    - [Rng] is the state of the secure random generator.
    - The curve P-256 is a group of [point]s; a private key is a scalar, a
      public key a point.  [random_scalar] is the draw of [generateKey].
    - [x_coordinate] turns the shared point into the 256 bits [deriveBits]
      returns; [export_raw] / [import_raw] are [exportKey] / [importKey] in
      the [raw] format.
    - [JWK] is the object of the [jwk] format, with its JSON text.
    - [AesKey] is an AES-256-GCM key; [aes_gcm_decrypt] is [None] when the
      provider rejects the input ([OperationError]).

    Key handles are typed by what they hold (a private scalar, a public
    point, an AES key), and the keys made here are extractable and of one
    curve: key generation, [deriveBits], key derivation, encryption and the
    [jwk] export are total. *)
Class Platform : Type := {
  Rng : Type;
  getRandomValues : nat -> Rng -> bytes * Rng;
  point : Type;
  padd : point -> point -> point;
  pzero : point;
  base_point : point;
  random_scalar : Rng -> N * Rng;
  x_coordinate : point -> bytes;
  export_raw : point -> bytes;
  import_raw : bytes -> option point;
  JWK : Type;
  exportKey_jwk : N -> JWK;
  importKey_jwk : JWK -> result N;
  JSON_stringify : JWK -> jsstring;
  JSON_parse : jsstring -> result JWK;
  AesKey : Type;
  hkdf_sha256 : bytes -> bytes -> bytes -> AesKey;
  pbkdf2_sha256 : bytes -> bytes -> N -> AesKey;
  aes_gcm_encrypt : AesKey -> bytes -> bytes -> bytes;
  aes_gcm_decrypt : AesKey -> bytes -> bytes -> option bytes
}.

Definition operation_error : exn :=
  DOMException "OperationError"
    "The operation failed for an operation-specific reason".

Definition data_error : exn :=
  DOMException "DataError" "Provided data is inadequate.".

(** Flips bit [i] (0 to 7) of a byte. *)
Definition flip_byte (i : nat) (b : byte) : byte :=
  byte_of_N (N.lxor (Byte.to_N b) (N.shiftl 1 (N.of_nat i))).

(** Flips bit [i] of a byte array: bit [i mod 8] of the byte [i / 8]. *)
Fixpoint flip_bit (i : nat) (bs : bytes) : bytes :=
  match bs with
  | [] => []
  | b :: rest =>
      if (i <? 8)%nat then flip_byte i b :: rest
      else b :: flip_bit (i - 8) rest
  end.

(** The base64 text of a byte array. *)
Definition base64_text (b : bytes) : jsstring := btoa_groups (map Byte.to_N b).

Section CryptoService.

Context {P : Platform}.

(** Scalar multiplication on the curve: [d] times the point [Q]. *)
Definition scalar_mul (d : N) (Q : point) : point := N.iter d (padd Q) pzero.

(** The public key of a private scalar. *)
Definition public_of (d : N) : point := scalar_mul d base_point.

(** [crypto.subtle.deriveBits({name: "ECDH", public}, private, 256)] *)
Definition subtle_deriveBits_ECDH (private : N) (public : point) : bytes :=
  x_coordinate (scalar_mul private public).

(** [crypto.subtle.importKey("raw", keyData, {name: "ECDH", ...})] *)
Definition subtle_importKey_raw (keyData : bytes) : result point :=
  match import_raw keyData with
  | Some Q => Ok Q
  | None => Throw data_error
  end.

(** [crypto.subtle.decrypt({name: "AES-GCM", iv}, key, data)] *)
Definition subtle_decrypt (iv : bytes) (key : AesKey) (data : bytes)
  : result bytes :=
  match aes_gcm_decrypt key iv data with
  | Some plaintext => Ok plaintext
  | None => Throw operation_error
  end.

Record KeyPair : Type := {
  privateKey : N;
  publicKey : point;
  publicKeyRaw : bytes
}.

(** [crypto.getRandomValues(new Uint8Array(n))] *)
Definition random_values (n : nat) : rand Rng bytes :=
  fun rng => let (values, rng') := getRandomValues n rng in (Ok values, rng').

(** [crypto.subtle.generateKey({name: "ECDH", namedCurve: "P-256"}, ...)]:
    the private scalar; the public key is [public_of] it. *)
Definition subtle_generateKey_ECDH : rand Rng N :=
  fun rng => let (d, rng') := random_scalar rng in (Ok d, rng').

(** [CryptoService.generateKeyPair] *)
Definition generateKeyPair : rand Rng KeyPair :=
  rtry_catch
    (d <- subtle_generateKey_ECDH ;;
     let publicKeyRaw := export_raw (public_of d) in
     rret {| privateKey := d; publicKey := public_of d;
             publicKeyRaw := publicKeyRaw |})%rand
    (fun error => lift (Throw error)).

(** [CryptoService.importPublicKey] *)
Definition importPublicKey (publicKeyRaw : bytes) : result point :=
  try_catch (subtle_importKey_raw publicKeyRaw) (fun error => Throw error).

(** [CryptoService.computeSharedSecret] *)
Definition computeSharedSecret (myPrivateKey : N) (theirPublicKey : point)
  : result bytes :=
  try_catch
    (Ok (subtle_deriveBits_ECDH myPrivateKey theirPublicKey))
    (fun error => Throw error).

(** [CryptoService.deriveAESKey] *)
Definition deriveAESKey (sharedSecret : bytes) : result AesKey :=
  try_catch
    (Ok (hkdf_sha256 sharedSecret (repeat x00 32)
           (TextEncoder_encode (lit "chat-encryption-v1"))))
    (fun error => Throw error).

Record Envelope : Type := {
  encryptedData : jsstring;
  nonce : jsstring
}.

(** [CryptoService.encryptMessage] *)
Definition encryptMessage (message : jsstring) (aesKey : AesKey)
  : rand Rng Envelope :=
  rtry_catch
    (nonce <- random_values 12 ;;
     let encodedMessage := TextEncoder_encode message in
     let encryptedBuffer := aes_gcm_encrypt aesKey nonce encodedMessage in
     encryptedData <- lift (arrayBufferToBase64 encryptedBuffer) ;;
     nonceB64 <- lift (arrayBufferToBase64 nonce) ;;
     rret {| encryptedData := encryptedData; nonce := nonceB64 |})%rand
    (fun error => lift (Throw error)).

Definition decryption_failure : exn :=
  Error "Falha na descriptografia - chave incorreta ou dados corrompidos".

(** [CryptoService.decryptMessage] *)
Definition decryptMessage (encryptedData nonce : jsstring) (aesKey : AesKey)
  : result jsstring :=
  try_catch
    (encryptedBuffer <- base64ToArrayBuffer encryptedData ;;
     nonceBuffer <- base64ToArrayBuffer nonce ;;
     decryptedBuffer <- subtle_decrypt nonceBuffer aesKey encryptedBuffer ;;
     Ok (TextDecoder_decode decryptedBuffer))
    (fun _ => Throw decryption_failure).

(** [CryptoService.deriveKeyFromPassword] *)
Definition deriveKeyFromPassword (password : jsstring) (salt : bytes)
  : result AesKey :=
  try_catch
    (let passwordBytes := TextEncoder_encode password in
     Ok (pbkdf2_sha256 passwordBytes salt 100000))
    (fun error => Throw error).

Record ProtectedKey : Type := {
  encryptedPrivateKey : jsstring;
  salt : jsstring;
  iv : jsstring
}.

(** [CryptoService.encryptPrivateKey] *)
Definition encryptPrivateKey (privateKey : N) (password : jsstring)
  : rand Rng ProtectedKey :=
  rtry_catch
    (salt <- random_values 16 ;;
     derivedKey <- lift (deriveKeyFromPassword password salt) ;;
     iv <- random_values 12 ;;
     let privateKeyJWK := exportKey_jwk privateKey in
     let privateKeyString := JSON_stringify privateKeyJWK in
     let privateKeyBytes := TextEncoder_encode privateKeyString in
     let encryptedData := aes_gcm_encrypt derivedKey iv privateKeyBytes in
     encryptedPrivateKey <- lift (arrayBufferToBase64 encryptedData) ;;
     saltB64 <- lift (arrayBufferToBase64 salt) ;;
     ivB64 <- lift (arrayBufferToBase64 iv) ;;
     rret {| encryptedPrivateKey := encryptedPrivateKey; salt := saltB64;
             iv := ivB64 |})%rand
    (fun error => lift (Throw error)).

Definition wrong_password : exn := Error "Senha incorreta".

(** [CryptoService.decryptPrivateKey] *)
Definition decryptPrivateKey (encryptedPrivateKey salt iv password : jsstring)
  : result N :=
  try_catch
    (encryptedData <- base64ToArrayBuffer encryptedPrivateKey ;;
     saltBytes <- base64ToArrayBuffer salt ;;
     ivBytes <- base64ToArrayBuffer iv ;;
     derivedKey <- deriveKeyFromPassword password saltBytes ;;
     decryptedData <- subtle_decrypt ivBytes derivedKey encryptedData ;;
     let privateKeyString := TextDecoder_decode decryptedData in
     privateKeyJWK <- JSON_parse privateKeyString ;;
     privateKey <- importKey_jwk privateKeyJWK ;;
     Ok privateKey)
    (fun error =>
       if String.eqb (exn_name error) "OperationError"
       then Throw wrong_password
       else Throw (Error ("Falha ao decifrar chave privada: "
                          ++ exn_message error))).

Record GroupKeyEnvelope : Type := {
  encryptedGroupKey : jsstring;
  ephemeralPublicKey : jsstring
}.

(** Character code of [:]. *)
Definition colon : N := 58.

(** [CryptoService.encryptGroupKeyForMember] *)
Definition encryptGroupKeyForMember (groupKey memberPublicKeyRaw : bytes)
  : rand Rng GroupKeyEnvelope :=
  rtry_catch
    (ephemeralKeys <- generateKeyPair ;;
     memberPublicKey <- lift (importPublicKey memberPublicKeyRaw) ;;
     sharedSecret <- lift (computeSharedSecret (privateKey ephemeralKeys)
                             memberPublicKey) ;;
     wrapKey <- lift (deriveAESKey sharedSecret) ;;
     groupKeyB64 <- lift (arrayBufferToBase64 groupKey) ;;
     let groupKeyBytes := TextEncoder_encode groupKeyB64 in
     nonce <- random_values 12 ;;
     let encryptedData := aes_gcm_encrypt wrapKey nonce groupKeyBytes in
     encryptedB64 <- lift (arrayBufferToBase64 encryptedData) ;;
     nonceB64 <- lift (arrayBufferToBase64 nonce) ;;
     let combined := encryptedB64 ++ [colon] ++ nonceB64 in
     ephemeralB64 <- lift (arrayBufferToBase64 (publicKeyRaw ephemeralKeys)) ;;
     rret {| encryptedGroupKey := combined;
             ephemeralPublicKey := ephemeralB64 |})%rand
    (fun error => lift (Throw error)).

Definition invalid_format : exn := Error "Formato de chave cifrada inválido".

(** Steps 2 to 6 of [decryptGroupKey], once the two halves are there. *)
Definition decryptGroupKey_halves (encryptedData nonce : jsstring)
  (ephemeralPublicKeyB64 : jsstring) (myPrivateKey : N) : result bytes :=
  ephemeralPublicKeyRaw <- base64ToArrayBuffer ephemeralPublicKeyB64 ;;
  ephemeralPublicKey <- importPublicKey ephemeralPublicKeyRaw ;;
  sharedSecret <- computeSharedSecret myPrivateKey ephemeralPublicKey ;;
  wrapKey <- deriveAESKey sharedSecret ;;
  encryptedBuffer <- base64ToArrayBuffer encryptedData ;;
  nonceBuffer <- base64ToArrayBuffer nonce ;;
  decryptedData <- subtle_decrypt nonceBuffer wrapKey encryptedBuffer ;;
  let groupKeyB64 := TextDecoder_decode decryptedData in
  groupKeyBuffer <- base64ToArrayBuffer groupKeyB64 ;;
  Ok groupKeyBuffer.

(** [CryptoService.decryptGroupKey].  The first two pieces of the split are
    the halves; a piece that is missing ([undefined]) or empty is falsy. *)
Definition decryptGroupKey (encryptedGroupKey ephemeralPublicKeyB64 : jsstring)
  (myPrivateKey : N) : result bytes :=
  try_catch
    (let pieces := split colon encryptedGroupKey in
     match nth_error pieces 0, nth_error pieces 1 with
     | Some ((_ :: _) as encryptedData), Some ((_ :: _) as nonce) =>
         decryptGroupKey_halves encryptedData nonce ephemeralPublicKeyB64
           myPrivateKey
     | _, _ => Throw invalid_format
     end)
    (fun error => Throw error).

(** ** Names for the values the theorems speak of *)

(** The key [deriveKeyFromPassword] derives. *)
Definition password_key (password : jsstring) (salt : bytes) : AesKey :=
  pbkdf2_sha256 (TextEncoder_encode password) salt 100000.

(** The bytes [encryptPrivateKey] encrypts: the JSON text of the key. *)
Definition serialized_key (d : N) : bytes :=
  TextEncoder_encode (JSON_stringify (exportKey_jwk d)).

(** The key [deriveAESKey] derives from the secret shared by the private
    key [d] and the public key [Q]. *)
Definition exchange_key (d : N) (Q : point) : AesKey :=
  hkdf_sha256 (subtle_deriveBits_ECDH d Q) (repeat x00 32)
    (TextEncoder_encode (lit "chat-encryption-v1")).

(** A key pair as [generateKeyPair] makes them. *)
Definition valid_pair (keys : KeyPair) : Prop :=
  publicKey keys = public_of (privateKey keys)
  /\ publicKeyRaw keys = export_raw (publicKey keys).

(** Whether [base64ToArrayBuffer] accepts a string. *)
Definition decodes (s : jsstring) : bool :=
  match base64ToArrayBuffer s with
  | inr _ => true
  | inl _ => false
  end.

(** The separator or a half of the envelope is absent. *)
Definition halves_absent (envelope : jsstring) : bool :=
  match split colon envelope with
  | a :: b :: _ => negb (truthy a) || negb (truthy b)
  | _ => true
  end.

(** A malformed envelope: the separator or a half is absent, or a half is
    not base64 text. *)
Definition envelope_malformed (envelope : jsstring) : bool :=
  match split colon envelope with
  | a :: b :: _ => negb (decodes a) || negb (decodes b)
  | _ => true
  end.

Definition exn_eqb (e1 e2 : exn) : bool :=
  String.eqb (exn_name e1) (exn_name e2)
  && String.eqb (exn_message e1) (exn_message e2).

(** The failures of the encoding kind: text that is not base64, and an
    envelope without its two halves. *)
Definition is_encoding_failure (e : exn) : bool :=
  String.eqb (exn_name e) "InvalidCharacterError"
  || exn_eqb e (Error "Base64 inválido")
  || exn_eqb e invalid_format.

(** The wire form of a wrapped key: ciphertext and nonce in base64, one
    separator between them. *)
Definition wrapped_text (key : AesKey) (nonce12 plaintext : bytes) : jsstring :=
  base64_text (aes_gcm_encrypt key nonce12 plaintext)
  ++ [colon] ++ base64_text nonce12.

(** The ciphertext of a message for the holder of the public key [Q], made
    with the ephemeral private key [d] and the nonce [nonce12]. *)
Definition sealed_text (message : jsstring) (d : N) (Q : point)
  (nonce12 : bytes) : jsstring :=
  base64_text (aes_gcm_encrypt (exchange_key d Q) nonce12
                 (TextEncoder_encode message)).

(** ** The chat page: sending a direct message *)

(** The body of [GET /auth/user/:id]: a user, with or without a key. *)
Record Receiver : Type := {
  receiver_publicKey : option jsstring
}.

(** What [fetch] answered: [response.ok] and [response.json()]
    ([None] for [null]). *)
Record Response : Type := {
  response_ok : bool;
  response_json : option Receiver
}.

(** The payload of [socket.emit("message:send", ...)]. *)
Record MessageSend : Type := {
  senderId : jsstring;
  receiverId : jsstring;
  msg_encryptedData : jsstring;
  msg_nonce : jsstring;
  senderEphemPk : jsstring;
  senderEncryptedData : jsstring;
  senderNonce : jsstring;
  senderEphemPkForSelf : jsstring
}.

(** How [sendMessage] ends: it returned at once, it emitted the message, or
    it caught an error and showed it. *)
Inductive Outcome : Type :=
| Returned
| Emitted (message : MessageSend)
| Alerted (text : string).

(** The second half of the [try] block, the same in both versions of the
    page: the copy for the sender, then the payload. *)
Definition sendMessage_self (messageInput userId receiverId : jsstring)
  (forReceiver : Envelope) (ephemeralKeysForReceiver : KeyPair)
  (myPublicKeyRaw : bytes) : rand Rng MessageSend :=
  (ephemeralKeysForSelf <- generateKeyPair ;;
   myPublicKey <- lift (importPublicKey myPublicKeyRaw) ;;
   sharedSecretForSelf <-
     lift (computeSharedSecret (privateKey ephemeralKeysForSelf) myPublicKey) ;;
   aesKeyForSelf <- lift (deriveAESKey sharedSecretForSelf) ;;
   forSelf <- encryptMessage messageInput aesKeyForSelf ;;
   ephemPk <-
     lift (arrayBufferToBase64 (publicKeyRaw ephemeralKeysForReceiver)) ;;
   ephemPkForSelf <-
     lift (arrayBufferToBase64 (publicKeyRaw ephemeralKeysForSelf)) ;;
   rret {| senderId := userId;
           receiverId := receiverId;
           msg_encryptedData := encryptedData forReceiver;
           msg_nonce := nonce forReceiver;
           senderEphemPk := ephemPk;
           senderEncryptedData := encryptedData forSelf;
           senderNonce := nonce forSelf;
           senderEphemPkForSelf := ephemPkForSelf |})%rand.

Definition null_dereference : exn :=
  {| exn_name := "TypeError";
     exn_message := "Cannot read properties of null (reading 'byteLength')" |}.

(** The [try] block of [sendMessage].  [myPublicKeyRaw] is the
    [publicKeyRaw] of the session ([None] for [null]).  The page with groups
    ([checked = false]) imports it without the test for [null] the first
    page has. *)
Definition sendMessage_try (checked : bool)
  (messageInput userId receiverId : jsstring)
  (response : Response) (myPublicKeyRaw : option bytes)
  : rand Rng MessageSend :=
  if negb (response_ok response) then
    lift (Throw (Error "Erro ao buscar destinatário"))
  else
    match response_json response with
    | Some {| receiver_publicKey := Some ((_ :: _) as receiverKey) |} =>
        (receiverPublicKeyRaw <- lift (base64ToArrayBuffer receiverKey) ;;
         receiverPublicKey <- lift (importPublicKey receiverPublicKeyRaw) ;;
         ephemeralKeysForReceiver <- generateKeyPair ;;
         sharedSecretForReceiver <-
           lift (computeSharedSecret (privateKey ephemeralKeysForReceiver)
                   receiverPublicKey) ;;
         aesKeyForReceiver <- lift (deriveAESKey sharedSecretForReceiver) ;;
         forReceiver <- encryptMessage messageInput aesKeyForReceiver ;;
         match myPublicKeyRaw with
         | Some myPublicKeyRaw =>
             sendMessage_self messageInput userId receiverId forReceiver
               ephemeralKeysForReceiver myPublicKeyRaw
         | None =>
             if checked then
               lift (Throw (Error "Minha chave pública não disponível"))
             else
               (ephemeralKeysForSelf <- generateKeyPair ;;
                lift (Throw null_dereference))
         end)%rand
    | _ => lift (Throw (Error "Destinatário não possui chave pública"))
    end.

(** [sendMessage] of the chat page.  [selectedChat] is the identifier of the
    open conversation, [socket] tells whether the socket exists, [response]
    is what the directory answered for the receiver. *)
Definition sendMessage (checked : bool) (messageInput : jsstring)
  (selectedChat : option jsstring) (socket : bool) (userId : jsstring)
  (response : Response) (myPublicKeyRaw : option bytes) (rng : Rng)
  : Outcome * Rng :=
  match selectedChat with
  | Some receiverId =>
      if negb (truthy (trim messageInput)) || negb socket then (Returned, rng)
      else
        match sendMessage_try checked messageInput userId receiverId response
                myPublicKeyRaw rng with
        | (inr message, rng') => (Emitted message, rng')
        | (inl error, rng') =>
            (Alerted ("Erro ao enviar mensagem: " ++ exn_message error), rng')
        end
  | None => (Returned, rng)
  end.

End CryptoService.

(* ================================================================== *)
(** * What is assumed of the platform *)
(* ================================================================== *)

(** The contract of the provider the proofs rest on:
    - the addition of points is associative and has [pzero] as left
      identity (the points form a group; no more is used);
    - [getRandomValues] fills the whole array;
    - a raw public key has 65 bytes and is read back as the same point;
    - a private key exported as [jwk] and written as JSON is ASCII text,
      and is read back as the same key;
    - AES-GCM decrypts what it encrypted, and its ciphertext is the
      plaintext's length plus a tag of 16 bytes. *)
Class PlatformLaws (P : Platform) : Prop := {
  padd_assoc : forall a b c : point, padd a (padd b c) = padd (padd a b) c;
  padd_zero_l : forall a : point, padd pzero a = a;
  random_values_length :
    forall n rng, List.length (fst (getRandomValues n rng)) = n;
  raw_roundtrip : forall Q : point, import_raw (export_raw Q) = Some Q;
  raw_length : forall Q : point, List.length (export_raw Q) = 65%nat;
  jwk_roundtrip : forall d : N, importKey_jwk (exportKey_jwk d) = Ok d;
  json_roundtrip :
    forall d : N,
      JSON_parse (JSON_stringify (exportKey_jwk d)) = Ok (exportKey_jwk d);
  json_ascii :
    forall d : N, Forall (fun c => c < 128) (JSON_stringify (exportKey_jwk d));
  gcm_roundtrip :
    forall key iv plaintext,
      aes_gcm_decrypt key iv (aes_gcm_encrypt key iv plaintext) = Some plaintext;
  gcm_length :
    forall key iv plaintext,
      List.length (aes_gcm_encrypt key iv plaintext)
      = (List.length plaintext + 16)%nat
}.

(** The integrity of AES-GCM under a key, as far as single bits go: a
    ciphertext (tag included) or a 96-bit nonce with one bit flipped is
    rejected.  (For AES-GCM this holds of the nonce and of the tag for every
    key, and of the rest of the ciphertext for every key whose hash subkey
    is not zero.) *)
Definition gcm_detects_bit_flips {P : Platform} (key : AesKey) : Prop :=
  forall (iv plaintext : bytes) (i : nat),
    ((i < 8 * List.length (aes_gcm_encrypt key iv plaintext))%nat ->
     aes_gcm_decrypt key iv (flip_bit i (aes_gcm_encrypt key iv plaintext))
     = None)
    /\ (List.length iv = 12%nat -> (i < 96)%nat ->
        aes_gcm_decrypt key (flip_bit i iv) (aes_gcm_encrypt key iv plaintext)
        = None).

(* ================================================================== *)
(** * A small platform, to run the model on *)
(* ================================================================== *)

(** A platform that computes: the additive group of the bytes for the curve,
    a counter for the random generator, and for AES-GCM a cipher that adds a
    key byte to every byte and appends a tag of 16 bytes made of the nonce
    and of two checksums. *)
Module Toy.

Definition byte_sum (l : bytes) : N :=
  fold_right (fun b acc => Byte.to_N b + acc) 0 l.

Definition checksum (l : bytes) : byte := byte_of_N (byte_sum l).

Definition add_byte (m b : byte) : byte := byte_of_N (Byte.to_N b + Byte.to_N m).

Definition sub_byte (m b : byte) : byte :=
  byte_of_N (Byte.to_N b + 256 - Byte.to_N m).

Definition tag (key iv body : bytes) : bytes :=
  firstn 12 (iv ++ repeat x00 12) ++ [checksum body; checksum key; x00; x00].

Fixpoint bytes_eqb (a b : bytes) : bool :=
  match a, b with
  | [], [] => true
  | x :: a', y :: b' => Byte.eqb x y && bytes_eqb a' b'
  | _, _ => false
  end.

Definition encrypt (key iv plaintext : bytes) : bytes :=
  let body := map (add_byte (checksum key)) plaintext in
  body ++ tag key iv body.

Definition decrypt (key iv data : bytes) : option bytes :=
  if (List.length data <? 16)%nat then None
  else
    let n := (List.length data - 16)%nat in
    let body := firstn n data in
    if bytes_eqb (skipn n data) (tag key iv body)
    then Some (map (sub_byte (checksum key)) body)
    else None.

Definition random (n : nat) (rng : N) : bytes * N :=
  (map (fun i => byte_of_N (rng + N.of_nat i)) (seq 0 n), rng + N.of_nat n).

Definition export (Q : byte) : bytes := x04 :: Q :: repeat x00 63.

Definition import (keyData : bytes) : option byte :=
  match keyData with
  | x04 :: Q :: rest => if (List.length rest =? 63)%nat then Some Q else None
  | _ => None
  end.

(** The JSON text of the key [d]: [{] then [d] times the letter [d] then
    [}]. *)
Definition stringify (d : N) : jsstring :=
  [123] ++ repeat 100 (N.to_nat d) ++ [125].

Fixpoint parse_letters (s : jsstring) : option N :=
  match s with
  | [c] => if c =? 125 then Some 0 else None
  | c :: rest =>
      if c =? 100 then option_map N.succ (parse_letters rest) else None
  | [] => None
  end.

Definition syntax_error : exn :=
  {| exn_name := "SyntaxError"; exn_message := "Unexpected token" |}.

Definition parse (s : jsstring) : result N :=
  match s with
  | c :: rest =>
      if c =? 123 then
        match parse_letters rest with
        | Some d => Ok d
        | None => Throw syntax_error
        end
      else Throw syntax_error
  | [] => Throw syntax_error
  end.

Definition platform : Platform := {|
  Rng := N;
  getRandomValues := random;
  point := byte;
  padd := fun a b => byte_of_N (Byte.to_N a + Byte.to_N b);
  pzero := x00;
  base_point := x01;
  random_scalar := fun rng => (rng + 1, rng + 1);
  x_coordinate := fun Q => Q :: repeat x00 31;
  export_raw := export;
  import_raw := import;
  JWK := N;
  exportKey_jwk := fun d => d;
  importKey_jwk := fun j => Ok j;
  JSON_stringify := stringify;
  JSON_parse := parse;
  AesKey := bytes;
  hkdf_sha256 := fun secret salt info => secret ++ info;
  pbkdf2_sha256 := fun password salt _ => password ++ salt;
  aes_gcm_encrypt := encrypt;
  aes_gcm_decrypt := decrypt
|}.

End Toy.

(** ** Sample inputs on the small platform *)

(** A group key of 256 bits. *)
Definition sample_group_key : bytes :=
  map (fun i => byte_of_N (N.of_nat i)) (seq 1 32).

(** The answer of the directory for a receiver whose public key is the
    point [x05]. *)
Definition sample_response : Response :=
  {| response_ok := true;
     response_json :=
       Some {| receiver_publicKey := Some (base64_text (Toy.export x05)) |} |}.

Definition empty_message : MessageSend :=
  {| senderId := []; receiverId := []; msg_encryptedData := [];
     msg_nonce := []; senderEphemPk := []; senderEncryptedData := [];
     senderNonce := []; senderEphemPkForSelf := [] |}.

(** The message an outcome emitted, if it did. *)
Definition emitted (o : Outcome) : MessageSend :=
  match o with
  | Emitted message => message
  | _ => empty_message
  end.

(** The alphabet values and the padding [btoa_groups] writes. *)
Fixpoint enc_sextets (s : list N) : list N :=
  match s with
  | [] => []
  | [a] => [a / 4; (a mod 4) * 16]
  | [a; b] => [a / 4; (a mod 4) * 16 + b / 16; (b mod 16) * 4]
  | a :: b :: c :: rest =>
      a / 4 :: (a mod 4) * 16 + b / 16 :: (b mod 16) * 4 + c / 64 :: c mod 64
      :: enc_sextets rest
  end.

Fixpoint enc_padding (s : list N) : list N :=
  match s with
  | [] => []
  | [_] => [pad_char; pad_char]
  | [_; _] => [pad_char]
  | _ :: _ :: _ :: rest => enc_padding rest
  end.

(* ================================================================== *)
(** * The chat page: receiving and reading direct messages *)
(* ================================================================== *)

(** [a === b] for two strings. *)
Fixpoint jsstring_eqb (a b : jsstring) : bool :=
  match a, b with
  | [], [] => true
  | x :: a', y :: b' => (x =? y) && jsstring_eqb a' b'
  | _, _ => false
  end.

(** [a === b] for two values that are a string or [undefined] ([None]). *)
Definition strict_equal (a b : option jsstring) : bool :=
  match a, b with
  | Some x, Some y => jsstring_eqb x y
  | None, None => true
  | _, _ => false
  end.

(** Truthiness of a value that is a string or [undefined]. *)
Definition truthy_value (v : option jsstring) : bool :=
  match v with
  | Some s => truthy s
  | None => false
  end.

(** A [Date], as its time value.  [new Date(v)] of a field the server
    filled is the instant the field denotes. *)
Definition Date : Type := N.

(** [n.toString()] of a non-negative integer. *)
Definition Number_toString (n : N) : jsstring :=
  lit (NilZero.string_of_uint (N.to_uint n)).

(** A direct message as the server delivers it on the socket and returns it
    in a conversation ([any] in the source).  The identifiers are a string
    or [undefined].  A text field that is absent is the empty string here:
    the code tests such a field for truthiness or hands it to
    [base64ToArrayBuffer], and both treat [undefined] as they treat the
    empty string. *)
Record EncryptedMessage : Type := {
  em_id : option jsstring;
  em_senderId : option jsstring;
  em_receiverId : option jsstring;
  em_groupId : option jsstring;
  em_encryptedData : jsstring;
  em_nonce : jsstring;
  em_senderEphemPk : jsstring;
  em_senderEncryptedData : jsstring;
  em_senderNonce : jsstring;
  em_senderEphemPkForSelf : jsstring;
  em_createdAt : Date
}.

(** [interface Message] of the page: a message as it is shown. *)
Record Message : Type := {
  shown_id : option jsstring;
  shown_senderId : option jsstring;
  shown_text : jsstring;
  shown_createdAt : Date;
  shown_decrypted : bool
}.

(** [interface Chat], with the public key the page with groups keeps in it
    and the two fields [decryptAndAddMessage] writes. *)
Record Chat : Type := {
  chat_userId : jsstring;
  chat_name : jsstring;
  chat_email : jsstring;
  chat_publicKey : option jsstring;
  chat_lastMessage : option jsstring;
  chat_lastMessageTime : option Date
}.

(** The two pieces of state of the page the receive path writes. *)
Record ChatState : Type := {
  messages : list Message;
  chats : list Chat
}.

(** [crypto.subtle.deriveBits] given [null] for the key. *)
Definition not_a_key : exn :=
  {| exn_name := "TypeError";
     exn_message := "Failed to execute 'deriveBits' on 'SubtleCrypto': parameter 2 is not of type 'CryptoKey'." |}.

(** The text shown in place of a message that could not be decrypted: the
    first page says more than the page with groups. *)
Definition placeholder (withGroups : bool) : jsstring :=
  if withGroups then lit "[Erro ao descriptografar]"
  else lit "[Erro ao descriptografar - verifique o console]".

Section ChatPage.

Context {P : Platform}.

(** [CryptoService.computeSharedSecret(privateKey!, ...)], where the private
    key of the session may be [null]. *)
Definition computeSharedSecret_session (privateKey : option N)
  (theirPublicKey : point) : result bytes :=
  match privateKey with
  | Some myPrivateKey => computeSharedSecret myPrivateKey theirPublicKey
  | None => try_catch (Throw not_a_key) (fun error => Throw error)
  end.

(** The steps every receive path repeats: import the ephemeral public key,
    agree on the secret with the private key of the session, derive the
    key, decrypt. *)
Definition open_envelope (privateKey : option N)
  (ephemPk encryptedData nonce : jsstring) : result jsstring :=
  ephemPkRaw <- base64ToArrayBuffer ephemPk ;;
  ephemPublicKey <- importPublicKey ephemPkRaw ;;
  sharedSecret <- computeSharedSecret_session privateKey ephemPublicKey ;;
  aesKey <- deriveAESKey sharedSecret ;;
  decryptMessage encryptedData nonce aesKey.

(** The [try] block of [decryptAndAddMessage], up to the decrypted text. *)
Definition decryptAndAddMessage_text (withGroups : bool)
  (privateKey : option N) (encryptedMessage : EncryptedMessage)
  : result jsstring :=
  match privateKey with
  | None =>
      Throw (Error (if withGroups then "Chave privada não disponível"
                    else "Chave privada não encontrada"))
  | Some _ =>
      open_envelope privateKey (em_senderEphemPk encryptedMessage)
        (em_encryptedData encryptedMessage) (em_nonce encryptedMessage)
  end.

(** [decryptAndAddMessage] of the chat page, as the change of
    [messages] ([setMessages]) and [chats] ([setChats]).  [now] is the clock
    ([new Date()], [Date.now()]). *)
Definition decryptAndAddMessage (withGroups : bool) (privateKey : option N)
  (encryptedMessage : EncryptedMessage) (now : Date) (state : ChatState)
  : ChatState :=
  match decryptAndAddMessage_text withGroups privateKey encryptedMessage with
  | inr decryptedText =>
      let message :=
        {| shown_id := em_id encryptedMessage;
           shown_senderId := em_senderId encryptedMessage;
           shown_text := decryptedText;
           shown_createdAt := em_createdAt encryptedMessage;
           shown_decrypted := true |} in
      {| messages :=
           (let prev := messages state in
            let exists_ :=
              existsb (fun m => strict_equal (shown_id m) (shown_id message))
                prev in
            if exists_ then prev else prev ++ [message]);
         chats :=
           map (fun chat =>
                  if strict_equal (Some (chat_userId chat))
                       (em_senderId encryptedMessage)
                  then {| chat_userId := chat_userId chat;
                          chat_name := chat_name chat;
                          chat_email := chat_email chat;
                          chat_publicKey := chat_publicKey chat;
                          chat_lastMessage := Some (firstn 50 decryptedText);
                          chat_lastMessageTime := Some now |}
                  else chat)
               (chats state) |}
  | inl _ =>
      {| messages :=
           messages state
           ++ [{| shown_id :=
                    Some (match em_id encryptedMessage with
                          | Some ((_ :: _) as id) => id
                          | _ => Number_toString now
                          end);
                  shown_senderId := em_senderId encryptedMessage;
                  shown_text := placeholder withGroups;
                  shown_createdAt := now;
                  shown_decrypted := false |}];
         chats := chats state |}
  end.

(** The listener the page registers with [socketService.onMessage]: only a
    message addressed to the user (and, on the page with groups, one that
    belongs to no group) is decrypted. *)
Definition message_listener (withGroups : bool) (userId : jsstring)
  (privateKey : option N) (encryptedMessage : EncryptedMessage) (now : Date)
  (state : ChatState) : ChatState :=
  if strict_equal (em_receiverId encryptedMessage) (Some userId)
     && (negb withGroups || negb (truthy_value (em_groupId encryptedMessage)))
  then decryptAndAddMessage withGroups privateKey encryptedMessage now state
  else state.

(** The inner [try] block of [loadConversation]: the text of one stored
    message.  A message the user sent is read from its copy for the
    sender. *)
Definition loadConversation_text (userId : jsstring) (privateKey : option N)
  (msg : EncryptedMessage) : result jsstring :=
  let isOutgoing := strict_equal (em_senderId msg) (Some userId) in
  if isOutgoing then
    if negb (truthy (em_senderEncryptedData msg))
       || negb (truthy (em_senderNonce msg))
       || negb (truthy (em_senderEphemPkForSelf msg))
    then Throw (Error "Mensagem enviada antes da atualização")
    else
      open_envelope privateKey (em_senderEphemPkForSelf msg)
        (em_senderEncryptedData msg) (em_senderNonce msg)
  else
    open_envelope privateKey (em_senderEphemPk msg) (em_encryptedData msg)
      (em_nonce msg).

(** One turn of the loop of [loadConversation]: the entry pushed for
    [msg]. *)
Definition loadConversation_entry (userId : jsstring) (privateKey : option N)
  (msg : EncryptedMessage) : Message :=
  match loadConversation_text userId privateKey msg with
  | inr decryptedText =>
      {| shown_id := em_id msg;
         shown_senderId := em_senderId msg;
         shown_text := decryptedText;
         shown_createdAt := em_createdAt msg;
         shown_decrypted := true |}
  | inl _ =>
      {| shown_id := em_id msg;
         shown_senderId := em_senderId msg;
         shown_text := lit "[Erro ao descriptografar]";
         shown_createdAt := em_createdAt msg;
         shown_decrypted := false |}
  end.

(** [loadConversation]: the value of [messages] when it ends.  [response]
    is what [fetch] and [response.json()] gave: the stored messages, or the
    error they threw, after which the list stays as [setMessages([])] left
    it. *)
Definition loadConversation (userId : jsstring) (privateKey : option N)
  (response : result (list EncryptedMessage)) : list Message :=
  match response with
  | inr data =>
      fold_left
        (fun decryptedMessages msg =>
           decryptedMessages ++ [loadConversation_entry userId privateKey msg])
        data []
  | inl _ => []
  end.

End ChatPage.

(** The message the server stores and delivers for an emitted payload: the
    fields of the payload, with the identifier and the date the server
    gives it. *)
Definition delivered (id : option jsstring) (createdAt : Date)
  (message : MessageSend) : EncryptedMessage :=
  {| em_id := id;
     em_senderId := Some (senderId message);
     em_receiverId := Some (receiverId message);
     em_groupId := None;
     em_encryptedData := msg_encryptedData message;
     em_nonce := msg_nonce message;
     em_senderEphemPk := senderEphemPk message;
     em_senderEncryptedData := senderEncryptedData message;
     em_senderNonce := senderNonce message;
     em_senderEphemPkForSelf := senderEphemPkForSelf message;
     em_createdAt := createdAt |}.

(* ================================================================== *)
(** * The session: [AuthContext] *)
(* ================================================================== *)

(** The body of an answer of the server about a user ([any] in the
    source).  A text field that is absent is the empty string: the code
    tests such a field for truthiness or hands it to
    [base64ToArrayBuffer]. *)
Record UserData : Type := {
  user_id : jsstring;
  user_name : jsstring;
  user_email : jsstring;
  user_publicKey : jsstring;
  user_encryptedPrivateKey : jsstring;
  user_salt : jsstring;
  user_iv : jsstring
}.

(** [JSON.stringify] and [JSON.parse] on the user object. *)
Class UserJSON : Type := {
  JSON_stringify_user : UserData -> jsstring;
  JSON_parse_user : jsstring -> result UserData
}.

(** An object used as a map from strings to strings. *)
Definition JSObject : Type := list (jsstring * jsstring).

(** [obj[key]] *)
Fixpoint get_property (obj : JSObject) (key : jsstring) : option jsstring :=
  match obj with
  | [] => None
  | (k, v) :: rest => if jsstring_eqb k key then Some v else get_property rest key
  end.

(** [obj[key] = value] *)
Fixpoint set_property (obj : JSObject) (key value : jsstring) : JSObject :=
  match obj with
  | [] => [(key, value)]
  | (k, v) :: rest =>
      if jsstring_eqb k key then (k, value) :: rest
      else (k, v) :: set_property rest key value
  end.

(** The entries of [localStorage] the application uses.  [user] and
    [privateKeyJWK] are JSON text, [None] when the entry is absent
    ([getItem] gives [null]).  [groupKeys] is held as the object its JSON
    text denotes, the empty object when the entry is absent. *)
Record LocalStorage : Type := {
  stored_user : option jsstring;
  stored_privateKeyJWK : option jsstring;
  stored_groupKeys : JSObject
}.

(** What a request to the server came to: [fetch] or [response.json()]
    threw, the response was not [ok] (with the [message] of its body, empty
    when there is none), or it was [ok] with a body. *)
Inductive Answer (A : Type) : Type :=
| Failed (error : exn)
| NotOk (message : string)
| Accepted (data : A).

Arguments Failed {A} error.
Arguments NotOk {A} message.
Arguments Accepted {A} data.

(** The body of [POST /auth/register]. *)
Record RegisterBody : Type := {
  body_name : jsstring;
  body_email : jsstring;
  body_phone : jsstring;
  body_password : jsstring;
  body_publicKey : jsstring;
  body_encryptedPrivateKey : jsstring;
  body_salt : jsstring;
  body_iv : jsstring
}.

(** How [handleAddChat] ends: the state [chats], and the text of the alert
    if it showed one. *)
Record ChatAdded : Type := {
  added_chats : list Chat;
  added_alert : option string
}.

(** [handleAddChat].  [answer] is what the directory answered for the
    e-mail address.  The page with groups looks for a conversation with the
    user that was found before it adds one, the first page does not. *)
Definition handleAddChat (withGroups : bool) (answer : Answer UserData)
  (chats : list Chat) : ChatAdded :=
  match answer with
  | Failed error =>
      {| added_chats := chats;
         added_alert :=
           Some (if withGroups then "Erro: " ++ exn_message error
                 else "Erro ao adicionar contato")%string |}
  | NotOk _ =>
      {| added_chats := chats;
         added_alert :=
           Some (if withGroups then "Erro: Usuário não encontrado"
                 else "Usuário não encontrado")%string |}
  | Accepted foundUser =>
      if withGroups then
        let exists_ :=
          existsb (fun c => jsstring_eqb (chat_userId c) (user_id foundUser))
            chats in
        if exists_ then
          {| added_chats := chats;
             added_alert :=
               Some "Você já tem uma conversa com este usuário"%string |}
        else
          {| added_chats :=
               chats
               ++ [{| chat_userId := user_id foundUser;
                      chat_name := user_name foundUser;
                      chat_email := user_email foundUser;
                      chat_publicKey := Some (user_publicKey foundUser);
                      chat_lastMessage := None;
                      chat_lastMessageTime := None |}];
             added_alert :=
               Some ("Chat com "
                     ++ string_of_list_byte
                          (TextEncoder_encode (user_name foundUser))
                     ++ " adicionado!")%string |}
      else
        {| added_chats :=
             chats
             ++ [{| chat_userId := user_id foundUser;
                    chat_name := user_name foundUser;
                    chat_email := user_email foundUser;
                    chat_publicKey := None;
                    chat_lastMessage := None;
                    chat_lastMessageTime := None |}];
           added_alert := None |}
  end.

Section AuthContext.

Context {P : Platform} {J : UserJSON}.

(** The four pieces of state of [AuthProvider]; [None] is [null]. *)
Record Session : Type := {
  session_user : option UserData;
  session_privateKey : option N;
  session_publicKey : option point;
  session_publicKeyRaw : option bytes
}.

Definition no_session : Session :=
  {| session_user := None; session_privateKey := None;
     session_publicKey := None; session_publicKeyRaw := None |}.

(** [localStorage.removeItem("user")] and
    [localStorage.removeItem("privateKeyJWK")] *)
Definition remove_session_items (storage : LocalStorage) : LocalStorage :=
  {| stored_user := None; stored_privateKeyJWK := None;
     stored_groupKeys := stored_groupKeys storage |}.

(** The effect that runs when [AuthProvider] mounts: the session is read
    back from [localStorage]. *)
Definition restore_session (storage : LocalStorage) : Session * LocalStorage :=
  match stored_user storage, stored_privateKeyJWK storage with
  | Some ((_ :: _) as savedUser), Some ((_ :: _) as savedPrivateKeyJWK) =>
      match
        (user <- JSON_parse_user savedUser ;;
         privateKeyJWK <- JSON_parse savedPrivateKeyJWK ;;
         privKey <- importKey_jwk privateKeyJWK ;;
         let publicKeyRawB64 := user_publicKey user in
         pubKeyRaw <- base64ToArrayBuffer publicKeyRawB64 ;;
         pubKey <- importPublicKey pubKeyRaw ;;
         Ok {| session_user := Some user;
               session_privateKey := Some privKey;
               session_publicKey := Some pubKey;
               session_publicKeyRaw := Some pubKeyRaw |})
      with
      | inr session => (session, storage)
      | inl _ => (no_session, remove_session_items storage)
      end
  | _, _ => (no_session, storage)
  end.

(** The state and the storage once the keys of a user are at hand: steps 4
    and 5 of [register], 5 and 6 of [login]. *)
Definition open_session (data : UserData) (privKey : N) (pubKey : point)
  (pubKeyRaw : bytes) (storage : LocalStorage) : Session * LocalStorage :=
  ({| session_user := Some data;
      session_privateKey := Some privKey;
      session_publicKey := Some pubKey;
      session_publicKeyRaw := Some pubKeyRaw |},
   {| stored_user := Some (JSON_stringify_user data);
      stored_privateKeyJWK := Some (JSON_stringify (exportKey_jwk privKey));
      stored_groupKeys := stored_groupKeys storage |}).

(** [register], up to the request: the key pair and the body that is
    sent. *)
Definition register_request (name email phone password : jsstring)
  : rand Rng (KeyPair * RegisterBody) :=
  (keys <- generateKeyPair ;;
   publicKeyB64 <- lift (arrayBufferToBase64 (publicKeyRaw keys)) ;;
   protected <- encryptPrivateKey (privateKey keys) password ;;
   rret (keys,
         {| body_name := name;
            body_email := email;
            body_phone := phone;
            body_password := password;
            body_publicKey := publicKeyB64;
            body_encryptedPrivateKey := encryptedPrivateKey protected;
            body_salt := salt protected;
            body_iv := iv protected |}))%rand.

(** [register], from the answer of the server on. *)
Definition register_answer (keys : KeyPair) (answer : Answer UserData)
  (storage : LocalStorage) : result (Session * LocalStorage) :=
  match answer with
  | Failed error => Throw error
  | NotOk message =>
      Throw (Error (if String.eqb message "" then "Erro ao registrar"
                    else message))
  | Accepted data =>
      Ok (open_session data (privateKey keys) (publicKey keys)
            (publicKeyRaw keys) storage)
  end.

(** [register]: the session and the storage it leaves when it returns; when
    it throws both are as they were.  [server] is the server, from the body
    of the request to its answer. *)
Definition register (name email phone password : jsstring)
  (server : RegisterBody -> Answer UserData) (storage : LocalStorage)
  : rand Rng (Session * LocalStorage) :=
  rtry_catch
    (request <- register_request name email phone password ;;
     lift (register_answer (fst request) (server (snd request)) storage))%rand
    (fun error => lift (Throw error)).

(** [login]: the session and the storage it leaves when it returns.
    [answer] is what the server answered to the e-mail address and the
    password. *)
Definition login (email password : jsstring) (answer : Answer UserData)
  (storage : LocalStorage) : result (Session * LocalStorage) :=
  try_catch
    match answer with
    | Failed error => Throw error
    | NotOk _ => Throw (Error "Credenciais inválidas")
    | Accepted data =>
        if negb (truthy (user_encryptedPrivateKey data))
           || negb (truthy (user_salt data))
           || negb (truthy (user_iv data))
        then
          Throw (Error "Chave privada não encontrada. Faça cadastro novamente.")
        else
          privKey <- decryptPrivateKey (user_encryptedPrivateKey data)
                       (user_salt data) (user_iv data) password ;;
          pubKeyRaw <- base64ToArrayBuffer (user_publicKey data) ;;
          pubKey <- importPublicKey pubKeyRaw ;;
          Ok (open_session data privKey pubKey pubKeyRaw storage)
    end
    (fun error => Throw error).

(** [logout] *)
Definition logout (storage : LocalStorage) : Session * LocalStorage :=
  (no_session, remove_session_items storage).

(** What the user does with the session, one action after another. *)
Inductive AuthAction : Type :=
| Register (name email phone password : jsstring)
    (server : RegisterBody -> Answer UserData)
| Login (email password : jsstring) (answer : Answer UserData)
| Logout.

(** One action: an action that throws leaves the session and the storage as
    they were. *)
Definition auth_action (action : AuthAction) (state : Session * LocalStorage)
  (rng : Rng) : (Session * LocalStorage) * Rng :=
  match action with
  | Register name email phone password server =>
      match register name email phone password server (snd state) rng with
      | (inr state', rng') => (state', rng')
      | (inl _, rng') => (state, rng')
      end
  | Login email password answer =>
      match login email password answer (snd state) with
      | inr state' => (state', rng)
      | inl _ => (state, rng)
      end
  | Logout => (logout (snd state), rng)
  end.

(** The provider mounts on [storage], then the actions follow. *)
Fixpoint auth_actions (actions : list AuthAction)
  (state : Session * LocalStorage) (rng : Rng)
  : (Session * LocalStorage) * Rng :=
  match actions with
  | [] => (state, rng)
  | action :: rest =>
      let (state', rng') := auth_action action state rng in
      auth_actions rest state' rng'
  end.

(** The session holds its four pieces. *)
Definition signed_in (session : Session) : Prop :=
  exists data privKey pubKey pubKeyRaw,
    session = {| session_user := Some data;
                 session_privateKey := Some privKey;
                 session_publicKey := Some pubKey;
                 session_publicKeyRaw := Some pubKeyRaw |}
    /\ import_raw pubKeyRaw = Some pubKey.

(** The server kept what [register] sent. *)
Definition kept (data : UserData) (body : RegisterBody) : Prop :=
  user_publicKey data = body_publicKey body
  /\ user_encryptedPrivateKey data = body_encryptedPrivateKey body
  /\ user_salt data = body_salt body
  /\ user_iv data = body_iv body.

(** What every action keeps: the session is empty or whole, and the stored
    group keys are those of [groupKeys]. *)
Definition session_kept (groupKeys : JSObject)
  (state : Session * LocalStorage) : Prop :=
  (fst state = no_session \/ signed_in (fst state))
  /\ stored_groupKeys (snd state) = groupKeys.

End AuthContext.

(** What is assumed of JSON on the objects the session stores: the text of
    a user object, and of a key, is not empty, and a user object is read
    back from its text. *)
Class UserJSONLaws (P : Platform) (J : UserJSON) : Prop := {
  user_json_roundtrip :
    forall data : UserData,
      JSON_parse_user (JSON_stringify_user data) = Ok data;
  user_json_nonempty :
    forall data : UserData, JSON_stringify_user data <> [];
  key_json_nonempty :
    forall d : N, JSON_stringify (exportKey_jwk d) <> []
}.

(* ================================================================== *)
(** * Groups: the group key, the group chat, the creation of a group *)
(* ================================================================== *)

(** The AES keys the provider generates, exports and imports in the [raw]
    format: [generateKey({name: "AES-GCM", length: 256}, true, ...)],
    [exportKey("raw", key)] and [importKey("raw", keyBytes, ...)], which is
    [None] when the provider rejects the bytes ([DataError]). *)
Class GroupKeyProvider (P : Platform) : Type := {
  generate_aes : Rng -> AesKey * Rng;
  export_aes_raw : AesKey -> bytes;
  import_aes_raw : bytes -> option AesKey
}.

(** What is assumed of it: a generated key is exported as bytes (not none)
    that import as the same key. *)
Class GroupKeyLaws (P : Platform) (G : GroupKeyProvider P) : Prop := {
  aes_raw_nonempty :
    forall rng, export_aes_raw (fst (generate_aes rng)) <> [];
  aes_raw_roundtrip :
    forall rng,
      import_aes_raw (export_aes_raw (fst (generate_aes rng)))
      = Some (fst (generate_aes rng))
}.

(** A group as the server lists it for a member ([any] in the source), with
    the group key wrapped for that member. *)
Record Group : Type := {
  group_id : jsstring;
  myEncryptedGroupKey : jsstring;
  myEphemeralPublicKey : jsstring;
  myKeyVersion : N
}.

(** A group message as the server delivers it on the socket and lists it in
    the history ([any] in the source).  [gem_sender] is the [name] of the
    field [sender] of a listed message, [None] when the message has no
    field [sender]. *)
Record GroupEncryptedMessage : Type := {
  gem_id : option jsstring;
  gem_groupId : option jsstring;
  gem_senderId : option jsstring;
  gem_senderName : jsstring;
  gem_sender : option jsstring;
  gem_encryptedData : jsstring;
  gem_nonce : jsstring;
  gem_createdAt : Date
}.

(** [interface GroupMessage] *)
Record GroupMessage : Type := {
  gm_id : option jsstring;
  gm_senderId : option jsstring;
  gm_senderName : jsstring;
  gm_text : jsstring;
  gm_createdAt : Date;
  gm_decrypted : bool
}.

(** The payload of [emit("group:message:send", ...)]. *)
Record GroupPayload : Type := {
  payload_groupId : jsstring;
  payload_senderId : jsstring;
  payload_encryptedData : jsstring;
  payload_nonce : jsstring;
  payload_keyVersion : N
}.

(** The body of [POST /chat/group/member]. *)
Record AddMemberBody : Type := {
  add_groupId : jsstring;
  add_userId : jsstring;
  add_encryptedGroupKey : jsstring;
  add_ephemeralPublicKey : jsstring;
  add_addedBy : jsstring
}.

(** An entry of [members] in the body of [POST /chat/group]. *)
Record MemberKey : Type := {
  mk_userId : jsstring;
  mk_encryptedGroupKey : jsstring;
  mk_ephemeralPublicKey : jsstring
}.

(** The body of [POST /chat/group]. *)
Record CreateGroupBody : Type := {
  cg_name : jsstring;
  cg_description : option jsstring;
  cg_creatorId : jsstring;
  cg_members : list MemberKey
}.

(** Reading a property of [undefined]. *)
Definition undefined_dereference (property : string) : exn :=
  {| exn_name := "TypeError";
     exn_message :=
       "Cannot read properties of undefined (reading '" ++ property ++ "')" |}.

(** Character code of the comma. *)
Definition comma : N := 44.

(** The calls of a list of requests one after another, up to the first that
    throws. *)
Fixpoint all_results {A B : Type} (f : A -> result B) (l : list A)
  : result (list B) :=
  match l with
  | [] => Ok []
  | a :: rest =>
      b <- f a ;;
      bs <- all_results f rest ;;
      Ok (b :: bs)
  end.

Fixpoint all_rand {S A B : Type} (f : A -> rand S B) (l : list A)
  : rand S (list B) :=
  match l with
  | [] => rret []
  | a :: rest =>
      (b <- f a ;;
       bs <- all_rand f rest ;;
       rret (b :: bs))%rand
  end.

Section Groups.

Context {P : Platform} {G : GroupKeyProvider P}.

(** [CryptoService.generateGroupKey] *)
Definition generateGroupKey : rand Rng AesKey :=
  rtry_catch
    (fun rng => let (key, rng') := generate_aes rng in (Ok key, rng'))
    (fun error => lift (Throw error)).

(** [CryptoService.exportGroupKey] *)
Definition exportGroupKey (key : AesKey) : result bytes :=
  try_catch (Ok (export_aes_raw key)) (fun error => Throw error).

(** [CryptoService.importGroupKey] *)
Definition importGroupKey (keyBytes : bytes) : result AesKey :=
  try_catch
    (match import_aes_raw keyBytes with
     | Some key => Ok key
     | None => Throw data_error
     end)
    (fun error => Throw error).

(** [CryptoService.encryptGroupMessage] *)
Definition encryptGroupMessage (message : jsstring) (groupKey : AesKey)
  : rand Rng Envelope :=
  encryptMessage message groupKey.

(** [CryptoService.decryptGroupMessage] *)
Definition decryptGroupMessage (encryptedData nonce : jsstring)
  (groupKey : AesKey) : result jsstring :=
  decryptMessage encryptedData nonce groupKey.

(** [msg.sender.name] *)
Definition sender_name (msg : GroupEncryptedMessage) : result jsstring :=
  match gem_sender msg with
  | Some name => Ok name
  | None => Throw (undefined_dereference "name")
  end.

(** One turn of the loop of [loadGroupKeyAndMessages]: the entry pushed for
    [msg].  The [catch] block reads [msg.sender.name] as the [try] block
    does, and throws as it does when the message has no [sender]. *)
Definition loadGroupKeyAndMessages_entry (gKey : AesKey)
  (msg : GroupEncryptedMessage) : result GroupMessage :=
  try_catch
    (decryptedText <-
       decryptGroupMessage (gem_encryptedData msg) (gem_nonce msg) gKey ;;
     senderName <- sender_name msg ;;
     Ok {| gm_id := gem_id msg;
           gm_senderId := gem_senderId msg;
           gm_senderName := senderName;
           gm_text := decryptedText;
           gm_createdAt := gem_createdAt msg;
           gm_decrypted := true |})
    (fun _ =>
       senderName <- sender_name msg ;;
       Ok {| gm_id := gem_id msg;
             gm_senderId := gem_senderId msg;
             gm_senderName := senderName;
             gm_text := lit "[Erro ao descriptografar]";
             gm_createdAt := gem_createdAt msg;
             gm_decrypted := false |}).

(** [localStorage.setItem("groupKeys", ...)] with [groupKeys[id]] set to
    [groupKeyB64]. *)
Definition store_group_key (storage : LocalStorage) (id groupKeyB64 : jsstring)
  : LocalStorage :=
  {| stored_user := stored_user storage;
     stored_privateKeyJWK := stored_privateKeyJWK storage;
     stored_groupKeys := set_property (stored_groupKeys storage) id groupKeyB64 |}.

(** What [loadGroupKeyAndMessages] leaves: the state [groupKey], the state
    [messages], [localStorage], and the text of the alert if it showed
    one. *)
Record GroupLoad : Type := {
  load_groupKey : option AesKey;
  load_messages : list GroupMessage;
  load_storage : LocalStorage;
  load_alert : option string
}.

End Groups.

Module GroupChat.

Section GroupChat.

Context {P : Platform} {G : GroupKeyProvider P}.

(** [loadGroupKeyAndMessages].  [privateKey] is the private key of the
    session, [answer] what the server answered to the request for the
    messages; [groupKey] and [messages] are the state before. *)
Definition loadGroupKeyAndMessages (group : Group) (privateKey : N)
  (answer : Answer (list GroupEncryptedMessage)) (groupKey : option AesKey)
  (messages : list GroupMessage) (storage : LocalStorage) : GroupLoad :=
  let caught (key : option AesKey) (storage : LocalStorage) (error : exn) :=
    {| load_groupKey := key;
       load_messages := messages;
       load_storage := storage;
       load_alert :=
         Some ("Erro ao carregar grupo: " ++ exn_message error)%string |} in
  match decryptGroupKey (myEncryptedGroupKey group)
          (myEphemeralPublicKey group) privateKey with
  | inl error => caught groupKey storage error
  | inr groupKeyRaw =>
      match importGroupKey groupKeyRaw with
      | inl error => caught groupKey storage error
      | inr gKey =>
          match arrayBufferToBase64 groupKeyRaw with
          | inl error => caught (Some gKey) storage error
          | inr groupKeyB64 =>
              let storage' :=
                store_group_key storage (group_id group) groupKeyB64 in
              match answer with
              | Failed error => caught (Some gKey) storage' error
              | NotOk _ =>
                  caught (Some gKey) storage'
                    (Error "Erro ao carregar mensagens")
              | Accepted data =>
                  match all_results (loadGroupKeyAndMessages_entry gKey) data
                  with
                  | inl error => caught (Some gKey) storage' error
                  | inr decryptedMessages =>
                      {| load_groupKey := Some gKey;
                         load_messages := decryptedMessages;
                         load_storage := storage';
                         load_alert := None |}
                  end
              end
          end
      end
  end.

(** [decryptAndAddMessage] of the group chat, as the change of
    [messages]. *)
Definition decryptAndAddMessage (groupKey : option AesKey)
  (encryptedMessage : GroupEncryptedMessage) (messages : list GroupMessage)
  : list GroupMessage :=
  match groupKey with
  | None => messages
  | Some groupKey =>
      match decryptGroupMessage (gem_encryptedData encryptedMessage)
              (gem_nonce encryptedMessage) groupKey with
      | inr decryptedText =>
          let message :=
            {| gm_id := gem_id encryptedMessage;
               gm_senderId := gem_senderId encryptedMessage;
               gm_senderName := gem_senderName encryptedMessage;
               gm_text := decryptedText;
               gm_createdAt := gem_createdAt encryptedMessage;
               gm_decrypted := true |} in
          let exists_ :=
            existsb (fun m => strict_equal (gm_id m) (gm_id message))
              messages in
          if exists_ then messages else messages ++ [message]
      | inl _ => messages
      end
  end.

(** The listener the group chat registers with [socketService.onMessage]. *)
Definition message_listener (group : Group) (groupKey : option AesKey)
  (data : GroupEncryptedMessage) (messages : list GroupMessage)
  : list GroupMessage :=
  if strict_equal (gem_groupId data) (Some (group_id group))
  then decryptAndAddMessage groupKey data messages
  else messages.

(** How [sendMessage] of the group chat ends: the payload it emitted if it
    emitted one, the state [messages], and the text of the alert if it
    showed one. *)
Record Sent : Type := {
  sent_payload : option GroupPayload;
  sent_messages : list GroupMessage;
  sent_alert : option string
}.

(** [sendMessage] of the group chat.  [socket] tells whether
    [socketService.getSocket()] is a socket. *)
Definition sendMessage (messageInput : jsstring) (groupKey : option AesKey)
  (socket : bool) (group : Group) (userId userName : jsstring) (now : Date)
  (messages : list GroupMessage) (rng : Rng) : Sent * Rng :=
  let returned :=
    {| sent_payload := None; sent_messages := messages; sent_alert := None |} in
  match groupKey with
  | Some groupKey =>
      if negb (truthy (trim messageInput)) then (returned, rng)
      else
        match encryptGroupMessage messageInput groupKey rng with
        | (inr envelope, rng') =>
            ({| sent_payload :=
                  if socket then
                    Some {| payload_groupId := group_id group;
                            payload_senderId := userId;
                            payload_encryptedData := encryptedData envelope;
                            payload_nonce := nonce envelope;
                            payload_keyVersion :=
                              if myKeyVersion group =? 0 then 1
                              else myKeyVersion group |}
                  else None;
                sent_messages :=
                  messages
                  ++ [{| gm_id := Some (Number_toString now);
                         gm_senderId := Some userId;
                         gm_senderName := userName;
                         gm_text := messageInput;
                         gm_createdAt := now;
                         gm_decrypted := true |}];
                sent_alert := None |}, rng')
        | (inl _, rng') =>
            ({| sent_payload := None;
                sent_messages := messages;
                sent_alert := Some "Erro ao enviar mensagem"%string |}, rng')
        end
  | None => (returned, rng)
  end.

(** [handleAddMember], from the user the directory found to the body of the
    request that adds the member: the group key is read from
    [localStorage] and wrapped for the new member. *)
Definition handleAddMember_request (group : Group) (userId : jsstring)
  (newMember : UserData) (storage : LocalStorage) : rand Rng AddMemberBody :=
  (groupKeyRaw <-
     lift (base64ToArrayBuffer
             (match get_property (stored_groupKeys storage) (group_id group)
              with
              | Some groupKeyB64 => groupKeyB64
              | None => []
              end)) ;;
   memberPublicKeyRaw <- lift (base64ToArrayBuffer (user_publicKey newMember)) ;;
   wrapped <- encryptGroupKeyForMember groupKeyRaw memberPublicKeyRaw ;;
   rret {| add_groupId := group_id group;
           add_userId := user_id newMember;
           add_encryptedGroupKey := encryptedGroupKey wrapped;
           add_ephemeralPublicKey := ephemeralPublicKey wrapped;
           add_addedBy := userId |})%rand.

(** How [handleAddMember] ends. *)
Inductive Added : Type :=
| NothingAdded
| MemberAdded (name : jsstring)
| AddFailed (text : string).

(** [handleAddMember].  [userAnswer] is what the directory answered for the
    e-mail address, [server] the server from the body of the request to its
    answer. *)
Definition handleAddMember (group : Group) (userId newMemberEmail : jsstring)
  (userAnswer : Answer UserData) (server : AddMemberBody -> Answer unit)
  (storage : LocalStorage) (rng : Rng) : Added * Rng :=
  if negb (truthy (trim newMemberEmail)) then (NothingAdded, rng)
  else
    match userAnswer with
    | Failed error => (AddFailed ("Erro: " ++ exn_message error), rng)
    | NotOk _ => (AddFailed "Erro: Usuário não encontrado", rng)
    | Accepted newMember =>
        match handleAddMember_request group userId newMember storage rng with
        | (inr body, rng') =>
            match server body with
            | Failed error => (AddFailed ("Erro: " ++ exn_message error), rng')
            | NotOk message => (AddFailed ("Erro: " ++ message), rng')
            | Accepted _ => (MemberAdded (user_name newMember), rng')
            end
        | (inl error, rng') => (AddFailed ("Erro: " ++ exn_message error), rng')
        end
    end.

End GroupChat.

End GroupChat.

(** The message the server lists and delivers for the payload of a group
    message, with the identifier and the date the server gives it and the
    name of the sender. *)
Definition listed (id : option jsstring) (createdAt : Date)
  (senderName : jsstring) (payload : GroupPayload) : GroupEncryptedMessage :=
  {| gem_id := id;
     gem_groupId := Some (payload_groupId payload);
     gem_senderId := Some (payload_senderId payload);
     gem_senderName := senderName;
     gem_sender := Some senderName;
     gem_encryptedData := payload_encryptedData payload;
     gem_nonce := payload_nonce payload;
     gem_createdAt := createdAt |}.

Section CreateGroup.

Context {P : Platform} {G : GroupKeyProvider P}.

(** Step 1 of [handleCreateGroup]: the e-mail addresses of the members. *)
Definition member_emails (memberEmails : jsstring) : list jsstring :=
  filter (fun email => (0 <? List.length email)%nat)
    (map (fun email => trim email) (split comma memberEmails)).

(** Step 2: the user the directory holds for an e-mail address.  (The text
    of a message is a string of bytes here: the address is written in it in
    UTF-8.) *)
Definition fetch_member (directory : jsstring -> Answer UserData)
  (email : jsstring) : result UserData :=
  match directory email with
  | Failed error => Throw error
  | NotOk _ =>
      Throw (Error ("Usuário não encontrado: "
                    ++ string_of_list_byte (TextEncoder_encode email)))
  | Accepted data => Ok data
  end.

(** Step 5, for one member: the group key wrapped for the member. *)
Definition wrap_for_member (groupKeyRaw : bytes) (member : jsstring * jsstring)
  : rand Rng MemberKey :=
  (memberPublicKeyRaw <- lift (base64ToArrayBuffer (snd member)) ;;
   wrapped <- encryptGroupKeyForMember groupKeyRaw memberPublicKeyRaw ;;
   rret {| mk_userId := fst member;
           mk_encryptedGroupKey := encryptedGroupKey wrapped;
           mk_ephemeralPublicKey := ephemeralPublicKey wrapped |})%rand.

(** [handleCreateGroup], up to the request that creates the group: the raw
    group key and the body that is sent.  [directory] is the directory of
    users by e-mail address, [userId] and [publicKeyRaw] are those of the
    session.  The requests of step 2 and the wrappings of step 5, which the
    source starts together and awaits with [Promise.all], are run here one
    after another in the order of the list. *)
Definition handleCreateGroup_request (groupName description memberEmails : jsstring)
  (directory : jsstring -> Answer UserData) (userId : jsstring)
  (publicKeyRaw : option bytes) : rand Rng (bytes * CreateGroupBody) :=
  if negb (truthy (trim groupName)) then
    lift (Throw (Error "Nome do grupo é obrigatório"))
  else
    let emails := member_emails memberEmails in
    (members <- lift (all_results (fetch_member directory) emails) ;;
     myPublicKey <-
       lift (match publicKeyRaw with
             | Some raw => arrayBufferToBase64 raw
             | None => Throw (Error "Buffer vazio")
             end) ;;
     let allMembers :=
       (userId, myPublicKey)
       :: map (fun m => (user_id m, user_publicKey m)) members in
     groupKey <- generateGroupKey ;;
     groupKeyRaw <- lift (exportGroupKey groupKey) ;;
     memberKeys <- all_rand (wrap_for_member groupKeyRaw) allMembers ;;
     rret (groupKeyRaw,
           {| cg_name := groupName;
              cg_description :=
                if truthy description then Some description else None;
              cg_creatorId := userId;
              cg_members := memberKeys |}))%rand.

(** How [handleCreateGroup] ends: [localStorage], and the error it shows if
    it shows one. *)
Record Created : Type := {
  created_storage : LocalStorage;
  created_error : option string
}.

(** [handleCreateGroup].  [server] is the server, from the body of the
    request to its answer, the identifier of the new group. *)
Definition handleCreateGroup (groupName description memberEmails : jsstring)
  (directory : jsstring -> Answer UserData) (userId : jsstring)
  (publicKeyRaw : option bytes) (server : CreateGroupBody -> Answer jsstring)
  (storage : LocalStorage) (rng : Rng) : Created * Rng :=
  let caught (error : string) :=
    {| created_storage := storage; created_error := Some error |} in
  match handleCreateGroup_request groupName description memberEmails directory
          userId publicKeyRaw rng with
  | (inr (groupKeyRaw, body), rng') =>
      match server body with
      | Failed error => (caught (exn_message error), rng')
      | NotOk message =>
          (caught (if String.eqb message "" then "Erro ao criar grupo"
                   else message)%string, rng')
      | Accepted id =>
          match arrayBufferToBase64 groupKeyRaw with
          | inr groupKeyB64 =>
              ({| created_storage := store_group_key storage id groupKeyB64;
                  created_error := None |}, rng')
          | inl error => (caught (exn_message error), rng')
          end
      end
  | (inl error, rng') => (caught (exn_message error), rng')
  end.

End CreateGroup.

(* ================================================================== *)
(** * The small platform, for the pages *)
(* ================================================================== *)

(** JSON for the user object and the raw AES keys of the small platform:
    a field is written as its code units, each after a [1], and closed
    by a [0]; an AES key is its own 32 raw bytes. *)
Module ToyPages.

Definition write_field (field : jsstring) : jsstring :=
  flat_map (fun c => [1; c]) field ++ [0].

Fixpoint read_field (s : jsstring) : option (jsstring * jsstring) :=
  match s with
  | 0 :: rest => Some ([], rest)
  | _ :: c :: rest =>
      match read_field rest with
      | Some (field, rest') => Some (c :: field, rest')
      | None => None
      end
  | _ => None
  end.

Definition stringify_user (data : UserData) : jsstring :=
  write_field (user_id data) ++ write_field (user_name data)
  ++ write_field (user_email data) ++ write_field (user_publicKey data)
  ++ write_field (user_encryptedPrivateKey data)
  ++ write_field (user_salt data) ++ write_field (user_iv data).

Definition parse_user (s : jsstring) : result UserData :=
  match read_field s with
  | Some (id, s1) =>
  match read_field s1 with
  | Some (name, s2) =>
  match read_field s2 with
  | Some (email, s3) =>
  match read_field s3 with
  | Some (publicKey, s4) =>
  match read_field s4 with
  | Some (encryptedPrivateKey, s5) =>
  match read_field s5 with
  | Some (salt, s6) =>
  match read_field s6 with
  | Some (iv, _) =>
      Ok {| user_id := id; user_name := name; user_email := email;
            user_publicKey := publicKey;
            user_encryptedPrivateKey := encryptedPrivateKey;
            user_salt := salt; user_iv := iv |}
  | None => Throw Toy.syntax_error
  end
  | None => Throw Toy.syntax_error
  end
  | None => Throw Toy.syntax_error
  end
  | None => Throw Toy.syntax_error
  end
  | None => Throw Toy.syntax_error
  end
  | None => Throw Toy.syntax_error
  end
  | None => Throw Toy.syntax_error
  end.

Definition json : UserJSON := {|
  JSON_stringify_user := stringify_user;
  JSON_parse_user := parse_user
|}.

Definition generate (rng : N) : bytes * N := Toy.random 32 rng.

Definition import_key (keyBytes : bytes) : option bytes :=
  if (List.length keyBytes =? 32)%nat then Some keyBytes else None.

Definition group_keys : GroupKeyProvider Toy.platform :=
  @Build_GroupKeyProvider Toy.platform generate (fun key => key) import_key.

End ToyPages.

(** ** Sample inputs for the pages *)

(** The message an outcome emitted, as the server delivers it. *)
Definition sample_direct : Outcome * N :=
  sendMessage (P := Toy.platform) true (lit "hello") (Some (lit "bob")) true
    (lit "alice") sample_response (Some (Toy.export x09)) 0.

Definition sample_delivered : EncryptedMessage :=
  delivered (Some (lit "m1")) 7 (emitted (fst sample_direct)).

Definition empty_storage : LocalStorage :=
  {| stored_user := None; stored_privateKeyJWK := None;
     stored_groupKeys := [] |}.

(** The value of a computation that returned, [fallback] otherwise. *)
Definition returned {A : Type} (fallback : A) (r : result A) : A :=
  match r with
  | inr a => a
  | inl _ => fallback
  end.

Definition no_body : RegisterBody :=
  {| body_name := []; body_email := []; body_phone := []; body_password := [];
     body_publicKey := []; body_encryptedPrivateKey := []; body_salt := [];
     body_iv := [] |}.

(** A registration on the small platform: the key pair and the body. *)
Definition sample_registration
  : result (@KeyPair Toy.platform * RegisterBody) * N :=
  register_request (P := Toy.platform) (lit "Bob") (lit "bob@example.org")
    (lit "555") (lit "secret") 4.

Definition sample_keys : @KeyPair Toy.platform :=
  fst (returned (@Build_KeyPair Toy.platform 0 x00 [], no_body) (fst sample_registration)).

Definition sample_body : RegisterBody :=
  snd (returned (@Build_KeyPair Toy.platform 0 x00 [], no_body) (fst sample_registration)).

(** The user the server keeps for [sample_body]. *)
Definition sample_user : UserData :=
  {| user_id := lit "u2";
     user_name := body_name sample_body;
     user_email := body_email sample_body;
     user_publicKey := body_publicKey sample_body;
     user_encryptedPrivateKey := body_encryptedPrivateKey sample_body;
     user_salt := body_salt sample_body;
     user_iv := body_iv sample_body |}.

(** The same user, as a server that leaves the public key out answers. *)
Definition sample_user_without_key : UserData :=
  {| user_id := lit "u2"; user_name := lit "Bob";
     user_email := lit "bob@example.org"; user_publicKey := [];
     user_encryptedPrivateKey := []; user_salt := []; user_iv := [] |}.

Definition sample_login
  : result (@Session Toy.platform * LocalStorage) :=
  login (P := Toy.platform) (J := ToyPages.json) (lit "bob@example.org")
    (lit "secret") (Accepted sample_user) empty_storage.

Definition sample_register
  : result (@Session Toy.platform * LocalStorage) * N :=
  register (P := Toy.platform) (J := ToyPages.json) (lit "Bob")
    (lit "bob@example.org") (lit "555") (lit "secret")
    (fun _ => Accepted sample_user_without_key) empty_storage 4.

(** The group key wrapped for the member whose private key is 5. *)
Definition sample_wrapped : @GroupKeyEnvelope :=
  returned {| encryptedGroupKey := []; ephemeralPublicKey := [] |}
    (fst (encryptGroupKeyForMember (P := Toy.platform) sample_group_key
            (Toy.export x05) 3)).

Definition sample_group : Group :=
  {| group_id := lit "g1";
     myEncryptedGroupKey := encryptedGroupKey sample_wrapped;
     myEphemeralPublicKey := ephemeralPublicKey sample_wrapped;
     myKeyVersion := 1 |}.

Definition sample_group_sent : @GroupChat.Sent * N :=
  GroupChat.sendMessage (P := Toy.platform) (lit "hello all")
    (Some sample_group_key) true sample_group (lit "alice") (lit "Alice") 11
    [] 20.

Definition sample_payload : GroupPayload :=
  match GroupChat.sent_payload (fst sample_group_sent) with
  | Some payload => payload
  | None =>
      {| payload_groupId := []; payload_senderId := [];
         payload_encryptedData := []; payload_nonce := [];
         payload_keyVersion := 0 |}
  end.

Definition sample_listed : GroupEncryptedMessage :=
  listed (Some (lit "gm1")) 12 (lit "Alice") sample_payload.

(** A listed message without the field [sender]. *)
Definition sample_listed_without_sender : GroupEncryptedMessage :=
  {| gem_id := Some (lit "gm2"); gem_groupId := Some (lit "g1");
     gem_senderId := Some (lit "carol"); gem_senderName := [];
     gem_sender := None; gem_encryptedData := []; gem_nonce := [];
     gem_createdAt := 13 |}.

(** A directory in which every address is that of the user whose private
    key is 5. *)
Definition sample_directory (email : jsstring) : Answer UserData :=
  Accepted {| user_id := email; user_name := email; user_email := email;
              user_publicKey := base64_text (Toy.export x05);
              user_encryptedPrivateKey := []; user_salt := [];
              user_iv := [] |}.

(* ================================================================== *)
(** * Proofs *)
(* ================================================================== *)

Ltac Zify.zify_post_hook ::= Z.to_euclidean_division_equations.

(** ** Base64 round trip *)

Lemma byte_of_to_N (b : byte) : byte_of_N (Byte.to_N b) = b.
Proof.
  unfold byte_of_N.
  pose proof (Byte.to_N_bounded b) as Hb.
  rewrite N.mod_small by lia.
  now rewrite Byte.of_to_N.
Qed.

Lemma map_byte_of_to_N (bs : bytes) : map byte_of_N (map Byte.to_N bs) = bs.
Proof.
  induction bs as [|b bs IH]; simpl; [reflexivity|].
  now rewrite byte_of_to_N, IH.
Qed.

Lemma to_N_small (bs : bytes) : Forall (fun c => c < 256) (map Byte.to_N bs).
Proof.
  induction bs as [|b bs IH]; simpl; constructor; auto.
  pose proof (Byte.to_N_bounded b); lia.
Qed.

(** Induction three elements at a time. *)
Lemma list_ind3 {A : Type} (P : list A -> Prop) :
  P [] -> (forall a, P [a]) -> (forall a b, P [a; b]) ->
  (forall a b c l, P l -> P (a :: b :: c :: l)) ->
  forall l, P l.
Proof.
  intros H0 H1 H2 H3.
  fix IH 1.
  intros [|a [|b [|c l]]]; [apply H0 | apply H1 | apply H2 | apply H3, IH].
Qed.

Lemma below_64_in (i : N) : i < 64 -> In i (map N.of_nat (seq 0 64)).
Proof.
  intros Hi. apply in_map_iff. exists (N.to_nat i). split; [lia|].
  apply in_seq. lia.
Qed.

Lemma b64_index_char (i : N) : i < 64 -> b64_index (b64_char i) = Some i.
Proof.
  intros Hi.
  assert (H : forallb (fun i => match b64_index (b64_char i) with
                                | Some j => j =? i
                                | None => false
                                end) (map N.of_nat (seq 0 64)) = true)
    by (vm_compute; reflexivity).
  rewrite forallb_forall in H. specialize (H i (below_64_in i Hi)).
  destruct (b64_index (b64_char i)) as [j|]; [|discriminate].
  apply N.eqb_eq in H. now subst.
Qed.

Lemma b64_char_plain (i : N) :
  i < 64 ->
  is_ascii_whitespace (b64_char i) = false /\ b64_char i <> pad_char.
Proof.
  intros Hi.
  assert (H : forallb (fun i => negb (is_ascii_whitespace (b64_char i))
                                && negb (b64_char i =? pad_char))
                (map N.of_nat (seq 0 64)) = true)
    by (vm_compute; reflexivity).
  rewrite forallb_forall in H. specialize (H i (below_64_in i Hi)).
  apply andb_true_iff in H. destruct H as [H1 H2].
  apply negb_true_iff in H1, H2. apply N.eqb_neq in H2. now split.
Qed.

Lemma b64_char_ascii (i : N) :
  i < 64 -> b64_char i < 128 /\ b64_char i <> colon.
Proof.
  intros Hi.
  assert (H : forallb (fun i => (b64_char i <? 128)
                                && negb (b64_char i =? colon))
                (map N.of_nat (seq 0 64)) = true)
    by (vm_compute; reflexivity).
  rewrite forallb_forall in H. specialize (H i (below_64_in i Hi)).
  apply andb_true_iff in H. destruct H as [H1 H2].
  apply negb_true_iff in H2. apply N.eqb_neq in H2. apply N.ltb_lt in H1.
  now split.
Qed.

Lemma btoa_groups_shape (s : list N) :
  btoa_groups s = map b64_char (enc_sextets s) ++ enc_padding s.
Proof.
  induction s as [| a | a b | a b c l IH] using list_ind3; try reflexivity.
  cbn [btoa_groups enc_sextets enc_padding map app]. now rewrite IH.
Qed.

Lemma enc_sextets_small (s : list N) :
  Forall (fun c => c < 256) s -> Forall (fun i => i < 64) (enc_sextets s).
Proof.
  induction s as [| a | a b | a b c l IH] using list_ind3; intros H.
  - constructor.
  - inversion_clear H. repeat constructor; lia.
  - inversion_clear H as [|? ? Ha H']. inversion_clear H'.
    repeat constructor; lia.
  - inversion_clear H as [|? ? Ha H']. inversion_clear H' as [|? ? Hb H''].
    inversion_clear H'' as [|? ? Hc Hl].
    cbn [enc_sextets]. repeat (constructor; [lia|]). auto.
Qed.

Lemma atob_groups_enc (s : list N) :
  Forall (fun c => c < 256) s -> atob_groups (enc_sextets s) = s.
Proof.
  induction s as [| a | a b | a b c l IH] using list_ind3; intros H.
  - reflexivity.
  - inversion_clear H. cbn. f_equal. lia.
  - inversion_clear H as [|? ? Ha H']. inversion_clear H'.
    cbn. f_equal; [lia|]. f_equal. lia.
  - inversion_clear H as [|? ? Ha H']. inversion_clear H' as [|? ? Hb H''].
    inversion_clear H'' as [|? ? Hc Hl].
    cbn [enc_sextets atob_groups]. rewrite (IH Hl).
    f_equal; [lia|]. f_equal; [lia|]. f_equal. lia.
Qed.

Lemma sextets_map_char (l : list N) :
  Forall (fun i => i < 64) l -> sextets (map b64_char l) = Some l.
Proof.
  induction 1 as [|i l Hi _ IH]; [reflexivity|].
  cbn [map sextets]. now rewrite (b64_index_char i Hi), IH.
Qed.

Lemma enc_lengths (s : list N) :
  exists k r : nat,
    List.length (enc_sextets s) = (4 * k + r)%nat /\
    List.length (enc_padding s) = ((4 - r) mod 4)%nat /\
    (r = 0 \/ r = 2 \/ r = 3)%nat.
Proof.
  induction s as [| a | a b | a b c l IH] using list_ind3.
  - exists 0%nat, 0%nat. cbn. lia.
  - exists 0%nat, 2%nat. cbn. lia.
  - exists 0%nat, 3%nat. cbn. lia.
  - destruct IH as (k & r & H1 & H2 & H3).
    exists (S k), r. cbn [enc_sextets enc_padding List.length]. lia.
Qed.

Lemma enc_padding_cases (s : list N) :
  enc_padding s = [] \/ enc_padding s = [pad_char]
  \/ enc_padding s = [pad_char; pad_char].
Proof.
  induction s as [| a | a b | a b c l IH] using list_ind3; cbn; auto.
Qed.

Lemma filter_plain (l : list N) :
  Forall (fun c => is_ascii_whitespace c = false) l ->
  filter (fun c => negb (is_ascii_whitespace c)) l = l.
Proof.
  induction 1 as [|c l Hc _ IH]; [reflexivity|].
  cbn. now rewrite Hc, IH.
Qed.

Lemma drop_pad_snoc (l : list N) : drop_pad (l ++ [pad_char]) = l.
Proof.
  unfold drop_pad. rewrite rev_app_distr. cbn. apply rev_involutive.
Qed.

Lemma drop_pad_plain (l : list N) :
  Forall (fun c => c <> pad_char) l -> drop_pad l = l.
Proof.
  intros H. unfold drop_pad.
  destruct (rev l) as [|c r] eqn:E; [reflexivity|].
  assert (Hc : In c l) by (apply in_rev; rewrite E; now left).
  rewrite Forall_forall in H. apply H in Hc.
  apply N.eqb_neq in Hc. now rewrite Hc.
Qed.

Lemma atob_btoa_groups (s : list N) :
  Forall (fun c => c < 256) s -> atob (btoa_groups s) = Ok s.
Proof.
  intros Hs.
  pose proof (enc_sextets_small s Hs) as Hsx.
  assert (Hplain : Forall (fun c => is_ascii_whitespace c = false
                                    /\ c <> pad_char)
                     (map b64_char (enc_sextets s))).
  { apply Forall_map. eapply Forall_impl; [|exact Hsx].
    intros i Hi. now apply b64_char_plain. }
  assert (Hnp : Forall (fun c => c <> pad_char) (map b64_char (enc_sextets s)))
    by (eapply Forall_impl; [|exact Hplain]; now intros c [_ H]).
  destruct (enc_lengths s) as (k & r & Hlen & Hpad & Hr).
  unfold atob. rewrite btoa_groups_shape.
  rewrite filter_plain.
  2:{ apply Forall_app. split.
      - eapply Forall_impl; [|exact Hplain]. now intros c [H _].
      - destruct (enc_padding_cases s) as [E|[E|E]]; rewrite E;
          repeat constructor. }
  assert (Hstrip : strip_padding (map b64_char (enc_sextets s) ++ enc_padding s)
                   = map b64_char (enc_sextets s)).
  { unfold strip_padding.
    replace (List.length (map b64_char (enc_sextets s) ++ enc_padding s)
               mod 4 =? 0)%nat with true.
    2:{ symmetry. apply Nat.eqb_eq.
        rewrite length_app, length_map, Hlen, Hpad.
        destruct Hr as [ -> | [ -> | -> ] ]; lia. }
    destruct (enc_padding_cases s) as [E|[E|E]]; rewrite E.
    - rewrite app_nil_r, (drop_pad_plain _ Hnp). apply drop_pad_plain, Hnp.
    - rewrite drop_pad_snoc. now apply drop_pad_plain.
    - change [pad_char; pad_char] with ([pad_char] ++ [pad_char]).
      rewrite app_assoc, drop_pad_snoc. apply drop_pad_snoc. }
  rewrite Hstrip, length_map.
  replace (List.length (enc_sextets s) mod 4 =? 1)%nat with false
    by (symmetry; apply Nat.eqb_neq; lia).
  rewrite (sextets_map_char _ Hsx).
  now rewrite atob_groups_enc.
Qed.

Lemma arrayBufferToBase64_text (b : bytes) :
  b <> [] -> arrayBufferToBase64 b = Ok (base64_text b).
Proof.
  intros Hb. unfold arrayBufferToBase64, base64_text, btoa.
  destruct b as [|x b]; [congruence|].
  cbn [List.length Nat.eqb].
  replace (forallb (fun c : N => c <=? 255) (map to_N (x :: b))) with true;
    [reflexivity|].
  symmetry. apply forallb_forall. intros c Hc.
  pose proof (to_N_small (x :: b)) as H. rewrite Forall_forall in H.
  apply H in Hc. apply N.leb_le. lia.
Qed.

Lemma arrayBufferToBase64_empty :
  arrayBufferToBase64 [] = Throw (Error "Buffer vazio").
Proof. reflexivity. Qed.

Lemma base64_text_nonempty (b : bytes) : b <> [] -> base64_text b <> [].
Proof.
  unfold base64_text. destruct b as [|x [|y [|z b]]]; [congruence| | |];
    intros _; discriminate.
Qed.

Lemma base64ToArrayBuffer_text (b : bytes) :
  b <> [] -> base64ToArrayBuffer (base64_text b) = Ok b.
Proof.
  intros Hb. unfold base64ToArrayBuffer.
  pose proof (base64_text_nonempty b Hb) as Hne.
  destruct (base64_text b) as [|c l] eqn:E; [congruence|].
  rewrite <- E. unfold base64_text.
  rewrite atob_btoa_groups by apply to_N_small.
  cbn [bind try_catch]. now rewrite map_byte_of_to_N.
Qed.

Lemma base64_text_inj (a b : bytes) : base64_text a = base64_text b -> a = b.
Proof.
  intros H.
  destruct a as [|x a], b as [|y b]; [reflexivity| | |].
  - exfalso. symmetry in H. revert H. now apply base64_text_nonempty.
  - exfalso. revert H. now apply base64_text_nonempty.
  - assert (Ha : base64ToArrayBuffer (base64_text (x :: a)) = Ok (x :: a))
      by (now apply base64ToArrayBuffer_text).
    rewrite H, base64ToArrayBuffer_text in Ha by discriminate.
    congruence.
Qed.

(** The characters of base64 text are ASCII characters, and none is the
    separator of the group key envelope. *)
Lemma base64_text_chars (b : bytes) :
  Forall (fun c => c < 128 /\ c <> colon) (base64_text b).
Proof.
  unfold base64_text. rewrite btoa_groups_shape. apply Forall_app. split.
  - apply Forall_map.
    eapply Forall_impl; [|apply enc_sextets_small, to_N_small].
    intros i Hi. now apply b64_char_ascii.
  - destruct (enc_padding_cases (map to_N b)) as [E|[E|E]]; rewrite E;
      repeat constructor; unfold pad_char, colon; lia.
Qed.

(** ** Text encoding round trip *)

Example encode_hello :
  TextEncoder_encode (lit "hello") = [x68; x65; x6c; x6c; x6f].
Proof. reflexivity. Qed.

Example decode_euro : TextDecoder_decode [xe2; x82; xac] = [0x20AC].
Proof. reflexivity. Qed.

Example encode_bom_decode : TextDecoder_decode (TextEncoder_encode [bom; 104]) = [104].
Proof. reflexivity. Qed.

Example encode_lone_surrogate :
  TextDecoder_decode (TextEncoder_encode [0xD800]) = [replacement].
Proof. reflexivity. Qed.

Example encode_pair :
  TextDecoder_decode (TextEncoder_encode [0xD83D; 0xDE00]) = [0xD83D; 0xDE00].
Proof. reflexivity. Qed.

(** Settles the comparisons of the goal by arithmetic, with a case analysis
    where the context does not decide them. *)
Ltac split_cmp :=
  match goal with
  | |- context [N.eqb ?a ?b] =>
      first [ replace (N.eqb a b) with false by (symmetry; apply N.eqb_neq; lia)
            | replace (N.eqb a b) with true by (symmetry; apply N.eqb_eq; lia)
            | destruct (N.eqb_spec a b) ]
  | |- context [N.leb ?a ?b] =>
      first [ replace (N.leb a b) with true by (symmetry; apply N.leb_le; lia)
            | replace (N.leb a b) with false by (symmetry; apply N.leb_gt; lia)
            | destruct (N.leb_spec a b) ]
  | |- context [N.ltb ?a ?b] =>
      first [ replace (N.ltb a b) with true by (symmetry; apply N.ltb_lt; lia)
            | replace (N.ltb a b) with false by (symmetry; apply N.ltb_ge; lia)
            | destruct (N.ltb_spec a b) ]
  end.

Ltac utf8_step :=
  cbn [utf8_decode utf8_lead utf8_initial app bytes_needed code_point
       lower_boundary upper_boundary andb fst snd];
  unfold utf8_lead.

Lemma utf8_encode_small (c : N) :
  is_scalar c -> Forall (fun b => b < 256) (utf8_encode_scalar c).
Proof.
  intros [Hc _]. unfold utf8_encode_scalar.
  repeat split_cmp; repeat constructor; lia.
Qed.

Lemma utf8_decode_scalar (c : N) (rest : list N) :
  is_scalar c ->
  utf8_decode utf8_initial (utf8_encode_scalar c ++ rest)
  = c :: utf8_decode utf8_initial rest.
Proof.
  intros [Hc Hs]. unfold utf8_encode_scalar.
  destruct (N.ltb_spec c 0x80); [|destruct (N.ltb_spec c 0x800);
    [|destruct (N.ltb_spec c 0x10000)]].
  - utf8_step. destruct (N.leb_spec c 0x7F); [reflexivity | lia].
  - utf8_step. repeat (split_cmp; utf8_step).
    all: f_equal; lia.
  - utf8_step. repeat (split_cmp; utf8_step).
    all: f_equal; lia.
  - utf8_step. repeat (split_cmp; utf8_step).
    all: f_equal; lia.
Qed.

Lemma to_N_byte_of_N (n : N) : n < 256 -> Byte.to_N (byte_of_N n) = n.
Proof.
  intros Hn. unfold byte_of_N. rewrite N.mod_small by exact Hn.
  destruct (Byte.of_N n) as [b|] eqn:E.
  - now apply Byte.to_of_N.
  - apply Byte.of_N_None_iff in E. lia.
Qed.

Lemma map_to_N_byte_of_N (l : list N) :
  Forall (fun b => b < 256) l -> map Byte.to_N (map byte_of_N l) = l.
Proof.
  induction 1 as [|n l Hn _ IH]; [reflexivity|].
  cbn [map]. now rewrite to_N_byte_of_N, IH.
Qed.

Lemma utf8_bytes_small (l : list N) :
  Forall is_scalar l -> Forall (fun b => b < 256) (flat_map utf8_encode_scalar l).
Proof.
  induction 1 as [|c l Hc _ IH]; [constructor|].
  cbn [flat_map]. apply Forall_app. split; [now apply utf8_encode_small | exact IH].
Qed.

Lemma utf8_decode_encode (l : list N) :
  Forall is_scalar l ->
  utf8_decode utf8_initial (flat_map utf8_encode_scalar l) = l.
Proof.
  induction 1 as [|c l Hc _ IH]; [reflexivity|].
  cbn [flat_map]. now rewrite utf8_decode_scalar, IH.
Qed.

(** Induction on a list with the tail and the tail of the tail at hand. *)
Lemma list_ind_pair {A : Type} (P : list A -> Prop) :
  P [] -> (forall a, P [a]) ->
  (forall a b l, P (b :: l) -> P l -> P (a :: b :: l)) ->
  forall l, P l.
Proof.
  intros H0 H1 H2 l.
  enough (H : P l /\ forall a, P (a :: l)) by apply H.
  induction l as [|b l [IH1 IH2]]; split; auto.
Qed.

Lemma surrogate_cases (c : N) :
  (is_high_surrogate c = true /\ is_low_surrogate c = false
   /\ 0xD800 <= c <= 0xDBFF)
  \/ (is_high_surrogate c = false /\ is_low_surrogate c = true
      /\ 0xDC00 <= c <= 0xDFFF)
  \/ (is_high_surrogate c = false /\ is_low_surrogate c = false
      /\ (c < 0xD800 \/ 0xDFFF < c)).
Proof.
  unfold is_high_surrogate, is_low_surrogate.
  destruct (N.leb_spec 0xD800 c), (N.leb_spec c 0xDBFF),
    (N.leb_spec 0xDC00 c), (N.leb_spec c 0xDFFF); cbn; lia.
Qed.

Ltac surrogate c :=
  let Hh := fresh "Hh" in
  let Hl := fresh "Hl" in
  let Hr := fresh "Hr" in
  destruct (surrogate_cases c) as [(Hh & Hl & Hr)|[(Hh & Hl & Hr)|(Hh & Hl & Hr)]];
  rewrite ?Hh, ?Hl.

Lemma well_formed_scalars (s : jsstring) :
  well_formed s = true -> Forall is_scalar (scalar_values s).
Proof.
  induction s as [| c | c d s IH1 IH2] using list_ind_pair.
  - constructor.
  - cbn [well_formed scalar_values].
    surrogate c;
      cbn [negb andb]; try discriminate.
    destruct (N.ltb_spec c 0x10000); [|discriminate].
    intros _. constructor; [unfold is_scalar; lia | constructor].
  - cbn [well_formed scalar_values].
    surrogate c.
    + surrogate d;
        cbn [andb]; try discriminate.
      intros Hs. constructor; [unfold is_scalar; lia | auto].
    + cbn [negb andb]. discriminate.
    + cbn [negb andb]. destruct (N.ltb_spec c 0x10000); [|discriminate].
      intros Hs. constructor; [unfold is_scalar; lia | auto].
Qed.

Lemma well_formed_units (s : jsstring) :
  well_formed s = true -> flat_map code_units (scalar_values s) = s.
Proof.
  induction s as [| c | c d s IH1 IH2] using list_ind_pair.
  - reflexivity.
  - cbn [well_formed scalar_values].
    surrogate c;
      cbn [negb andb]; try discriminate.
    cbn [flat_map app]. unfold code_units.
    destruct (N.ltb_spec c 0x10000); [reflexivity|discriminate].
  - cbn [well_formed scalar_values].
    surrogate c.
    + surrogate d;
        cbn [andb]; try discriminate.
      intros Hs. cbn [flat_map]. unfold code_units at 1.
      split_cmp. cbn [app]. f_equal; [lia|]. f_equal; [lia|]. exact (IH2 Hs).
    + cbn [negb andb]. discriminate.
    + cbn [negb andb]. destruct (N.ltb_spec c 0x10000) as [Hc|]; [|discriminate].
      intros Hs. cbn [flat_map]. unfold code_units at 1.
      apply N.ltb_lt in Hc. rewrite Hc. cbn [app]. f_equal. exact (IH1 Hs).
Qed.

Lemma skip_bom_other (b0 : N) (l : list N) :
  b0 <> 0xEF -> skip_bom (b0 :: l) = b0 :: l.
Proof.
  intros H. destruct l as [|b1 [|b2 l]]; try reflexivity.
  cbn [skip_bom]. apply N.eqb_neq in H. now rewrite H.
Qed.

Lemma skip_bom_encode (l : list N) :
  Forall is_scalar l ->
  hd_error l <> Some bom ->
  skip_bom (flat_map utf8_encode_scalar l) = flat_map utf8_encode_scalar l.
Proof.
  intros Hl Hhd. destruct Hl as [|c l [Hc Hs] _]; [reflexivity|].
  assert (Hne : c <> bom) by (intros ->; now apply Hhd).
  unfold bom in Hne. cbn [flat_map]. unfold utf8_encode_scalar.
  destruct (N.ltb_spec c 0x80); [|destruct (N.ltb_spec c 0x800);
    [|destruct (N.ltb_spec c 0x10000)]]; cbn [app].
  - apply skip_bom_other. lia.
  - apply skip_bom_other. lia.
  - cbn [skip_bom].
    match goal with |- (if ?t then _ else _) = _ => destruct t eqn:E end;
      [|reflexivity].
    apply andb_true_iff in E. destruct E as [E E2].
    apply andb_true_iff in E. destruct E as [E0 E1].
    apply N.eqb_eq in E0, E1, E2. lia.
  - apply skip_bom_other. lia.
Qed.

Lemma Some_inj {A : Type} (a b : A) : Some a = Some b -> a = b.
Proof. now intros [=]. Qed.

Lemma well_formed_head (s : jsstring) :
  starts_with_bom s = false -> hd_error (scalar_values s) <> Some bom.
Proof.
  destruct s as [|c s]; [discriminate|].
  cbn [starts_with_bom scalar_values]. intros Hc. apply N.eqb_neq in Hc.
  surrogate c.
  - destruct s as [|d s]; [discriminate|].
    destruct (is_low_surrogate d); cbn [hd_error]; [|discriminate].
    unfold bom. intros E. apply Some_inj in E. lia.
  - discriminate.
  - cbn [hd_error]. congruence.
Qed.

(** Encoding then decoding gives the string back when it is well formed and
    does not start with U+FEFF. *)
Lemma text_roundtrip (s : jsstring) :
  well_formed s = true -> starts_with_bom s = false ->
  TextDecoder_decode (TextEncoder_encode s) = s.
Proof.
  intros Hwf Hbom. unfold TextDecoder_decode, TextEncoder_encode.
  pose proof (well_formed_scalars s Hwf) as Hsc.
  rewrite map_to_N_byte_of_N by now apply utf8_bytes_small.
  rewrite skip_bom_encode by (auto using well_formed_head).
  rewrite utf8_decode_encode by exact Hsc.
  now apply well_formed_units.
Qed.


(** ** Strings on the wire *)

(** The two conditions are needed: a string of 16-bit code units that comes
    back unchanged is well formed and does not start with U+FEFF. *)

Lemma scalar_values_pair (c d : N) (s : jsstring) :
  scalar_values (c :: d :: s)
  = if is_high_surrogate c then
      if is_low_surrogate d then
        (0x10000 + (c - 0xD800) * 0x400 + (d - 0xDC00)) :: scalar_values s
      else replacement :: scalar_values (d :: s)
    else if is_low_surrogate c then replacement :: scalar_values (d :: s)
    else c :: scalar_values (d :: s).
Proof. reflexivity. Qed.

Lemma scalar_values_one (c : N) :
  scalar_values [c]
  = if is_high_surrogate c then [replacement]
    else if is_low_surrogate c then [replacement] else [c].
Proof. reflexivity. Qed.

Lemma scalar_values_valid (s : jsstring) :
  Forall (fun c => c < 0x10000) s -> Forall is_scalar (scalar_values s).
Proof.
  induction s as [| c | c d s IH1 IH2] using list_ind_pair; intros H.
  - constructor.
  - inversion_clear H as [|? ? Hc _]. rewrite scalar_values_one. surrogate c;
      (constructor; [unfold is_scalar, replacement; lia | constructor]).
  - inversion_clear H as [|? ? Hc H']. pose proof H' as H''.
    inversion_clear H'' as [|? ? Hd Hs]. rewrite scalar_values_pair.
    surrogate c.
    + surrogate d; (constructor; [unfold is_scalar, replacement; lia | auto]).
    + constructor; [unfold is_scalar, replacement; lia | auto].
    + constructor; [unfold is_scalar; lia | auto].
Qed.

Lemma code_units_length (s : jsstring) :
  Forall (fun c => c < 0x10000) s ->
  List.length (flat_map code_units (scalar_values s)) = List.length s.
Proof.
  induction s as [| c | c d s IH1 IH2] using list_ind_pair; intros H.
  - reflexivity.
  - inversion_clear H as [|? ? Hc _]. rewrite scalar_values_one. surrogate c;
      cbn [flat_map app]; unfold code_units, replacement; split_cmp;
      reflexivity.
  - inversion_clear H as [|? ? Hc H']. pose proof H' as H''.
    inversion_clear H'' as [|? ? Hd Hs]. rewrite scalar_values_pair.
    surrogate c.
    + surrogate d; cbn [flat_map]; rewrite length_app;
        unfold code_units at 1, replacement; split_cmp; cbn [List.length];
        rewrite ?(IH1 H'), ?(IH2 Hs); reflexivity.
    + cbn [flat_map]. rewrite length_app, (IH1 H').
      unfold code_units, replacement. split_cmp. reflexivity.
    + cbn [flat_map]. rewrite length_app, (IH1 H').
      unfold code_units. split_cmp. reflexivity.
Qed.

Lemma code_units_well_formed (s : jsstring) :
  Forall (fun c => c < 0x10000) s ->
  flat_map code_units (scalar_values s) = s -> well_formed s = true.
Proof.
  induction s as [| c | c d s IH1 IH2] using list_ind_pair; intros H.
  - reflexivity.
  - inversion_clear H as [|? ? Hc _]. rewrite scalar_values_one.
    cbn [well_formed].
    surrogate c; cbn [flat_map app negb andb]; unfold code_units, replacement;
      repeat split_cmp; intros E; try reflexivity;
      apply (f_equal (@hd N 0)) in E; cbn [hd app] in E; lia.
  - inversion_clear H as [|? ? Hc H']. pose proof H' as H''.
    inversion_clear H'' as [|? ? Hd Hs]. rewrite scalar_values_pair.
    change (well_formed (c :: d :: s))
      with (if is_high_surrogate c then is_low_surrogate d && well_formed s
            else negb (is_low_surrogate c) && (c <? 0x10000)
                 && well_formed (d :: s)).
    surrogate c.
    + surrogate d; cbn [flat_map andb]; unfold code_units at 1, replacement;
        split_cmp; cbn [app]; intros E.
      * apply (f_equal (@hd N 0)) in E. cbn [hd] in E. lia.
      * apply IH2; [exact Hs|]. congruence.
      * apply (f_equal (@hd N 0)) in E. cbn [hd] in E. lia.
    + cbn [flat_map]. unfold code_units at 1, replacement. split_cmp.
      cbn [app]. intros E. apply (f_equal (@hd N 0)) in E. cbn [hd] in E. lia.
    + cbn [flat_map negb andb]. unfold code_units at 1. repeat split_cmp.
      cbn [app]. intros E. apply IH1; [exact H'|]. congruence.
Qed.

Lemma skip_bom_first (rest : list N) :
  skip_bom (utf8_encode_scalar bom ++ rest) = rest.
Proof. reflexivity. Qed.

Lemma text_roundtrip_only (s : jsstring) :
  Forall (fun c => c < 0x10000) s ->
  TextDecoder_decode (TextEncoder_encode s) = s ->
  well_formed s = true /\ starts_with_bom s = false.
Proof.
  intros Hs. unfold TextDecoder_decode, TextEncoder_encode.
  pose proof (scalar_values_valid s Hs) as Hsc.
  pose proof (code_units_length s Hs) as Hlen.
  rewrite map_to_N_byte_of_N by now apply utf8_bytes_small.
  destruct (starts_with_bom s) eqn:Hb.
  - destruct s as [|c s]; [discriminate|]. cbn [starts_with_bom] in Hb.
    apply N.eqb_eq in Hb. subst c.
    assert (E : scalar_values (bom :: s) = bom :: scalar_values s)
      by (destruct s; reflexivity).
    rewrite E in *. cbn [flat_map] in *. rewrite skip_bom_first.
    inversion_clear Hsc as [|? ? _ Hsc'].
    rewrite utf8_decode_encode by exact Hsc'. intros H. exfalso.
    apply (f_equal (@List.length N)) in H.
    rewrite length_app in Hlen. cbn [List.length] in H.
    change (List.length (code_units bom)) with 1%nat in Hlen.
    cbn [List.length] in Hlen. lia.
  - rewrite skip_bom_encode by (auto using well_formed_head).
    rewrite utf8_decode_encode by exact Hsc.
    intros E. split; [now apply code_units_well_formed | reflexivity].
Qed.

Lemma ascii_well_formed (s : jsstring) :
  Forall (fun c => c < 128) s -> well_formed s = true.
Proof.
  induction 1 as [|c s Hc _ IH]; [reflexivity|].
  cbn [well_formed]. surrogate c; try lia.
  cbn [negb andb]. rewrite IH.
  replace (c <? 0x10000) with true by (symmetry; apply N.ltb_lt; lia).
  reflexivity.
Qed.

Lemma ascii_no_bom (s : jsstring) :
  Forall (fun c => c < 128) s -> starts_with_bom s = false.
Proof.
  intros [|c l Hc _]; [reflexivity|].
  cbn [starts_with_bom]. apply N.eqb_neq. unfold bom. lia.
Qed.

(** ASCII text survives encoding and decoding. *)
Lemma ascii_roundtrip (s : jsstring) :
  Forall (fun c => c < 128) s -> TextDecoder_decode (TextEncoder_encode s) = s.
Proof.
  intros H. apply text_roundtrip; [now apply ascii_well_formed | now apply ascii_no_bom].
Qed.

Lemma base64_text_ascii (b : bytes) : Forall (fun c => c < 128) (base64_text b).
Proof.
  eapply Forall_impl; [|apply base64_text_chars]. now intros c [H _].
Qed.

Lemma base64_text_no_colon (b : bytes) : ~ In colon (base64_text b).
Proof.
  intros H. pose proof (base64_text_chars b) as Hc.
  rewrite Forall_forall in Hc. now destruct (Hc _ H).
Qed.

Lemma split_none (sep : N) (s : jsstring) : ~ In sep s -> split sep s = [s].
Proof.
  induction s as [|c s IH]; [reflexivity|].
  intros H. cbn [split].
  destruct (N.eqb_spec c sep) as [->|_]; [exfalso; apply H; now left|].
  rewrite IH; [reflexivity|]. intros Hin. apply H. now right.
Qed.

Lemma split_first (sep : N) (a rest : jsstring) :
  ~ In sep a -> split sep (a ++ sep :: rest) = a :: split sep rest.
Proof.
  induction a as [|c a IH]; intros H.
  - cbn [app split]. now rewrite N.eqb_refl.
  - cbn [app split].
    destruct (N.eqb_spec c sep) as [->|_]; [exfalso; apply H; now left|].
    rewrite IH; [reflexivity|]. intros Hin. apply H. now right.
Qed.

(** The wire form of a group key envelope splits into its two halves. *)
Lemma split_envelope (a b : bytes) :
  split colon (base64_text a ++ [colon] ++ base64_text b)
  = [base64_text a; base64_text b].
Proof.
  cbn [app]. rewrite split_first by apply base64_text_no_colon.
  now rewrite split_none by apply base64_text_no_colon.
Qed.


(** ** Key agreement *)

Section KeyAgreement.

Context {P : Platform} {L : PlatformLaws P}.

Lemma scalar_mul_zero (Q : point) : scalar_mul 0 Q = pzero.
Proof. reflexivity. Qed.

Lemma scalar_mul_succ (d : N) (Q : point) :
  scalar_mul (N.succ d) Q = padd Q (scalar_mul d Q).
Proof. unfold scalar_mul. apply N.iter_succ. Qed.

Lemma scalar_mul_add (a b : N) (Q : point) :
  scalar_mul (a + b) Q = padd (scalar_mul a Q) (scalar_mul b Q).
Proof.
  induction a as [|a IH] using N.peano_ind.
  - now rewrite N.add_0_l, scalar_mul_zero, padd_zero_l.
  - now rewrite N.add_succ_l, !scalar_mul_succ, IH, padd_assoc.
Qed.

Lemma scalar_mul_mul (a b : N) (Q : point) :
  scalar_mul a (scalar_mul b Q) = scalar_mul (a * b) Q.
Proof.
  induction a as [|a IH] using N.peano_ind.
  - reflexivity.
  - rewrite scalar_mul_succ, IH, N.mul_succ_l, (N.add_comm (a * b) b).
    now rewrite scalar_mul_add.
Qed.

(** Both sides of an exchange reach the same point: [a] times the public
    key of [b] is [b] times the public key of [a]. *)
Lemma ecdh_agree (a b : N) :
  subtle_deriveBits_ECDH a (public_of b) = subtle_deriveBits_ECDH b (public_of a).
Proof.
  unfold subtle_deriveBits_ECDH, public_of.
  now rewrite !scalar_mul_mul, N.mul_comm.
Qed.

End KeyAgreement.

(** ** The operations of [CryptoService] *)

Section CryptoServiceFacts.

Context {P : Platform} {L : PlatformLaws P}.

Lemma nonempty_length {A : Type} (l : list A) (n : nat) :
  List.length l = S n -> l <> [].
Proof. now destruct l. Qed.

Lemma random_values_nonempty (n : nat) (rng : Rng) :
  fst (getRandomValues (S n) rng) <> [].
Proof. apply (nonempty_length _ n), random_values_length. Qed.

Lemma gcm_nonempty (key : AesKey) (iv plaintext : bytes) :
  aes_gcm_encrypt key iv plaintext <> [].
Proof.
  apply (nonempty_length _ (List.length plaintext + 15)).
  rewrite gcm_length. lia.
Qed.

Lemma export_raw_nonempty (Q : point) : export_raw Q <> [].
Proof. apply (nonempty_length _ 64), raw_length. Qed.

Lemma importPublicKey_export (Q : point) : importPublicKey (export_raw Q) = Ok Q.
Proof.
  unfold importPublicKey, subtle_importKey_raw. now rewrite raw_roundtrip.
Qed.

Lemma subtle_decrypt_encrypt (key : AesKey) (iv plaintext : bytes) :
  subtle_decrypt iv key (aes_gcm_encrypt key iv plaintext) = Ok plaintext.
Proof. unfold subtle_decrypt. now rewrite gcm_roundtrip. Qed.

(** What [encryptMessage] returns: the base64 text of the ciphertext under a
    nonce of 12 fresh bytes, and of that nonce. *)
Lemma encryptMessage_spec (message : jsstring) (aesKey : AesKey) (rng : Rng) :
  encryptMessage message aesKey rng
  = (Ok {| encryptedData :=
             base64_text (aes_gcm_encrypt aesKey (fst (getRandomValues 12 rng))
                            (TextEncoder_encode message));
           nonce := base64_text (fst (getRandomValues 12 rng)) |},
     snd (getRandomValues 12 rng)).
Proof.
  unfold encryptMessage, rtry_catch, rbind, random_values, lift, rret.
  pose proof (random_values_nonempty 11 rng) as Hn.
  destruct (getRandomValues 12 rng) as [n rng'] eqn:E. cbn [fst snd] in *.
  rewrite arrayBufferToBase64_text by apply gcm_nonempty.
  now rewrite arrayBufferToBase64_text by exact Hn.
Qed.

(** What [decryptMessage] does with well-formed base64: it decrypts and
    decodes, or reports the one failure it has. *)
Lemma decryptMessage_text (data iv : bytes) (aesKey : AesKey) :
  data <> [] -> iv <> [] ->
  decryptMessage (base64_text data) (base64_text iv) aesKey
  = match aes_gcm_decrypt aesKey iv data with
    | Some plaintext => Ok (TextDecoder_decode plaintext)
    | None => Throw decryption_failure
    end.
Proof.
  intros Hd Hi. unfold decryptMessage, subtle_decrypt.
  rewrite !base64ToArrayBuffer_text by assumption. cbn [bind].
  now destruct (aes_gcm_decrypt aesKey iv data).
Qed.

(** [decryptMessage] has one failure, and returns only what the provider
    authenticated. *)
Lemma decryptMessage_outcome (encryptedB64 nonceB64 : jsstring) (aesKey : AesKey) :
  decryptMessage encryptedB64 nonceB64 aesKey = Throw decryption_failure
  \/ exists data iv12 plaintext : bytes,
       base64ToArrayBuffer encryptedB64 = Ok data
       /\ base64ToArrayBuffer nonceB64 = Ok iv12
       /\ aes_gcm_decrypt aesKey iv12 data = Some plaintext
       /\ decryptMessage encryptedB64 nonceB64 aesKey
          = Ok (TextDecoder_decode plaintext).
Proof.
  unfold decryptMessage, subtle_decrypt.
  destruct (base64ToArrayBuffer encryptedB64) as [e|data]; [now left|].
  destruct (base64ToArrayBuffer nonceB64) as [e|iv12]; [now left|].
  cbn [bind]. destruct (aes_gcm_decrypt aesKey iv12 data) as [plaintext|] eqn:E;
    [|now left].
  right. exists data, iv12, plaintext. now rewrite E.
Qed.

Lemma flip_bit_length (i : nat) (bs : bytes) :
  List.length (flip_bit i bs) = List.length bs.
Proof.
  revert i. induction bs as [|b bs IH]; intros i; [reflexivity|].
  cbn [flip_bit]. destruct (i <? 8)%nat; cbn [List.length]; [reflexivity|].
  now rewrite IH.
Qed.

Lemma flip_bit_nonempty (i : nat) (bs : bytes) : bs <> [] -> flip_bit i bs <> [].
Proof.
  intros H E. apply H. apply length_zero_iff_nil.
  now rewrite <- (flip_bit_length i), E.
Qed.

Lemma deriveKeyFromPassword_spec (password : jsstring) (salt : bytes) :
  deriveKeyFromPassword password salt = Ok (password_key password salt).
Proof. reflexivity. Qed.

(** What [encryptPrivateKey] returns: a salt of 16 fresh bytes, then an IV of
    12 fresh bytes, and the key's JSON text encrypted under the password's
    key. *)
Lemma encryptPrivateKey_spec (d : N) (password : jsstring) (rng : Rng) :
  let salt16 := fst (getRandomValues 16 rng) in
  let rng1 := snd (getRandomValues 16 rng) in
  let iv12 := fst (getRandomValues 12 rng1) in
  encryptPrivateKey d password rng
  = (Ok {| encryptedPrivateKey :=
             base64_text (aes_gcm_encrypt (password_key password salt16) iv12
                            (serialized_key d));
           salt := base64_text salt16;
           iv := base64_text iv12 |},
     snd (getRandomValues 12 rng1)).
Proof.
  intros salt16 rng1 iv12. subst salt16 rng1 iv12.
  unfold encryptPrivateKey, rtry_catch, rbind, random_values, lift, rret.
  pose proof (random_values_nonempty 15 rng) as Hs.
  destruct (getRandomValues 16 rng) as [s rng1] eqn:E1. cbn [fst snd] in *.
  rewrite deriveKeyFromPassword_spec.
  pose proof (random_values_nonempty 11 rng1) as Hi.
  destruct (getRandomValues 12 rng1) as [i rng2] eqn:E2. cbn [fst snd] in *.
  rewrite arrayBufferToBase64_text by apply gcm_nonempty.
  rewrite arrayBufferToBase64_text by exact Hs.
  now rewrite arrayBufferToBase64_text by exact Hi.
Qed.

(** In [decryptPrivateKey] a rejected decryption is the error
    [OperationError], which the handler reports as a wrong password. *)
Lemma decryptPrivateKey_rejected
  (encryptedB64 saltB64 ivB64 password : jsstring) (E S I : bytes) :
  base64ToArrayBuffer encryptedB64 = Ok E ->
  base64ToArrayBuffer saltB64 = Ok S ->
  base64ToArrayBuffer ivB64 = Ok I ->
  aes_gcm_decrypt (password_key password S) I E = None ->
  decryptPrivateKey encryptedB64 saltB64 ivB64 password = Throw wrong_password.
Proof.
  intros HE HS HI Hd. unfold decryptPrivateKey.
  rewrite HE, HS, HI. cbn [bind]. rewrite deriveKeyFromPassword_spec.
  cbn [bind]. unfold subtle_decrypt. now rewrite Hd.
Qed.

(** Whatever the message, decrypting its envelope gives the text its bytes
    decode to. *)
Lemma decrypt_encrypt_message (message : jsstring) (aesKey : AesKey) (rng : Rng) :
  exists envelope rng',
    encryptMessage message aesKey rng = (Ok envelope, rng')
    /\ decryptMessage (encryptedData envelope) (nonce envelope) aesKey
       = Ok (TextDecoder_decode (TextEncoder_encode message)).
Proof.
  eexists. eexists. split; [apply encryptMessage_spec|].
  cbn [encryptedData nonce].
  rewrite decryptMessage_text
    by (apply gcm_nonempty || apply (random_values_nonempty 11)).
  now rewrite gcm_roundtrip.
Qed.

(** No other message of 16-bit code units comes back unchanged. *)
Lemma message_roundtrip_only (message : jsstring) (aesKey : AesKey)
  (rng rng' : Rng) (envelope : Envelope) :
  Forall (fun c => c < 0x10000) message ->
  encryptMessage message aesKey rng = (Ok envelope, rng') ->
  decryptMessage (encryptedData envelope) (nonce envelope) aesKey = Ok message ->
  well_formed message = true /\ starts_with_bom message = false.
Proof.
  intros Hm He Hd.
  destruct (decrypt_encrypt_message message aesKey rng) as (e & r & He' & Hd').
  rewrite He in He'. injection He' as <- <-. rewrite Hd in Hd'.
  apply text_roundtrip_only; [exact Hm | congruence].
Qed.

(** C1 (amended).  A message that is a well-formed string (no surrogate
    without its partner) and does not start with U+FEFF is returned
    unchanged by [decryptMessage] applied, with the same key, to the envelope
    [encryptMessage] made of it. *)
Theorem message_roundtrip (message : jsstring) (aesKey : AesKey) (rng : Rng) :
  well_formed message = true ->
  starts_with_bom message = false ->
  exists envelope rng',
    encryptMessage message aesKey rng = (Ok envelope, rng')
    /\ decryptMessage (encryptedData envelope) (nonce envelope) aesKey
       = Ok message.
Proof.
  intros Hwf Hbom.
  destruct (decrypt_encrypt_message message aesKey rng) as (e & r & He & Hd).
  exists e, r. split; [exact He|]. now rewrite Hd, text_roundtrip.
Qed.

(** C3.  For every password and every private key, [decryptPrivateKey] with
    the same password gives back the key [encryptPrivateKey] protected. *)
Theorem private_key_roundtrip (d : N) (password : jsstring) (rng : Rng) :
  exists record rng',
    encryptPrivateKey d password rng = (Ok record, rng')
    /\ decryptPrivateKey (encryptedPrivateKey record) (salt record) (iv record)
         password = Ok d.
Proof.
  eexists. eexists. split; [apply encryptPrivateKey_spec|].
  cbn [encryptedPrivateKey salt iv]. unfold decryptPrivateKey.
  rewrite base64ToArrayBuffer_text by apply gcm_nonempty.
  rewrite base64ToArrayBuffer_text by apply (random_values_nonempty 15).
  rewrite base64ToArrayBuffer_text by apply (random_values_nonempty 11).
  cbn [bind]. rewrite deriveKeyFromPassword_spec. cbn [bind].
  rewrite subtle_decrypt_encrypt. cbn [bind].
  unfold serialized_key. rewrite ascii_roundtrip by apply json_ascii.
  rewrite json_roundtrip. cbn [bind]. now rewrite jwk_roundtrip.
Qed.

(** C5.  When the key derived from the password fails to decrypt a record,
    [decryptPrivateKey] throws the error [Senha incorreta] (wrong password)
    and nothing else: for any record whose three fields are base64 text,
    and so for a record [encryptPrivateKey] made under another password. *)
Theorem wrong_password_reported
  (encryptedB64 saltB64 ivB64 password : jsstring) (E S I : bytes)
  (d : N) (other : jsstring) (rng : Rng) :
  (base64ToArrayBuffer encryptedB64 = Ok E ->
   base64ToArrayBuffer saltB64 = Ok S ->
   base64ToArrayBuffer ivB64 = Ok I ->
   aes_gcm_decrypt (password_key password S) I E = None ->
   decryptPrivateKey encryptedB64 saltB64 ivB64 password
   = Throw wrong_password)
  /\ (let salt16 := fst (getRandomValues 16 rng) in
      let iv12 := fst (getRandomValues 12 (snd (getRandomValues 16 rng))) in
      aes_gcm_decrypt (password_key password salt16) iv12
        (aes_gcm_encrypt (password_key other salt16) iv12 (serialized_key d))
      = None ->
      exists record rng',
        encryptPrivateKey d other rng = (Ok record, rng')
        /\ decryptPrivateKey (encryptedPrivateKey record) (salt record)
             (iv record) password
           = Throw wrong_password).
Proof.
  split; [apply decryptPrivateKey_rejected|].
  intros salt16 iv12 Hd. eexists. eexists. split; [apply encryptPrivateKey_spec|].
  cbn [encryptedPrivateKey salt iv].
  eapply decryptPrivateKey_rejected; [| | |exact Hd].
  - apply base64ToArrayBuffer_text, gcm_nonempty.
  - apply base64ToArrayBuffer_text, (random_values_nonempty 15).
  - apply base64ToArrayBuffer_text, (random_values_nonempty 11).
Qed.

(** C6.  For a key under which the provider's AES-GCM rejects a ciphertext
    or a nonce with one bit flipped, [decryptMessage] with that key throws
    its decryption failure for every such flip of an envelope
    [encryptMessage] made under it; it returns no plaintext. *)
Theorem tampered_envelope_rejected
  (message : jsstring) (aesKey : AesKey) (rng : Rng) :
  gcm_detects_bit_flips aesKey ->
  let iv12 := fst (getRandomValues 12 rng) in
  let data := aes_gcm_encrypt aesKey iv12 (TextEncoder_encode message) in
  fst (encryptMessage message aesKey rng)
  = Ok {| encryptedData := base64_text data; nonce := base64_text iv12 |}
  /\ (forall i : nat,
         (i < 8 * List.length data)%nat ->
         decryptMessage (base64_text (flip_bit i data)) (base64_text iv12)
           aesKey
         = Throw decryption_failure)
  /\ (forall i : nat,
         (i < 8 * List.length iv12)%nat ->
         decryptMessage (base64_text data) (base64_text (flip_bit i iv12))
           aesKey
         = Throw decryption_failure).
Proof.
  intros Hgcm iv data.
  assert (Hiv : iv <> []) by apply (random_values_nonempty 11).
  assert (Hdata : data <> []) by apply gcm_nonempty.
  assert (Hlen : List.length iv = 12%nat) by apply random_values_length.
  split; [now rewrite encryptMessage_spec|]. split; intros i Hi.
  - rewrite decryptMessage_text by (auto using flip_bit_nonempty).
    destruct (Hgcm iv (TextEncoder_encode message) i) as [H _].
    fold data in H. now rewrite H.
  - rewrite decryptMessage_text by (auto using flip_bit_nonempty).
    destruct (Hgcm iv (TextEncoder_encode message) i) as [_ H].
    fold data in H. rewrite H; [reflexivity | exact Hlen | lia].
Qed.

End CryptoServiceFacts.

(** ** Group keys *)

Section GroupKeyFacts.

Context {P : Platform} {L : PlatformLaws P}.

Lemma generateKeyPair_spec (rng : Rng) :
  let d := fst (random_scalar rng) in
  generateKeyPair rng
  = (Ok {| privateKey := d; publicKey := public_of d;
           publicKeyRaw := export_raw (public_of d) |},
     snd (random_scalar rng)).
Proof.
  unfold generateKeyPair, rtry_catch, rbind, subtle_generateKey_ECDH, rret.
  now destruct (random_scalar rng).
Qed.

Lemma generateKeyPair_valid (rng rng' : Rng) (keys : KeyPair) :
  generateKeyPair rng = (Ok keys, rng') -> valid_pair keys.
Proof.
  rewrite generateKeyPair_spec. intros H. injection H as <- _.
  split; reflexivity.
Qed.

Lemma importPublicKey_spec (raw : bytes) (Q : point) :
  import_raw raw = Some Q -> importPublicKey raw = Ok Q.
Proof.
  intros H. unfold importPublicKey, subtle_importKey_raw. now rewrite H.
Qed.

(** What [encryptGroupKeyForMember] returns: one draw for the ephemeral
    key, one for the nonce, and the base64 text of the group key encrypted
    under the key exchanged with the member. *)
Lemma encryptGroupKeyForMember_spec (groupKey memberRaw : bytes) (Q : point)
  (rng : Rng) :
  groupKey <> [] ->
  import_raw memberRaw = Some Q ->
  let d := fst (random_scalar rng) in
  let rng1 := snd (random_scalar rng) in
  let nonce12 := fst (getRandomValues 12 rng1) in
  encryptGroupKeyForMember groupKey memberRaw rng
  = (Ok {| encryptedGroupKey :=
             wrapped_text (exchange_key d Q) nonce12
               (TextEncoder_encode (base64_text groupKey));
           ephemeralPublicKey := base64_text (export_raw (public_of d)) |},
     snd (getRandomValues 12 rng1)).
Proof.
  intros HG HQ d rng1 nonce12. subst d rng1 nonce12.
  unfold encryptGroupKeyForMember, rtry_catch, rbind, lift, rret.
  rewrite generateKeyPair_spec. cbn [privateKey publicKeyRaw].
  rewrite (importPublicKey_spec _ _ HQ).
  cbn [computeSharedSecret deriveAESKey try_catch].
  rewrite arrayBufferToBase64_text by exact HG.
  unfold random_values.
  pose proof (random_values_nonempty 11 (snd (random_scalar rng))) as Hn.
  destruct (getRandomValues 12 (snd (random_scalar rng))) as [n rng2].
  cbn [fst snd] in *.
  rewrite arrayBufferToBase64_text by apply gcm_nonempty.
  rewrite arrayBufferToBase64_text by exact Hn.
  now rewrite arrayBufferToBase64_text by apply export_raw_nonempty.
Qed.

Lemma decryptGroupKey_present (a b : jsstring) (rest : list jsstring)
  (envelope eph : jsstring) (myPrivateKey : N) :
  split colon envelope = a :: b :: rest ->
  a <> [] -> b <> [] ->
  decryptGroupKey envelope eph myPrivateKey
  = decryptGroupKey_halves a b eph myPrivateKey.
Proof.
  intros Hs Ha Hb. unfold decryptGroupKey. rewrite Hs. cbn [nth_error].
  destruct a as [|x a]; [congruence|]. destruct b as [|y b]; [congruence|].
  unfold try_catch.
  now destruct (decryptGroupKey_halves (x :: a) (y :: b) eph myPrivateKey).
Qed.

Lemma decryptGroupKey_absent (envelope eph : jsstring) (myPrivateKey : N) :
  halves_absent envelope = true ->
  decryptGroupKey envelope eph myPrivateKey = Throw invalid_format.
Proof.
  unfold halves_absent, decryptGroupKey.
  destruct (split colon envelope) as [|a [|b rest]]; intros H.
  - reflexivity.
  - now destruct a.
  - cbn [nth_error]. destruct a as [|x a]; [reflexivity|].
    destruct b as [|y b]; [reflexivity|]. discriminate.
Qed.

(** The only errors of [base64ToArrayBuffer] are of the encoding kind. *)
Lemma base64ToArrayBuffer_failure (text : jsstring) (error : exn) :
  base64ToArrayBuffer text = Throw error -> is_encoding_failure error = true.
Proof.
  unfold base64ToArrayBuffer. destruct text as [|c text].
  - cbn. now intros [= <-].
  - unfold atob.
    repeat match goal with
           | |- context [if ?t then _ else _] => destruct t
           | |- context [match sextets ?d with _ => _ end] => destruct (sextets d)
           end; cbn; intros [= <-]; reflexivity.
Qed.

(** C2.  A group key of 256 bits wrapped for the public key of a member is
    recovered, byte for byte, by that member's private key. *)
Theorem group_key_roundtrip (groupKey : bytes) (member : N) (rng : Rng) :
  List.length groupKey = 32%nat ->
  exists wrapped rng',
    encryptGroupKeyForMember groupKey (export_raw (public_of member)) rng
    = (Ok wrapped, rng')
    /\ decryptGroupKey (encryptedGroupKey wrapped) (ephemeralPublicKey wrapped)
         member
       = Ok groupKey.
Proof.
  intros Hlen.
  assert (HG : groupKey <> []) by (apply (nonempty_length _ 31), Hlen).
  eexists. eexists. split.
  { apply encryptGroupKeyForMember_spec; [exact HG | apply raw_roundtrip]. }
  cbn [encryptedGroupKey ephemeralPublicKey]. unfold wrapped_text.
  rewrite (decryptGroupKey_present _ _ _ _ _ _ (split_envelope _ _))
    by (apply base64_text_nonempty;
        (apply gcm_nonempty || apply (random_values_nonempty 11))).
  unfold decryptGroupKey_halves.
  rewrite base64ToArrayBuffer_text by apply export_raw_nonempty. cbn [bind].
  rewrite importPublicKey_export. cbn [bind computeSharedSecret try_catch].
  cbn [deriveAESKey try_catch bind].
  rewrite base64ToArrayBuffer_text by apply gcm_nonempty.
  rewrite base64ToArrayBuffer_text by apply (random_values_nonempty 11).
  cbn [bind]. rewrite (ecdh_agree member).
  fold (exchange_key (fst (random_scalar rng)) (public_of member)).
  rewrite subtle_decrypt_encrypt. cbn [bind].
  rewrite ascii_roundtrip by apply base64_text_ascii.
  now rewrite base64ToArrayBuffer_text by exact HG.
Qed.

(** C4.  For two valid key pairs, [computeSharedSecret] with the private
    key of one and the public key of the other returns the same secret on
    both sides. *)
Theorem shared_secret_commutes (A B : KeyPair) :
  valid_pair A -> valid_pair B ->
  exists secret : bytes,
    computeSharedSecret (privateKey A) (publicKey B) = Ok secret
    /\ computeSharedSecret (privateKey B) (publicKey A) = Ok secret.
Proof.
  intros [HA _] [HB _]. unfold computeSharedSecret. cbn [try_catch].
  eexists. split; [reflexivity|]. now rewrite HA, HB, ecdh_agree.
Qed.

(** C7 (amended).  For a malformed envelope [decryptGroupKey] returns no key.
    When the separator or a half is absent it throws the format error at
    once.  When both halves are there and one is not base64 text, the
    ephemeral public key is decoded and imported first: the failure is of
    the encoding kind unless the import rejects that key, and then it is the
    import's [DataError]. *)
Theorem malformed_envelope_fails (envelope eph : jsstring) (myPrivateKey : N) :
  envelope_malformed envelope = true ->
  exists error,
    decryptGroupKey envelope eph myPrivateKey = Throw error
    /\ (halves_absent envelope = true -> error = invalid_format)
    /\ (is_encoding_failure error = true
        \/ (exists raw,
               base64ToArrayBuffer eph = Ok raw /\ import_raw raw = None)
           /\ error = data_error).
Proof.
  intros Hm.
  destruct (halves_absent envelope) eqn:Habs.
  { exists invalid_format. rewrite decryptGroupKey_absent by exact Habs.
    split; [reflexivity|]. split; [reflexivity|]. now left. }
  unfold envelope_malformed in Hm. unfold halves_absent in Habs.
  destruct (split colon envelope) as [|a [|b rest]] eqn:Hs; try discriminate.
  apply orb_false_iff in Habs. destruct Habs as [Ha Hb].
  apply negb_false_iff in Ha, Hb.
  rewrite (decryptGroupKey_present a b rest)
    by (exact Hs || (destruct a; discriminate) || (destruct b; discriminate)).
  unfold decryptGroupKey_halves.
  destruct (base64ToArrayBuffer eph) as [e|raw] eqn:He.
  { exists e. split; [reflexivity|]. split; [discriminate|]. left.
    now apply base64ToArrayBuffer_failure in He. }
  cbn [bind]. unfold importPublicKey, subtle_importKey_raw.
  destruct (import_raw raw) as [Q|] eqn:HQ.
  2:{ exists data_error. split; [reflexivity|]. split; [discriminate|].
      right. split; [now exists raw | reflexivity]. }
  cbn [try_catch bind computeSharedSecret deriveAESKey].
  unfold decodes in Hm.
  destruct (base64ToArrayBuffer a) as [e|dataA] eqn:HA.
  { exists e. split; [reflexivity|]. split; [discriminate|]. left.
    now apply base64ToArrayBuffer_failure in HA. }
  destruct (base64ToArrayBuffer b) as [e|dataB] eqn:HB; [|discriminate].
  exists e. split; [reflexivity|]. split; [discriminate|]. left.
  now apply base64ToArrayBuffer_failure in HB.
Qed.

(** C8 (amended).  [encryptGroupKeyForMember] encrypts, under the key
    exchanged between a fresh ephemeral key and the member's public key, the
    UTF-8 bytes of the base64 text of the group key (not the key's bytes
    themselves).  Its wire output is the base64 ciphertext, one separator
    and the base64 nonce, which [split] takes apart in exactly these two
    halves; the ephemeral public key is a field of its own, in base64. *)
Theorem group_key_envelope_format (groupKey memberRaw : bytes) (Q : point)
  (rng : Rng) :
  groupKey <> [] ->
  import_raw memberRaw = Some Q ->
  let d := fst (random_scalar rng) in
  let nonce12 := fst (getRandomValues 12 (snd (random_scalar rng))) in
  let data :=
    aes_gcm_encrypt (exchange_key d Q) nonce12
      (TextEncoder_encode (base64_text groupKey)) in
  fst (encryptGroupKeyForMember groupKey memberRaw rng)
  = Ok {| encryptedGroupKey := base64_text data ++ [colon] ++ base64_text nonce12;
          ephemeralPublicKey := base64_text (export_raw (public_of d)) |}
  /\ split colon (base64_text data ++ [colon] ++ base64_text nonce12)
     = [base64_text data; base64_text nonce12]
  /\ TextDecoder_decode (TextEncoder_encode (base64_text groupKey))
     = base64_text groupKey.
Proof.
  intros HG HQ d nonce12 data. split; [|split].
  - now rewrite (encryptGroupKeyForMember_spec _ _ _ _ HG HQ).
  - apply split_envelope.
  - apply ascii_roundtrip, base64_text_ascii.
Qed.

End GroupKeyFacts.

(** ** Direct messages *)

Section DirectMessageFacts.

Context {P : Platform} {L : PlatformLaws P}.

Lemma export_raw_inj (Q Q' : point) : export_raw Q = export_raw Q' -> Q = Q'.
Proof.
  intros H. apply Some_inj. now rewrite <- !raw_roundtrip, H.
Qed.

(** The copy for the sender: a key pair and a nonce of its own. *)
Lemma sendMessage_self_spec (messageInput userId receiverId : jsstring)
  (forReceiver : Envelope) (ephemeralKeysForReceiver : KeyPair)
  (myRaw : bytes) (mine : point) (rng : Rng) :
  valid_pair ephemeralKeysForReceiver ->
  import_raw myRaw = Some mine ->
  let d := fst (random_scalar rng) in
  let rng1 := snd (random_scalar rng) in
  let nonce12 := fst (getRandomValues 12 rng1) in
  sendMessage_self messageInput userId receiverId forReceiver
    ephemeralKeysForReceiver myRaw rng
  = (Ok {| senderId := userId;
           receiverId := receiverId;
           msg_encryptedData := encryptedData forReceiver;
           msg_nonce := nonce forReceiver;
           senderEphemPk :=
             base64_text (publicKeyRaw ephemeralKeysForReceiver);
           senderEncryptedData := sealed_text messageInput d mine nonce12;
           senderNonce := base64_text nonce12;
           senderEphemPkForSelf := base64_text (export_raw (public_of d)) |},
     snd (getRandomValues 12 rng1)).
Proof.
  intros [_ Hraw] Hmine d rng1 nonce12. subst d rng1 nonce12.
  unfold sendMessage_self, rbind, lift, rret.
  rewrite generateKeyPair_spec. cbn [privateKey publicKeyRaw].
  rewrite (importPublicKey_spec _ _ Hmine).
  cbn [computeSharedSecret deriveAESKey try_catch].
  rewrite encryptMessage_spec. cbn [encryptedData nonce].
  rewrite (arrayBufferToBase64_text (publicKeyRaw ephemeralKeysForReceiver))
    by (rewrite Hraw; apply export_raw_nonempty).
  now rewrite arrayBufferToBase64_text by apply export_raw_nonempty.
Qed.

(** What an emitted message is made of. *)
Lemma sendMessage_try_emitted (checked : bool)
  (messageInput userId receiverId : jsstring) (response : Response)
  (myPublicKeyRaw : option bytes) (rng rng' : Rng) (message : MessageSend) :
  sendMessage_try checked messageInput userId receiverId response
    myPublicKeyRaw rng = (Ok message, rng') ->
  exists (receiverKey : jsstring) (receiverRaw myRaw : bytes)
         (theirs mine : point),
    response_json response = Some {| receiver_publicKey := Some receiverKey |}
    /\ base64ToArrayBuffer receiverKey = Ok receiverRaw
    /\ import_raw receiverRaw = Some theirs
    /\ myPublicKeyRaw = Some myRaw
    /\ import_raw myRaw = Some mine
    /\ let d1 := fst (random_scalar rng) in
       let rng1 := snd (random_scalar rng) in
       let nonce1 := fst (getRandomValues 12 rng1) in
       let rng2 := snd (getRandomValues 12 rng1) in
       let d2 := fst (random_scalar rng2) in
       let rng3 := snd (random_scalar rng2) in
       let nonce2 := fst (getRandomValues 12 rng3) in
       message
       = {| senderId := userId;
            receiverId := receiverId;
            msg_encryptedData := sealed_text messageInput d1 theirs nonce1;
            msg_nonce := base64_text nonce1;
            senderEphemPk := base64_text (export_raw (public_of d1));
            senderEncryptedData := sealed_text messageInput d2 mine nonce2;
            senderNonce := base64_text nonce2;
            senderEphemPkForSelf := base64_text (export_raw (public_of d2)) |}
       /\ rng' = snd (getRandomValues 12 rng3).
Proof.
  unfold sendMessage_try.
  destruct (response_ok response); cbn [negb]; [|discriminate].
  destruct (response_json response) as [[[[|c key]|]]|]; try discriminate.
  unfold rbind at 1, lift at 1.
  destruct (base64ToArrayBuffer (c :: key)) as [e|receiverRaw] eqn:Hkey;
    [discriminate|].
  unfold rbind at 1, lift at 1, importPublicKey, subtle_importKey_raw.
  destruct (import_raw receiverRaw) as [theirs|] eqn:Htheirs;
    cbn [try_catch]; [|discriminate].
  unfold rbind at 1. rewrite generateKeyPair_spec.
  unfold rbind at 1, lift at 1. cbn [computeSharedSecret try_catch privateKey].
  unfold rbind at 1, lift at 1. cbn [deriveAESKey try_catch].
  unfold rbind at 1. rewrite encryptMessage_spec.
  destruct myPublicKeyRaw as [myRaw|].
  2:{ destruct checked; [discriminate|].
      unfold rbind, lift. rewrite generateKeyPair_spec. discriminate. }
  destruct (import_raw myRaw) as [mine|] eqn:Hmine.
  2:{ unfold sendMessage_self, rbind, lift.
      rewrite generateKeyPair_spec.
      unfold importPublicKey, subtle_importKey_raw. rewrite Hmine.
      discriminate. }
  rewrite (sendMessage_self_spec _ _ _ _ _ _ mine) by (now split || exact Hmine).
  cbn [encryptedData nonce publicKeyRaw]. intros H. injection H as <- <-.
  exists (c :: key), receiverRaw, myRaw, theirs, mine.
  repeat (split; [reflexivity || assumption|]). split; reflexivity.
Qed.

(** A message that is not blank, for an open conversation and a receiver
    whose key and the sender's own key are valid, is emitted. *)
Lemma sendMessage_emits (checked : bool)
  (messageInput receiverId userId receiverKey : jsstring)
  (receiverRaw myRaw : bytes) (theirs mine : point) (rng : Rng) :
  truthy (trim messageInput) = true ->
  base64ToArrayBuffer receiverKey = Ok receiverRaw ->
  import_raw receiverRaw = Some theirs ->
  import_raw myRaw = Some mine ->
  exists message rng',
    sendMessage checked messageInput (Some receiverId) true userId
      {| response_ok := true;
         response_json := Some {| receiver_publicKey := Some receiverKey |} |}
      (Some myRaw) rng
    = (Emitted message, rng').
Proof.
  intros Hmsg Hkey Htheirs Hmine. unfold sendMessage. rewrite Hmsg.
  cbn [negb orb]. unfold sendMessage_try. cbn [response_ok response_json negb].
  destruct receiverKey as [|c key]; [discriminate|].
  unfold rbind at 1, lift at 1. rewrite Hkey.
  unfold rbind at 1, lift at 1. rewrite (importPublicKey_spec _ _ Htheirs).
  unfold rbind at 1. rewrite generateKeyPair_spec.
  unfold rbind at 1, lift at 1. cbn [computeSharedSecret try_catch privateKey].
  unfold rbind at 1, lift at 1. cbn [deriveAESKey try_catch].
  unfold rbind at 1. rewrite encryptMessage_spec.
  rewrite (sendMessage_self_spec _ _ _ _ _ _ mine) by (now split || exact Hmine).
  eexists. eexists. reflexivity.
Qed.

(** C9.  A direct message that is sent carries exactly two ciphertexts of
    its text.  The first is under the key exchanged between a fresh
    ephemeral key pair and the identity key of the receiver, with a fresh
    nonce; the second under the key exchanged between a second ephemeral key
    pair and the identity key of the sender, with a second nonce.  The four
    values are four successive draws of the random generator, none computed
    from another; on the wire the two nonces, and the two ephemeral public
    keys, differ whenever the draws do.  This holds for both versions of the
    page. *)
Theorem direct_message_encrypted_twice (checked : bool)
  (messageInput : jsstring) (selectedChat : option jsstring) (socket : bool)
  (userId : jsstring) (response : Response) (myPublicKeyRaw : option bytes)
  (rng rng' : Rng) (message : MessageSend) :
  sendMessage checked messageInput selectedChat socket userId response
    myPublicKeyRaw rng = (Emitted message, rng') ->
  exists (receiverKey : jsstring) (receiverRaw myRaw : bytes)
         (theirs mine : point),
    response_json response = Some {| receiver_publicKey := Some receiverKey |}
    /\ base64ToArrayBuffer receiverKey = Ok receiverRaw
    /\ import_raw receiverRaw = Some theirs
    /\ myPublicKeyRaw = Some myRaw
    /\ import_raw myRaw = Some mine
    /\ let d1 := fst (random_scalar rng) in
       let rng1 := snd (random_scalar rng) in
       let nonce1 := fst (getRandomValues 12 rng1) in
       let rng2 := snd (getRandomValues 12 rng1) in
       let d2 := fst (random_scalar rng2) in
       let rng3 := snd (random_scalar rng2) in
       let nonce2 := fst (getRandomValues 12 rng3) in
       msg_encryptedData message = sealed_text messageInput d1 theirs nonce1
       /\ msg_nonce message = base64_text nonce1
       /\ senderEphemPk message = base64_text (export_raw (public_of d1))
       /\ senderEncryptedData message = sealed_text messageInput d2 mine nonce2
       /\ senderNonce message = base64_text nonce2
       /\ senderEphemPkForSelf message
          = base64_text (export_raw (public_of d2))
       /\ rng' = snd (getRandomValues 12 rng3)
       /\ (nonce1 <> nonce2 -> msg_nonce message <> senderNonce message)
       /\ (public_of d1 <> public_of d2 ->
           senderEphemPk message <> senderEphemPkForSelf message).
Proof.
  unfold sendMessage. destruct selectedChat as [receiver|]; [|discriminate].
  destruct (negb (truthy (trim messageInput)) || negb socket); [discriminate|].
  destruct (sendMessage_try checked messageInput userId receiver response
              myPublicKeyRaw rng) as [[e|m] r] eqn:Htry; [discriminate|].
  intros H. injection H as <- <-.
  apply sendMessage_try_emitted in Htry.
  destruct Htry as (rk & rraw & myRaw & theirs & mine & H1 & H2 & H3 & H4 & H5
                    & Hm & Hr).
  exists rk, rraw, myRaw, theirs, mine.
  repeat (split; [assumption|]). cbv zeta. subst m.
  cbn [msg_encryptedData msg_nonce senderEphemPk senderEncryptedData
       senderNonce senderEphemPkForSelf].
  repeat (split; [reflexivity || assumption|]). split.
  - intros Hn E. apply Hn. now apply base64_text_inj.
  - intros Hq E. apply Hq. now apply export_raw_inj, base64_text_inj.
Qed.

End DirectMessageFacts.

(** ** The transcoder *)

(** C10.  A byte array that is not empty is returned by
    [base64ToArrayBuffer] applied to its [arrayBufferToBase64]; for the empty
    array [arrayBufferToBase64] throws [Buffer vazio] and gives no text. *)
Theorem base64_buffer_roundtrip (b : bytes) :
  (b <> [] ->
   exists text,
     arrayBufferToBase64 b = Ok text /\ base64ToArrayBuffer text = Ok b)
  /\ arrayBufferToBase64 [] = Throw (Error "Buffer vazio").
Proof.
  split; [|reflexivity].
  intros Hb. exists (base64_text b). split.
  - now apply arrayBufferToBase64_text.
  - now apply base64ToArrayBuffer_text.
Qed.

(* ================================================================== *)
(** * The chat page: receiving and reading direct messages *)
(* ================================================================== *)

Lemma jsstring_eqb_eq (a b : jsstring) : jsstring_eqb a b = true <-> a = b.
Proof.
  revert b. induction a as [|x a IH]; intros [|y b]; cbn [jsstring_eqb];
    try (split; [discriminate|discriminate]); [split; reflexivity|].
  rewrite andb_true_iff, N.eqb_eq, IH. split.
  - now intros [-> ->].
  - intros [= -> ->]. now split.
Qed.

Lemma jsstring_eqb_refl (a : jsstring) : jsstring_eqb a a = true.
Proof. now apply jsstring_eqb_eq. Qed.

Lemma strict_equal_eq (a b : option jsstring) : strict_equal a b = true <-> a = b.
Proof.
  destruct a as [x|], b as [y|]; cbn [strict_equal];
    try (split; [discriminate|discriminate]); [|split; reflexivity].
  rewrite jsstring_eqb_eq. split; [now intros ->|now intros [= ->]].
Qed.

Lemma strict_equal_refl (a : option jsstring) : strict_equal a a = true.
Proof. now apply strict_equal_eq. Qed.


Lemma existsb_snoc {A : Type} (f : A -> bool) (l : list A) (a : A) :
  existsb f (l ++ [a]) = existsb f l || f a.
Proof. rewrite existsb_app. cbn [existsb]. now rewrite orb_false_r. Qed.

Section ChatPageFacts.

Context {P : Platform} {L : PlatformLaws P}.

(** The holder of the private key [r] opens what was sealed for the public
    key of [r] with the ephemeral key [d]. *)
Lemma open_envelope_sealed (d r : N) (nonce12 : bytes) (message : jsstring) :
  nonce12 <> [] ->
  open_envelope (Some r) (base64_text (export_raw (public_of d)))
    (sealed_text message d (public_of r) nonce12) (base64_text nonce12)
  = Ok (TextDecoder_decode (TextEncoder_encode message)).
Proof.
  intros Hn. unfold open_envelope.
  rewrite base64ToArrayBuffer_text by apply export_raw_nonempty. cbn [bind].
  rewrite importPublicKey_export.
  cbn [bind computeSharedSecret_session computeSharedSecret deriveAESKey
       try_catch].
  unfold sealed_text, exchange_key.
  rewrite decryptMessage_text by (apply gcm_nonempty || exact Hn).
  rewrite (ecdh_agree r d). now rewrite gcm_roundtrip.
Qed.

(** An emitted message comes out of the [try] block. *)
Lemma sendMessage_emitted_try (checked : bool) (messageInput : jsstring)
  (selectedChat : option jsstring) (socket : bool) (userId : jsstring)
  (response : Response) (myPublicKeyRaw : option bytes) (rng rng' : Rng)
  (message : MessageSend) :
  sendMessage checked messageInput selectedChat socket userId response
    myPublicKeyRaw rng = (Emitted message, rng') ->
  exists receiver,
    selectedChat = Some receiver
    /\ sendMessage_try checked messageInput userId receiver response
         myPublicKeyRaw rng = (Ok message, rng').
Proof.
  unfold sendMessage. destruct selectedChat as [receiver|]; [|discriminate].
  destruct (negb (truthy (trim messageInput)) || negb socket); [discriminate|].
  destruct (sendMessage_try checked messageInput userId receiver response
              myPublicKeyRaw rng) as [[e|m] r] eqn:Htry; [discriminate|].
  intros H. injection H as <- <-. now exists receiver.
Qed.

(** The two envelopes of an emitted message, when the directory answered
    with the public key of [receiver] and the session holds the public key
    of [me]. *)
Lemma sendMessage_sealed (checked : bool) (messageInput : jsstring)
  (selectedChat : option jsstring) (socket : bool) (userId : jsstring)
  (response : Response) (myPublicKeyRaw : option bytes) (rng rng' : Rng)
  (message : MessageSend) :
  sendMessage checked messageInput selectedChat socket userId response
    myPublicKeyRaw rng = (Emitted message, rng') ->
  exists (receiverKey : jsstring) (receiverRaw myRaw : bytes)
         (theirs mine : point) (d1 d2 : N) (nonce1 nonce2 : bytes),
    response_json response = Some {| receiver_publicKey := Some receiverKey |}
    /\ base64ToArrayBuffer receiverKey = Ok receiverRaw
    /\ import_raw receiverRaw = Some theirs
    /\ myPublicKeyRaw = Some myRaw
    /\ import_raw myRaw = Some mine
    /\ nonce1 <> [] /\ nonce2 <> []
    /\ selectedChat = Some (receiverId message)
    /\ message
       = {| senderId := userId;
            receiverId := receiverId message;
            msg_encryptedData := sealed_text messageInput d1 theirs nonce1;
            msg_nonce := base64_text nonce1;
            senderEphemPk := base64_text (export_raw (public_of d1));
            senderEncryptedData := sealed_text messageInput d2 mine nonce2;
            senderNonce := base64_text nonce2;
            senderEphemPkForSelf := base64_text (export_raw (public_of d2)) |}.
Proof.
  intros H. apply sendMessage_emitted_try in H.
  destruct H as (receiver & -> & H).
  apply sendMessage_try_emitted in H.
  destruct H as (rk & rraw & myRaw & theirs & mine & H1 & H2 & H3 & H4 & H5
                 & Hm & _).
  cbv zeta in Hm.
  exists rk, rraw, myRaw, theirs, mine.
  eexists. eexists. eexists. eexists.
  repeat (split; [eassumption|]).
  rewrite Hm. cbn [receiverId].
  split; [apply random_values_nonempty|].
  split; [apply random_values_nonempty|].
  split; reflexivity.
Qed.

(** What the directory holds for [receiver] is the text of its public
    key. *)
Lemma directory_key (receiverKey : jsstring) (receiverRaw : bytes)
  (theirs : point) (receiver : N) :
  receiverKey = base64_text (export_raw (public_of receiver)) ->
  base64ToArrayBuffer receiverKey = Ok receiverRaw ->
  import_raw receiverRaw = Some theirs ->
  theirs = public_of receiver.
Proof.
  intros -> H1 H2.
  rewrite base64ToArrayBuffer_text in H1 by apply export_raw_nonempty.
  injection H1 as <-. rewrite raw_roundtrip in H2. now injection H2.
Qed.

(** The loop of [loadConversation] makes one entry for each message. *)
Lemma loadConversation_map (userId : jsstring) (privateKey : option N)
  (data : list EncryptedMessage) :
  loadConversation userId privateKey (Ok data)
  = map (loadConversation_entry userId privateKey) data.
Proof.
  unfold loadConversation.
  enough (H : forall acc,
             fold_left
               (fun decryptedMessages msg =>
                  decryptedMessages
                  ++ [loadConversation_entry userId privateKey msg]) data acc
             = acc ++ map (loadConversation_entry userId privateKey) data)
    by apply (H []).
  induction data as [|msg data IH]; intros acc; cbn [fold_left map].
  - now rewrite app_nil_r.
  - rewrite IH, <- app_assoc. reflexivity.
Qed.

(** X1.  A direct message that [sendMessage] emitted for a receiver whose
    registered public key the directory returned is shown to that receiver
    with its text: the listener of the receiver's page, holding the
    receiver's private key, appends one message with the identifier and the
    date the server gave, the sender, the text that was typed and
    [decrypted = true].  (The text is well-formed UTF-16 without a leading
    U+FEFF, and the identifier is not shown yet.) *)
Theorem direct_message_delivered (withGroups checked : bool)
  (messageInput : jsstring) (selectedChat : option jsstring) (socket : bool)
  (userId : jsstring) (response : Response) (myPublicKeyRaw : option bytes)
  (rng rng' : Rng) (message : MessageSend) (receiver : N)
  (id : option jsstring) (createdAt now : Date) (state : ChatState) :
  sendMessage checked messageInput selectedChat socket userId response
    myPublicKeyRaw rng = (Emitted message, rng') ->
  response_json response
  = Some {| receiver_publicKey :=
              Some (base64_text (export_raw (public_of receiver))) |} ->
  well_formed messageInput = true ->
  starts_with_bom messageInput = false ->
  existsb (fun m => strict_equal (shown_id m) id) (messages state) = false ->
  messages (message_listener withGroups (receiverId message) (Some receiver)
              (delivered id createdAt message) now state)
  = messages state
    ++ [{| shown_id := id;
           shown_senderId := Some userId;
           shown_text := messageInput;
           shown_createdAt := createdAt;
           shown_decrypted := true |}].
Proof.
  intros Hsend Hdir Hwf Hbom Hnew.
  apply sendMessage_sealed in Hsend.
  destruct Hsend as (rk & rraw & myRaw & theirs & mine & d1 & d2 & n1 & n2
                     & H1 & H2 & H3 & _ & _ & Hn1 & _ & _ & Hm).
  rewrite Hdir in H1. injection H1 as H1. symmetry in H1.
  pose proof (directory_key _ _ _ _ H1 H2 H3) as ->.
  unfold message_listener, delivered. cbn [em_receiverId em_groupId].
  rewrite strict_equal_refl. cbn [truthy_value negb andb].
  rewrite orb_true_r.
  unfold decryptAndAddMessage, decryptAndAddMessage_text.
  cbn [em_senderEphemPk em_encryptedData em_nonce em_id em_senderId
       em_createdAt].
  rewrite Hm at 1 2 3.
  cbn [senderEphemPk msg_encryptedData msg_nonce].
  rewrite (open_envelope_sealed d1 receiver n1 messageInput Hn1).
  rewrite (text_roundtrip _ Hwf Hbom).
  cbn [messages shown_id]. rewrite Hnew.
  rewrite Hm. reflexivity.
Qed.

(** X2.  A message that decrypts is shown once: delivering it a second
    time changes nothing in the list, and identifiers that were pairwise
    distinct stay so. *)
Theorem delivered_twice_shown_once (withGroups : bool) (privateKey : option N)
  (encryptedMessage : EncryptedMessage) (now now' : Date) (state : ChatState)
  (decryptedText : jsstring) :
  decryptAndAddMessage_text withGroups privateKey encryptedMessage
  = Ok decryptedText ->
  let once :=
    decryptAndAddMessage withGroups privateKey encryptedMessage now state in
  messages
    (decryptAndAddMessage withGroups privateKey encryptedMessage now' once)
  = messages once
  /\ (NoDup (map shown_id (messages state)) ->
      NoDup (map shown_id (messages once))).
Proof.
  intros Htext once. subst once. unfold decryptAndAddMessage.
  rewrite Htext. cbn [messages shown_id]. split.
  - destruct (existsb _ (messages state)) eqn:E.
    + now rewrite E.
    + rewrite existsb_snoc, E. cbn [shown_id orb].
      now rewrite strict_equal_refl.
  - intros Hnd. destruct (existsb _ (messages state)) eqn:E; [exact Hnd|].
    rewrite map_app. cbn [map shown_id].
    apply NoDup_app; [exact Hnd|constructor; [intros []|constructor]|].
    intros x Hx [<-|[]]. apply in_map_iff in Hx.
    destruct Hx as (m & Hm & Hin).
    assert (Hex : existsb
                    (fun m => strict_equal (shown_id m)
                                (em_id encryptedMessage)) (messages state)
                  = true).
    { apply existsb_exists. exists m. split; [exact Hin|].
      apply strict_equal_eq. exact Hm. }
    rewrite Hex in E. discriminate.
Qed.

(** X3.  Whatever arrives, [decryptAndAddMessage] only appends: the
    messages shown before stay, in their order, and at most one entry is
    added.  The entry added is either the decrypted message or the
    placeholder with [decrypted = false]; without a private key in the
    session it is always the placeholder, and the list of chats is then
    left as it was.  The chats keep their users, names and order in every
    case. *)
Theorem receive_only_appends (withGroups : bool) (privateKey : option N)
  (encryptedMessage : EncryptedMessage) (now : Date) (state : ChatState) :
  let after :=
    decryptAndAddMessage withGroups privateKey encryptedMessage now state in
  (messages after = messages state
   \/ exists entry,
        messages after = messages state ++ [entry]
        /\ shown_senderId entry = em_senderId encryptedMessage
        /\ (shown_decrypted entry = true
            /\ decryptAndAddMessage_text withGroups privateKey encryptedMessage
               = Ok (shown_text entry)
            \/ shown_decrypted entry = false
               /\ shown_text entry = placeholder withGroups))
  /\ (let without :=
        decryptAndAddMessage withGroups None encryptedMessage now state in
      exists entry,
        messages without = messages state ++ [entry]
        /\ shown_decrypted entry = false
        /\ shown_text entry = placeholder withGroups
        /\ chats without = chats state)
  /\ map chat_userId (chats after) = map chat_userId (chats state)
  /\ map chat_name (chats after) = map chat_name (chats state).
Proof.
  intros after. subst after. unfold decryptAndAddMessage. split; [|split].
  - destruct (decryptAndAddMessage_text withGroups privateKey encryptedMessage)
      as [e|decryptedText] eqn:E; cbn [messages].
    + right. eexists. split; [reflexivity|]. split; [reflexivity|].
      right. now split.
    + destruct (existsb _ (messages state)); [now left|].
      right. eexists. split; [reflexivity|]. split; [reflexivity|].
      left. now split.
  - cbn [decryptAndAddMessage_text messages chats].
    eexists. split; [reflexivity|]. now repeat split.
  - destruct (decryptAndAddMessage_text withGroups privateKey encryptedMessage)
      as [e|decryptedText]; cbn [chats]; [now split|].
    rewrite !map_map. split; apply map_ext; intros chat;
      now destruct (strict_equal _ _).
Qed.

(** X4.  [loadConversation] makes one entry for each stored message, in the
    order of the server, with the identifier, the sender and the date of
    the message, whether it decrypts or not: an entry that is not decrypted
    shows [[Erro ao descriptografar]].  The entries of a conversation are
    those of its parts, so that a message that fails changes nothing for
    the others. *)
Theorem history_keeps_every_message (userId : jsstring)
  (privateKey : option N) (data more : list EncryptedMessage) :
  let shown := loadConversation userId privateKey (Ok data) in
  map shown_id shown = map em_id data
  /\ map shown_senderId shown = map em_senderId data
  /\ map shown_createdAt shown = map em_createdAt data
  /\ Forall (fun m => shown_decrypted m = true
                      \/ shown_text m = lit "[Erro ao descriptografar]") shown
  /\ loadConversation userId privateKey (Ok (data ++ more))
     = shown ++ loadConversation userId privateKey (Ok more).
Proof.
  intros shown. subst shown. rewrite !loadConversation_map, !map_map.
  assert (E : forall msg,
             shown_id (loadConversation_entry userId privateKey msg)
             = em_id msg
             /\ shown_senderId (loadConversation_entry userId privateKey msg)
                = em_senderId msg
             /\ shown_createdAt (loadConversation_entry userId privateKey msg)
                = em_createdAt msg
             /\ (shown_decrypted (loadConversation_entry userId privateKey msg)
                 = true
                 \/ shown_text (loadConversation_entry userId privateKey msg)
                    = lit "[Erro ao descriptografar]")).
  { intros msg. unfold loadConversation_entry.
    destruct (loadConversation_text userId privateKey msg);
      cbn [shown_id shown_senderId shown_createdAt shown_decrypted shown_text];
      repeat split; (now left) || (now right). }
  repeat split.
  - apply map_ext. intros msg. apply E.
  - apply map_ext. intros msg. apply E.
  - apply map_ext. intros msg. apply E.
  - apply Forall_forall. intros m Hm. apply in_map_iff in Hm.
    destruct Hm as (msg & <- & _). apply E.
  - apply map_app.
Qed.



End ChatPageFacts.

(* ================================================================== *)
(** * The session *)
(* ================================================================== *)

Lemma rtry_catch_rethrow {S A : Type} (body : rand S A) (s : S) :
  rtry_catch body (fun error => lift (Throw error)) s = body s.
Proof.
  unfold rtry_catch, lift. destruct (body s) as [[e|a] s']; reflexivity.
Qed.

Lemma try_catch_rethrow {A : Type} (body : result A) :
  try_catch body (fun error => Throw error) = body.
Proof. now destruct body. Qed.

Lemma Ok_inj {A : Type} (a b : A) : Ok a = Ok b -> a = b.
Proof. now intros [= ->]. Qed.

Lemma truthy_nonempty (s : jsstring) : s <> [] -> truthy s = true.
Proof. now destruct s. Qed.

Lemma truthy_base64_text (b : bytes) : b <> [] -> truthy (base64_text b) = true.
Proof. intros Hb. now apply truthy_nonempty, base64_text_nonempty. Qed.

Section AuthFacts.

Context {P : Platform} {L : PlatformLaws P}.
Context {J : UserJSON} {LJ : UserJSONLaws P J}.

(** A key comes back from its protected record under the password. *)
Lemma decryptPrivateKey_sealed (d : N) (password : jsstring)
  (salt16 iv12 : bytes) :
  salt16 <> [] -> iv12 <> [] ->
  decryptPrivateKey
    (base64_text (aes_gcm_encrypt (password_key password salt16) iv12
                    (serialized_key d)))
    (base64_text salt16) (base64_text iv12) password
  = Ok d.
Proof.
  intros Hs Hi. unfold decryptPrivateKey.
  rewrite base64ToArrayBuffer_text by apply gcm_nonempty.
  rewrite !base64ToArrayBuffer_text by assumption.
  cbn [bind]. rewrite deriveKeyFromPassword_spec. cbn [bind].
  rewrite subtle_decrypt_encrypt. cbn [bind].
  unfold serialized_key. rewrite ascii_roundtrip by apply json_ascii.
  rewrite json_roundtrip. cbn [bind]. now rewrite jwk_roundtrip.
Qed.

(** The key pair and the body [register] sends. *)
Lemma register_request_spec (name email phone password : jsstring) (rng : Rng) :
  let d := fst (random_scalar rng) in
  let rng1 := snd (random_scalar rng) in
  let salt16 := fst (getRandomValues 16 rng1) in
  let rng2 := snd (getRandomValues 16 rng1) in
  let iv12 := fst (getRandomValues 12 rng2) in
  register_request name email phone password rng
  = (Ok ({| privateKey := d; publicKey := public_of d;
            publicKeyRaw := export_raw (public_of d) |},
         {| body_name := name;
            body_email := email;
            body_phone := phone;
            body_password := password;
            body_publicKey := base64_text (export_raw (public_of d));
            body_encryptedPrivateKey :=
              base64_text (aes_gcm_encrypt (password_key password salt16) iv12
                             (serialized_key d));
            body_salt := base64_text salt16;
            body_iv := base64_text iv12 |}),
     snd (getRandomValues 12 rng2)).
Proof.
  intros d rng1 salt16 rng2 iv12. subst d rng1 salt16 rng2 iv12.
  unfold register_request. unfold rbind at 1. rewrite generateKeyPair_spec.
  cbn [publicKeyRaw privateKey]. unfold rbind at 1, lift at 1.
  rewrite arrayBufferToBase64_text by apply export_raw_nonempty.
  unfold rbind, rret. rewrite encryptPrivateKey_spec. reflexivity.
Qed.

(** [register] always gets as far as the request, with a valid pair. *)
Lemma registration_request_facts (name email phone password : jsstring)
  (rng : Rng) :
  exists keys body rng',
    register_request name email phone password rng = (Ok (keys, body), rng')
    /\ valid_pair keys.
Proof.
  eexists. eexists. eexists. split; [apply register_request_spec|].
  split; reflexivity.
Qed.

(** X7.  The request [register] sends to the server carries the password
    itself beside the private key encrypted under it: [decryptPrivateKey]
    applied to the fields of the body alone gives the private key that was
    just generated for the user.  The rest of [register] depends on the
    server's answer to that body only. *)
Theorem registration_request_opens_key (name email phone password : jsstring)
  (server : RegisterBody -> Answer UserData) (storage : LocalStorage)
  (rng : Rng) :
  exists keys body rng',
    register_request name email phone password rng = (Ok (keys, body), rng')
    /\ register name email phone password server storage rng
       = (register_answer keys (server body) storage, rng')
    /\ body_password body = password
    /\ decryptPrivateKey (body_encryptedPrivateKey body) (body_salt body)
         (body_iv body) (body_password body)
       = Ok (privateKey keys)
    /\ valid_pair keys.
Proof.
  eexists. eexists. eexists. split; [apply register_request_spec|].
  split; [|split; [reflexivity|split]].
  - unfold register. rewrite rtry_catch_rethrow. unfold rbind, lift.
    rewrite register_request_spec. reflexivity.
  - cbn [body_encryptedPrivateKey body_salt body_iv body_password privateKey].
    apply decryptPrivateKey_sealed.
    + apply (random_values_nonempty 15).
    + apply (random_values_nonempty 11).
  - split; reflexivity.
Qed.

(** X8.  A user who registered signs in again with the same password and
    holds the same keys: when the server kept the public key and the
    protected private key [register] sent, [login] with the password of the
    registration opens a session with the private key, the public key and
    the raw public key [register] had generated. *)
Theorem login_after_register (name email phone password : jsstring)
  (rng rng' : Rng) (keys : KeyPair) (body : RegisterBody) (data : UserData)
  (storage : LocalStorage) :
  register_request name email phone password rng = (Ok (keys, body), rng') ->
  kept data body ->
  login email password (Accepted data) storage
  = Ok (open_session data (privateKey keys) (publicKey keys)
          (publicKeyRaw keys) storage).
Proof.
  rewrite register_request_spec. intros [= <- <- _] (Hp & He & Hs & Hi).
  cbn [body_publicKey body_encryptedPrivateKey body_salt body_iv] in *.
  unfold login. rewrite try_catch_rethrow, Hp, He, Hs, Hi.
  rewrite !truthy_base64_text
    by (apply gcm_nonempty || apply (random_values_nonempty 15)
        || apply (random_values_nonempty 11)).
  cbn [negb orb].
  rewrite decryptPrivateKey_sealed
    by (apply (random_values_nonempty 15) || apply (random_values_nonempty 11)).
  cbn [bind].
  rewrite base64ToArrayBuffer_text by apply export_raw_nonempty. cbn [bind].
  rewrite importPublicKey_export. reflexivity.
Qed.

(** A session [login] opened is read back from the storage it wrote. *)
Lemma restore_open_session (data : UserData) (privKey : N) (pubKey : point)
  (pubKeyRaw : bytes) (storage : LocalStorage) :
  base64ToArrayBuffer (user_publicKey data) = Ok pubKeyRaw ->
  importPublicKey pubKeyRaw = Ok pubKey ->
  restore_session (snd (open_session data privKey pubKey pubKeyRaw storage))
  = open_session data privKey pubKey pubKeyRaw storage.
Proof.
  intros Hraw Hkey. unfold open_session, restore_session.
  cbn [snd stored_user stored_privateKeyJWK].
  pose proof (user_json_nonempty data) as Hu.
  pose proof (key_json_nonempty privKey) as Hk.
  destruct (JSON_stringify_user data) as [|c u] eqn:Eu; [contradiction|].
  destruct (JSON_stringify (exportKey_jwk privKey)) as [|c' k] eqn:Ek;
    [contradiction|].
  rewrite <- Eu, <- Ek, user_json_roundtrip, json_roundtrip. cbn [bind].
  rewrite jwk_roundtrip. cbn [bind]. rewrite Hraw. cbn [bind].
  rewrite Hkey. reflexivity.
Qed.

(** X9.  A session opened by [login] survives a reload of the page: the
    effect that runs when the provider mounts reads from [localStorage] the
    user, the private key and the public key [login] left in the state, and
    leaves the storage as it is.  The private key is read from its JSON
    text, without the password. *)
Theorem login_survives_reload (email password : jsstring)
  (answer : Answer UserData) (storage storage' : LocalStorage)
  (session : Session) :
  login email password answer storage = Ok (session, storage') ->
  restore_session storage' = (session, storage')
  /\ exists privKey text,
       session_privateKey session = Some privKey
       /\ stored_privateKeyJWK storage' = Some text
       /\ (jwk <- JSON_parse text ;; importKey_jwk jwk) = Ok privKey.
Proof.
  unfold login. rewrite try_catch_rethrow.
  destruct answer as [e|m|data]; try discriminate.
  destruct (negb (truthy (user_encryptedPrivateKey data))
            || negb (truthy (user_salt data))
            || negb (truthy (user_iv data))); [discriminate|].
  destruct (decryptPrivateKey _ _ _ _) as [e|privKey]; [discriminate|].
  cbn [bind].
  destruct (base64ToArrayBuffer (user_publicKey data)) as [e|pubKeyRaw] eqn:Hraw;
    [discriminate|].
  cbn [bind].
  destruct (importPublicKey pubKeyRaw) as [e|pubKey] eqn:Hkey; [discriminate|].
  cbn [bind]. intros H.
  pose proof (restore_open_session data privKey pubKey pubKeyRaw storage
                Hraw Hkey) as R.
  apply Ok_inj in H. rewrite H in R. cbn [snd] in R. split; [exact R|].
  unfold open_session in H. injection H as <- <-. exists privKey. eexists.
  split; [reflexivity|]. split; [reflexivity|].
  rewrite json_roundtrip. cbn [bind]. apply jwk_roundtrip.
Qed.

(** X10.  [register] stores the answer of the server as the user.  When
    that answer does not carry the public key, the session [register]
    opened does not survive a reload: the effect that runs when the
    provider mounts fails to read the public key, signs the user out and
    removes the user and the private key from [localStorage]. *)
Theorem register_without_public_key_lost (name email phone password : jsstring)
  (server : RegisterBody -> Answer UserData) (storage storage' : LocalStorage)
  (rng rng' : Rng) (session : Session) :
  register name email phone password server storage rng
  = (Ok (session, storage'), rng') ->
  (forall body, exists data,
      server body = Accepted data /\ user_publicKey data = []) ->
  signed_in session
  /\ restore_session storage' = (no_session, remove_session_items storage').
Proof.
  intros Hreg Hserver.
  destruct (registration_request_facts name email phone password rng)
    as (keys & body & rng1 & Hrequest & Hvalid).
  revert Hreg. unfold register. rewrite rtry_catch_rethrow.
  unfold rbind, lift. rewrite Hrequest. cbn [fst snd].
  destruct (Hserver body) as (data & -> & Hkey).
  cbn [register_answer]. intros [= <- <- _]. split.
  - exists data, (privateKey keys), (publicKey keys), (publicKeyRaw keys).
    split; [reflexivity|].
    destruct Hvalid as [_ ->]. apply raw_roundtrip.
  - unfold restore_session. cbn [stored_user stored_privateKeyJWK].
    pose proof (user_json_nonempty data) as Hu.
    pose proof (key_json_nonempty (privateKey keys)) as Hk.
    destruct (JSON_stringify_user data) as [|c u] eqn:Eu; [contradiction|].
    destruct (JSON_stringify (exportKey_jwk (privateKey keys)))
      as [|c' k] eqn:Ek; [contradiction|].
    rewrite <- Eu, <- Ek, user_json_roundtrip, json_roundtrip. cbn [bind].
    rewrite jwk_roundtrip. cbn [bind]. rewrite Hkey. reflexivity.
Qed.

Lemma importPublicKey_ok (raw : bytes) (Q : point) :
  importPublicKey raw = Ok Q -> import_raw raw = Some Q.
Proof.
  unfold importPublicKey, subtle_importKey_raw.
  destruct (import_raw raw); cbn [try_catch]; [now intros [= ->]|discriminate].
Qed.

Lemma open_session_kept (data : UserData) (privKey : N) (pubKey : point)
  (pubKeyRaw : bytes) (storage : LocalStorage) :
  import_raw pubKeyRaw = Some pubKey ->
  session_kept (stored_groupKeys storage)
    (open_session data privKey pubKey pubKeyRaw storage).
Proof.
  intros H. split; [right|reflexivity].
  exists data, privKey, pubKey, pubKeyRaw. now split.
Qed.

Lemma restore_session_kept (storage : LocalStorage) :
  session_kept (stored_groupKeys storage) (restore_session storage).
Proof.
  unfold restore_session.
  destruct (stored_user storage) as [[|c u]|];
    try (split; [now left|reflexivity]).
  destruct (stored_privateKeyJWK storage) as [[|c' k]|];
    try (split; [now left|reflexivity]).
  destruct (JSON_parse_user (c :: u)) as [e|user]; cbn [bind];
    [split; [now left|reflexivity]|].
  destruct (JSON_parse (c' :: k)) as [e|jwk]; cbn [bind];
    [split; [now left|reflexivity]|].
  destruct (importKey_jwk jwk) as [e|privKey]; cbn [bind];
    [split; [now left|reflexivity]|].
  destruct (base64ToArrayBuffer (user_publicKey user)) as [e|pubKeyRaw];
    cbn [bind]; [split; [now left|reflexivity]|].
  destruct (importPublicKey pubKeyRaw) as [e|pubKey] eqn:Hkey; cbn [bind];
    [split; [now left|reflexivity]|].
  split; [right|reflexivity].
  exists user, privKey, pubKey, pubKeyRaw. split; [reflexivity|].
  now apply importPublicKey_ok.
Qed.

Lemma login_kept (email password : jsstring) (answer : Answer UserData)
  (storage : LocalStorage) (state : Session * LocalStorage) :
  login email password answer storage = Ok state ->
  session_kept (stored_groupKeys storage) state.
Proof.
  unfold login. rewrite try_catch_rethrow.
  destruct answer as [e|m|data]; try discriminate.
  destruct (negb (truthy (user_encryptedPrivateKey data))
            || negb (truthy (user_salt data))
            || negb (truthy (user_iv data))); [discriminate|].
  destruct (decryptPrivateKey _ _ _ _) as [e|privKey]; [discriminate|].
  cbn [bind].
  destruct (base64ToArrayBuffer (user_publicKey data)) as [e|pubKeyRaw];
    [discriminate|].
  cbn [bind].
  destruct (importPublicKey pubKeyRaw) as [e|pubKey] eqn:Hkey; [discriminate|].
  cbn [bind]. intros H. apply Ok_inj in H. subst state.
  now apply open_session_kept, importPublicKey_ok.
Qed.

Lemma register_kept (name email phone password : jsstring)
  (server : RegisterBody -> Answer UserData) (storage : LocalStorage)
  (rng rng' : Rng) (state : Session * LocalStorage) :
  register name email phone password server storage rng = (Ok state, rng') ->
  session_kept (stored_groupKeys storage) state.
Proof.
  destruct (registration_request_facts name email phone password rng)
    as (keys & body & rng1 & Hrequest & Hvalid).
  unfold register. rewrite rtry_catch_rethrow.
  unfold rbind, lift. rewrite Hrequest. cbn [fst snd].
  destruct (server body) as [e|m|data]; cbn [register_answer];
    try discriminate.
  intros H. injection H as H _. subst state.
  apply open_session_kept. destruct Hvalid as [_ ->]. apply raw_roundtrip.
Qed.

Lemma auth_action_kept (groupKeys : JSObject) (action : AuthAction)
  (state : Session * LocalStorage) (rng : Rng) :
  session_kept groupKeys state ->
  session_kept groupKeys (fst (auth_action action state rng)).
Proof.
  intros [Hs Hg]. destruct action as [name email phone password server
                                     |email password answer|];
    cbn [auth_action].
  - destruct (register name email phone password server (snd state) rng)
      as [[e|state'] rng'] eqn:E; cbn [fst]; [now split|].
    rewrite <- Hg. exact (register_kept _ _ _ _ _ _ _ _ _ E).
  - destruct (login email password answer (snd state)) as [e|state'] eqn:E;
      cbn [fst]; [now split|].
    rewrite <- Hg. exact (login_kept _ _ _ _ _ E).
  - split; [now left|exact Hg].
Qed.

(** X11.  The four values of the session are set and cleared together:
    from the moment the provider mounts on any [localStorage], after any
    sequence of registrations, sign-ins and sign-outs, failed ones
    included, the session is either empty or holds a user, a private key, a
    public key and the raw public key the public key was imported from.
    None of these actions, [logout] included, changes the group keys kept
    in [localStorage]. *)
Theorem session_set_and_cleared_together (storage : LocalStorage)
  (actions : list AuthAction) (rng : Rng) :
  let state := fst (auth_actions actions (restore_session storage) rng) in
  (fst state = no_session \/ signed_in (fst state))
  /\ stored_groupKeys (snd state) = stored_groupKeys storage.
Proof.
  intros state. subst state.
  change (session_kept (stored_groupKeys storage)
            (fst (auth_actions actions (restore_session storage) rng))).
  pose proof (restore_session_kept storage) as H.
  revert H. generalize (restore_session storage) as state.
  generalize (stored_groupKeys storage) as groupKeys. revert rng.
  induction actions as [|action rest IH]; intros rng groupKeys state H;
    cbn [auth_actions]; [exact H|].
  pose proof (auth_action_kept groupKeys action state rng H) as H'.
  destruct (auth_action action state rng) as [state' rng'].
  now apply IH.
Qed.

End AuthFacts.

(* ================================================================== *)
(** * Groups *)
(* ================================================================== *)

Lemma get_set_property (obj : JSObject) (key value : jsstring) :
  get_property (set_property obj key value) key = Some value.
Proof.
  induction obj as [|[k v] rest IH]; cbn [set_property get_property].
  - now rewrite jsstring_eqb_refl.
  - destruct (jsstring_eqb k key) eqn:E; cbn [get_property]; now rewrite E.
Qed.

Lemma arrayBufferToBase64_ok (b : bytes) (text : jsstring) :
  arrayBufferToBase64 b = Ok text -> b <> [] /\ text = base64_text b.
Proof.
  destruct b as [|x b]; [discriminate|].
  rewrite arrayBufferToBase64_text by discriminate.
  intros [= <-]. now split.
Qed.

Lemma all_results_map {A B : Type} (f : A -> result B) (g : A -> B)
  (l : list A) :
  Forall (fun a => f a = Ok (g a)) l -> all_results f l = Ok (map g l).
Proof.
  induction 1 as [|a l Ha _ IH]; cbn [all_results map]; [reflexivity|].
  rewrite Ha. cbn [bind]. rewrite IH. reflexivity.
Qed.

Lemma all_results_throw {A B : Type} (f : A -> result B) (e : exn)
  (l : list A) :
  Forall (fun a => f a = Throw e \/ exists b, f a = Ok b) l ->
  Exists (fun a => f a = Throw e) l ->
  all_results f l = Throw e.
Proof.
  induction 1 as [|a l Ha _ IH]; intros Hex; [inversion Hex|].
  cbn [all_results].
  destruct Ha as [->|[b Hb]]; [reflexivity|].
  rewrite Hb. cbn [bind].
  inversion Hex as [? ? H|? ? H]; subst; [rewrite Hb in H; discriminate|].
  now rewrite (IH H).
Qed.

Section GroupFacts.

Context {P : Platform} {L : PlatformLaws P}.
Context {G : GroupKeyProvider P}.

(** The member with the private key [m] unwraps what was wrapped for the
    public key of [m] with the ephemeral key [d]. *)
Lemma decryptGroupKey_wrapped (groupKey nonce12 : bytes) (d m : N) :
  groupKey <> [] -> nonce12 <> [] ->
  decryptGroupKey
    (wrapped_text (exchange_key d (public_of m)) nonce12
       (TextEncoder_encode (base64_text groupKey)))
    (base64_text (export_raw (public_of d))) m
  = Ok groupKey.
Proof.
  intros HG Hn. unfold wrapped_text.
  rewrite (decryptGroupKey_present _ _ _ _ _ _ (split_envelope _ _))
    by (apply base64_text_nonempty; (apply gcm_nonempty || exact Hn)).
  unfold decryptGroupKey_halves.
  rewrite base64ToArrayBuffer_text by apply export_raw_nonempty. cbn [bind].
  rewrite importPublicKey_export. cbn [bind computeSharedSecret try_catch].
  cbn [deriveAESKey try_catch bind].
  rewrite base64ToArrayBuffer_text by apply gcm_nonempty.
  rewrite base64ToArrayBuffer_text by exact Hn.
  cbn [bind]. rewrite (ecdh_agree m).
  fold (exchange_key d (public_of m)).
  rewrite subtle_decrypt_encrypt. cbn [bind].
  rewrite ascii_roundtrip by apply base64_text_ascii.
  now rewrite base64ToArrayBuffer_text by exact HG.
Qed.

(** A key wrapped for a member is unwrapped by the member. *)
Lemma wrap_unwrap (groupKey : bytes) (m : N) (rng : Rng) :
  groupKey <> [] ->
  exists wrapped,
    encryptGroupKeyForMember groupKey (export_raw (public_of m)) rng
    = (Ok wrapped, snd (getRandomValues 12 (snd (random_scalar rng))))
    /\ decryptGroupKey (encryptedGroupKey wrapped) (ephemeralPublicKey wrapped)
         m
       = Ok groupKey.
Proof.
  intros HG. eexists. split.
  { apply encryptGroupKeyForMember_spec; [exact HG | apply raw_roundtrip]. }
  cbn [encryptedGroupKey ephemeralPublicKey].
  apply decryptGroupKey_wrapped; [exact HG|apply (random_values_nonempty 11)].
Qed.

Lemma importGroupKey_spec (keyBytes : bytes) (key : AesKey) :
  import_aes_raw keyBytes = Some key -> importGroupKey keyBytes = Ok key.
Proof. intros H. unfold importGroupKey. now rewrite H. Qed.

Lemma importGroupKey_ok (keyBytes : bytes) (key : AesKey) :
  importGroupKey keyBytes = Ok key -> import_aes_raw keyBytes = Some key.
Proof.
  unfold importGroupKey. destruct (import_aes_raw keyBytes);
    cbn [try_catch]; [now intros [= ->]|discriminate].
Qed.




(** A listed message with a sender gets an entry, decrypted or not. *)
Lemma group_entry_total (gKey : AesKey) (msg : GroupEncryptedMessage) :
  gem_sender msg <> None ->
  exists entry, loadGroupKeyAndMessages_entry gKey msg = Ok entry.
Proof.
  intros Hs. unfold loadGroupKeyAndMessages_entry, sender_name.
  destruct (gem_sender msg) as [name|]; [|contradiction].
  destruct (decryptGroupMessage _ _ _); cbn [bind try_catch]; eexists;
    reflexivity.
Qed.

(** A listed message without a sender throws out of the loop. *)
Lemma group_entry_throws (gKey : AesKey) (msg : GroupEncryptedMessage) :
  gem_sender msg = None ->
  loadGroupKeyAndMessages_entry gKey msg
  = Throw (undefined_dereference "name").
Proof.
  intros Hs. unfold loadGroupKeyAndMessages_entry, sender_name. rewrite Hs.
  now destruct (decryptGroupMessage _ _ _).
Qed.



(** X13.  A listed message without the field [sender] stops the loading of
    a group: although the group key was unwrapped and set, the history is
    not shown (the messages stay as they were) and an alert is raised,
    because the [catch] block of the loop reads [msg.sender.name] again. *)
Theorem group_history_needs_senders (group : Group) (privateKey : N)
  (groupKeyRaw : bytes) (key : AesKey) (data : list GroupEncryptedMessage)
  (msg : GroupEncryptedMessage) (groupKey0 : option AesKey)
  (messages0 : list GroupMessage) (storage : LocalStorage) :
  decryptGroupKey (myEncryptedGroupKey group) (myEphemeralPublicKey group)
    privateKey = Ok groupKeyRaw ->
  import_aes_raw groupKeyRaw = Some key ->
  In msg data ->
  gem_sender msg = None ->
  let loaded :=
    GroupChat.loadGroupKeyAndMessages group privateKey (Accepted data)
      groupKey0 messages0 storage in
  load_alert loaded <> None
  /\ load_messages loaded = messages0
  /\ load_groupKey loaded = Some key.
Proof.
  intros Hraw Hkey Hin Hsender loaded. subst loaded.
  unfold GroupChat.loadGroupKeyAndMessages.
  rewrite Hraw, (importGroupKey_spec _ _ Hkey).
  destruct (arrayBufferToBase64 groupKeyRaw) as [e|text];
    [now repeat split|].
  rewrite (all_results_throw _ (undefined_dereference "name")).
  - now repeat split.
  - apply Forall_forall. intros m _.
    destruct (gem_sender m) as [name|] eqn:E.
    + right. apply group_entry_total. now rewrite E.
    + left. now apply group_entry_throws.
  - apply Exists_exists. exists msg. split; [exact Hin|].
    now apply group_entry_throws.
Qed.

(** X14.  The group chat shows a message that arrives only when it
    decrypts: [decryptAndAddMessage] either leaves the messages as they are
    or appends the one decrypted message; it never adds a placeholder, and
    without a group key it adds nothing.  Delivering the same message a
    second time changes nothing. *)
Theorem group_receive_shows_only_decrypted (groupKey : option AesKey)
  (encryptedMessage : GroupEncryptedMessage) (messages : list GroupMessage) :
  let after := GroupChat.decryptAndAddMessage groupKey encryptedMessage messages in
  (after = messages
   \/ exists key entry,
        groupKey = Some key
        /\ after = messages ++ [entry]
        /\ gm_decrypted entry = true
        /\ gm_id entry = gem_id encryptedMessage
        /\ decryptGroupMessage (gem_encryptedData encryptedMessage)
             (gem_nonce encryptedMessage) key
           = Ok (gm_text entry))
  /\ GroupChat.decryptAndAddMessage None encryptedMessage messages = messages
  /\ GroupChat.decryptAndAddMessage groupKey encryptedMessage after = after.
Proof.
  intros after. subst after. unfold GroupChat.decryptAndAddMessage.
  split; [|split; [reflexivity|]].
  - destruct groupKey as [key|]; [|now left].
    destruct (decryptGroupMessage _ _ key) as [e|text] eqn:E; [now left|].
    cbn [gm_id]. destruct (existsb _ messages); [now left|].
    right. exists key. eexists. split; [reflexivity|].
    split; [reflexivity|]. now repeat split.
  - destruct groupKey as [key|]; [|reflexivity].
    destruct (decryptGroupMessage _ _ key) as [e|text] eqn:E;
      [reflexivity|].
    cbn [gm_id]. destruct (existsb _ messages) eqn:Ex.
    + now rewrite Ex.
    + rewrite existsb_snoc, Ex. cbn [gm_id orb].
      now rewrite strict_equal_refl.
Qed.

(** Once the key is unwrapped and imported it is the group key, however
    the rest of the loading goes. *)
Lemma loadGroupKeyAndMessages_key (group : Group) (privateKey : N)
  (answer : Answer (list GroupEncryptedMessage)) (groupKey0 : option AesKey)
  (messages0 : list GroupMessage) (storage : LocalStorage)
  (groupKeyRaw : bytes) (key : AesKey) :
  decryptGroupKey (myEncryptedGroupKey group) (myEphemeralPublicKey group)
    privateKey = Ok groupKeyRaw ->
  importGroupKey groupKeyRaw = Ok key ->
  load_groupKey
    (GroupChat.loadGroupKeyAndMessages group privateKey answer groupKey0
       messages0 storage)
  = Some key.
Proof.
  intros Hraw Hkey. unfold GroupChat.loadGroupKeyAndMessages.
  rewrite Hraw, Hkey.
  destruct (arrayBufferToBase64 groupKeyRaw) as [e|text]; [reflexivity|].
  destruct answer as [e|m|data]; try reflexivity.
  now destruct (all_results _ data).
Qed.

(** A loading without alert has unwrapped, imported and stored the key. *)
Lemma loadGroupKeyAndMessages_done (group : Group) (privateKey : N)
  (answer : Answer (list GroupEncryptedMessage)) (groupKey0 : option AesKey)
  (messages0 : list GroupMessage) (storage : LocalStorage) :
  load_alert
    (GroupChat.loadGroupKeyAndMessages group privateKey answer groupKey0
       messages0 storage)
  = None ->
  exists groupKeyRaw key,
    decryptGroupKey (myEncryptedGroupKey group) (myEphemeralPublicKey group)
      privateKey = Ok groupKeyRaw
    /\ importGroupKey groupKeyRaw = Ok key
    /\ groupKeyRaw <> []
    /\ load_storage
         (GroupChat.loadGroupKeyAndMessages group privateKey answer groupKey0
            messages0 storage)
       = store_group_key storage (group_id group) (base64_text groupKeyRaw).
Proof.
  unfold GroupChat.loadGroupKeyAndMessages.
  destruct (decryptGroupKey (myEncryptedGroupKey group)
              (myEphemeralPublicKey group) privateKey) as [e|groupKeyRaw];
    [discriminate|].
  destruct (importGroupKey groupKeyRaw) as [e|key] eqn:Hkey; [discriminate|].
  destruct (arrayBufferToBase64 groupKeyRaw) as [e|text] eqn:Htext;
    [discriminate|].
  apply arrayBufferToBase64_ok in Htext. destruct Htext as [HG ->].
  intros H. exists groupKeyRaw, key.
  split; [reflexivity|]. split; [exact Hkey|]. split; [exact HG|].
  destruct answer as [e|m|data]; try discriminate.
  now destruct (all_results _ data).
Qed.

(** X15.  A member who is added gets the key of the group.  After
    [loadGroupKeyAndMessages] ran without alert for a member of the group,
    [handleAddMember] run by that member wraps the key it finds in
    [localStorage] for the user the directory returned, and the new member,
    loading the group with the two values of the request and its own
    private key, sets the same group key. *)
Theorem added_member_gets_group_key (group : Group) (privateKey : N)
  (answer answer' : Answer (list GroupEncryptedMessage))
  (groupKey0 groupKey1 : option AesKey)
  (messages0 messages1 : list GroupMessage) (storage storage1 : LocalStorage)
  (userId : jsstring) (newMember : UserData) (member : N) (rng : Rng)
  (version : N) :
  let loaded :=
    GroupChat.loadGroupKeyAndMessages group privateKey answer groupKey0
      messages0 storage in
  load_alert loaded = None ->
  user_publicKey newMember = base64_text (export_raw (public_of member)) ->
  exists body rng',
    GroupChat.handleAddMember_request group userId newMember
      (load_storage loaded) rng = (Ok body, rng')
    /\ add_userId body = user_id newMember
    /\ load_groupKey loaded <> None
    /\ load_groupKey
         (GroupChat.loadGroupKeyAndMessages
            {| group_id := group_id group;
               myEncryptedGroupKey := add_encryptedGroupKey body;
               myEphemeralPublicKey := add_ephemeralPublicKey body;
               myKeyVersion := version |}
            member answer' groupKey1 messages1 storage1)
       = load_groupKey loaded.
Proof.
  intros loaded Hloaded Hmember. subst loaded.
  destruct (loadGroupKeyAndMessages_done _ _ _ _ _ _ Hloaded)
    as (groupKeyRaw & key & Hraw & Hkey & HG & Hstore).
  rewrite Hstore, (loadGroupKeyAndMessages_key _ _ _ _ _ _ _ _ Hraw Hkey).
  destruct (wrap_unwrap groupKeyRaw member rng HG) as (w & Hw & Hunwrap).
  eexists. eexists. split.
  { unfold GroupChat.handleAddMember_request.
    unfold store_group_key. cbn [stored_groupKeys].
    rewrite get_set_property. unfold rbind at 1, lift at 1.
    rewrite base64ToArrayBuffer_text by exact HG.
    unfold rbind at 1, lift at 1. rewrite Hmember.
    rewrite base64ToArrayBuffer_text by apply export_raw_nonempty.
    unfold rbind, rret. rewrite Hw. reflexivity. }
  cbn [add_userId add_encryptedGroupKey add_ephemeralPublicKey].
  split; [reflexivity|]. split; [discriminate|].
  now apply (loadGroupKeyAndMessages_key _ _ _ _ _ _ groupKeyRaw).
Qed.

End GroupFacts.

(* ================================================================== *)
(** * The creation of a group *)
(* ================================================================== *)

Lemma trim_start_head (s : jsstring) :
  match trim_start s with
  | c :: _ => is_js_whitespace c = false
  | [] => True
  end.
Proof.
  induction s as [|c s IH]; cbn [trim_start]; [exact I|].
  destruct (is_js_whitespace c) eqn:E; [exact IH|exact E].
Qed.

Lemma trim_start_fixed (s : jsstring) :
  match s with
  | c :: _ => is_js_whitespace c = false
  | [] => True
  end ->
  trim_start s = s.
Proof. destruct s as [|c s]; [reflexivity|]. cbn [trim_start]. now intros ->. Qed.

Lemma trim_start_suffix (s : jsstring) :
  exists w, s = w ++ trim_start s /\ Forall (fun c => is_js_whitespace c = true) w.
Proof.
  induction s as [|c s (w & IH & Hw)]; cbn [trim_start].
  - exists []. now split.
  - destruct (is_js_whitespace c) eqn:E.
    + exists (c :: w). split; [now rewrite <- app_comm_cons, <- IH|].
      now constructor.
    + exists []. now split.
Qed.

Lemma trim_start_blank (s : jsstring) :
  Forall (fun c => is_js_whitespace c = true) s -> trim_start s = [].
Proof.
  induction 1 as [|c s Hc _ IH]; cbn [trim_start]; [reflexivity|].
  now rewrite Hc.
Qed.

Lemma trim_blank (s : jsstring) :
  Forall (fun c => is_js_whitespace c = true) s -> trim s = [].
Proof. intros H. unfold trim. now rewrite (trim_start_blank s H). Qed.

(** Neither end of a trimmed string is white space. *)
Lemma trim_ends (s : jsstring) :
  match trim s with
  | c :: _ => is_js_whitespace c = false
  | [] => True
  end
  /\ match rev (trim s) with
     | c :: _ => is_js_whitespace c = false
     | [] => True
     end.
Proof.
  unfold trim. rewrite rev_involutive.
  split; [|apply trim_start_head].
  pose proof (trim_start_head s) as Ha.
  destruct (trim_start_suffix (rev (trim_start s))) as (w & Hw & _).
  remember (trim_start (rev (trim_start s))) as u eqn:Hu.
  apply (f_equal (@rev N)) in Hw. rewrite rev_involutive, rev_app_distr in Hw.
  rewrite Hw in Ha. destruct (rev u) as [|c r]; [exact I|exact Ha].
Qed.

Lemma trim_idempotent (s : jsstring) : trim (trim s) = trim s.
Proof.
  destruct (trim_ends s) as [Hhead Hlast].
  unfold trim at 1. rewrite (trim_start_fixed _ Hhead).
  rewrite (trim_start_fixed _ Hlast). apply rev_involutive.
Qed.

Lemma trim_start_incl (s : jsstring) (c : N) : In c (trim_start s) -> In c s.
Proof.
  destruct (trim_start_suffix s) as (w & Hw & _). intros H. rewrite Hw.
  apply in_or_app. now right.
Qed.

Lemma trim_incl (s : jsstring) (c : N) : In c (trim s) -> In c s.
Proof.
  unfold trim. intros H. apply in_rev in H. apply trim_start_incl in H.
  apply in_rev in H. now apply trim_start_incl.
Qed.

Lemma split_pieces (sep : N) (s : jsstring) :
  split sep s <> [] /\ Forall (fun piece => ~ In sep piece) (split sep s).
Proof.
  induction s as [|c s [Hne IH]]; cbn [split].
  - split; [discriminate|]. constructor; [intros []|constructor].
  - destruct (c =? sep) eqn:E.
    + split; [discriminate|]. constructor; [intros []|exact IH].
    + apply N.eqb_neq in E. destruct (split sep s) as [|piece pieces];
        [contradiction|].
      split; [discriminate|]. inversion IH as [|? ? Hp Hps]; subst.
      constructor; [|exact Hps]. intros [H|H]; [now apply E|now apply Hp].
Qed.

(** X17.  The e-mail addresses [handleCreateGroup] looks up are clean:
    each is not empty, has no white space at either end (trimming it again
    changes nothing) and contains no comma; an entry of the field that is
    blank gives no address. *)
Theorem member_emails_clean (memberEmails : jsstring) :
  Forall (fun email =>
            email <> []
            /\ trim email = email
            /\ ~ In comma email
            /\ exists piece,
                 In piece (split comma memberEmails) /\ email = trim piece)
    (member_emails memberEmails).
Proof.
  unfold member_emails. apply Forall_forall. intros email H.
  apply filter_In in H. destruct H as [H Hlen].
  apply in_map_iff in H. destruct H as (piece & <- & Hpiece).
  split; [|split; [apply trim_idempotent|split]].
  - intros E. rewrite E in Hlen. discriminate.
  - intros Hc. apply trim_incl in Hc.
    destruct (split_pieces comma memberEmails) as [_ Hall].
    rewrite Forall_forall in Hall. exact (Hall piece Hpiece Hc).
  - now exists piece.
Qed.

Section CreateGroupFacts.

Context {P : Platform} {L : PlatformLaws P}.
Context {G : GroupKeyProvider P} {LG : GroupKeyLaws P G}.

(** The directory answers for every address with a registered user. *)
Lemma fetch_registered (directory : jsstring -> Answer UserData)
  (emails : list jsstring) (secrets : list N) :
  Forall2 (fun email d =>
             exists data,
               directory email = Accepted data
               /\ user_publicKey data
                  = base64_text (export_raw (public_of d))) emails secrets ->
  exists members,
    all_results (fetch_member directory) emails = Ok members
    /\ Forall2 (fun member d =>
                  snd member = base64_text (export_raw (public_of d)))
         (map (fun m => (user_id m, user_publicKey m)) members) secrets.
Proof.
  induction 1 as [|email d emails secrets (data & Hd & Hk) _
                   (members & IH & IH2)]; cbn [all_results].
  - exists []. split; [reflexivity|constructor].
  - exists (data :: members). unfold fetch_member at 1. rewrite Hd.
    cbn [bind]. rewrite IH. split; [reflexivity|].
    cbn [map]. constructor; [exact Hk|exact IH2].
Qed.

(** A wrapping is unwrapped by the member it is for. *)
Lemma wrap_for_member_unwrap (groupKeyRaw : bytes)
  (member : jsstring * jsstring) (d : N) (rng : Rng) :
  groupKeyRaw <> [] ->
  snd member = base64_text (export_raw (public_of d)) ->
  exists entry,
    wrap_for_member groupKeyRaw member rng
    = (Ok entry, snd (getRandomValues 12 (snd (random_scalar rng))))
    /\ mk_userId entry = fst member
    /\ decryptGroupKey (mk_encryptedGroupKey entry)
         (mk_ephemeralPublicKey entry) d = Ok groupKeyRaw.
Proof.
  intros HG Hm.
  destruct (wrap_unwrap groupKeyRaw d rng HG) as (w & Hw & Hunwrap).
  eexists. split.
  { unfold wrap_for_member. unfold rbind at 1, lift at 1. rewrite Hm.
    rewrite base64ToArrayBuffer_text by apply export_raw_nonempty.
    unfold rbind, rret. rewrite Hw. reflexivity. }
  cbn [mk_userId mk_encryptedGroupKey mk_ephemeralPublicKey].
  split; [reflexivity|exact Hunwrap].
Qed.

(** Every wrapping is unwrapped by the member it is for. *)
Lemma wrap_for_members (groupKeyRaw : bytes)
  (members : list (jsstring * jsstring)) (secrets : list N) (rng : Rng) :
  groupKeyRaw <> [] ->
  Forall2 (fun member d =>
             snd member = base64_text (export_raw (public_of d)))
    members secrets ->
  exists memberKeys rng',
    all_rand (wrap_for_member groupKeyRaw) members rng = (Ok memberKeys, rng')
    /\ map mk_userId memberKeys = map fst members
    /\ Forall2 (fun entry d =>
                  decryptGroupKey (mk_encryptedGroupKey entry)
                    (mk_ephemeralPublicKey entry) d = Ok groupKeyRaw)
         memberKeys secrets.
Proof.
  intros HG H. revert rng.
  induction H as [|member d members secrets Hm _ IH]; intros rng;
    cbn [all_rand].
  - exists [], rng. split; [reflexivity|]. split; [reflexivity|constructor].
  - destruct (wrap_for_member_unwrap groupKeyRaw member d rng HG Hm)
      as (entry & Hentry & Hid & Hunwrap).
    destruct (IH (snd (getRandomValues 12 (snd (random_scalar rng)))))
      as (memberKeys & rng' & Hall & Hids & Hkeys).
    exists (entry :: memberKeys), rng'. split.
    { unfold rbind, rret. rewrite Hentry, Hall. reflexivity. }
    cbn [map]. split; [now rewrite Hid, Hids|].
    constructor; [exact Hunwrap|exact Hkeys].
Qed.

(** X16.  Every member of a group that is created can unwrap its key, the
    creator first.  When the name is not blank and the directory holds a
    registered public key for every address, the request
    [handleCreateGroup] sends lists one wrapped key for the creator and one
    for each address, in that order, and each member unwraps from its entry,
    with its own private key, the raw key that was generated for the group:
    all of them import the same AES key. *)
Theorem created_group_key_reaches_every_member
  (groupName description memberEmails : jsstring)
  (directory : jsstring -> Answer UserData) (userId : jsstring) (me : N)
  (secrets : list N) (rng : Rng) :
  truthy (trim groupName) = true ->
  Forall2 (fun email d =>
             exists data,
               directory email = Accepted data
               /\ user_publicKey data
                  = base64_text (export_raw (public_of d)))
    (member_emails memberEmails) secrets ->
  exists groupKeyRaw body rng',
    handleCreateGroup_request groupName description memberEmails directory
      userId (Some (export_raw (public_of me))) rng
    = (Ok (groupKeyRaw, body), rng')
    /\ importGroupKey groupKeyRaw = Ok (fst (generate_aes rng))
    /\ cg_creatorId body = userId
    /\ option_map mk_userId (hd_error (cg_members body)) = Some userId
    /\ Forall2 (fun entry d =>
                  decryptGroupKey (mk_encryptedGroupKey entry)
                    (mk_ephemeralPublicKey entry) d = Ok groupKeyRaw)
         (cg_members body) (me :: secrets).
Proof.
  intros Hname Hdir.
  destruct (fetch_registered _ _ _ Hdir) as (members & Hfetch & Hmembers).
  pose proof (aes_raw_nonempty rng) as HG.
  pose proof (aes_raw_roundtrip rng) as Hround.
  destruct (wrap_for_members (export_aes_raw (fst (generate_aes rng)))
              ((userId, base64_text (export_raw (public_of me)))
               :: map (fun m => (user_id m, user_publicKey m)) members)
              (me :: secrets) (snd (generate_aes rng)) HG)
    as (memberKeys & rng' & Hall & Hids & Hkeys).
  { constructor; [reflexivity|exact Hmembers]. }
  exists (export_aes_raw (fst (generate_aes rng))). eexists. exists rng'.
  split.
  { unfold handleCreateGroup_request. rewrite Hname. cbn [negb].
    unfold rbind at 1, lift at 1. rewrite Hfetch.
    unfold rbind at 1, lift at 1.
    rewrite arrayBufferToBase64_text by apply export_raw_nonempty.
    unfold rbind at 1. unfold generateGroupKey. rewrite rtry_catch_rethrow.
    destruct (generate_aes rng) as [key rng1]. cbn [fst snd] in *.
    unfold rbind at 1, lift at 1. unfold exportGroupKey. cbn [try_catch].
    unfold rbind, rret. rewrite Hall. reflexivity. }
  cbn [cg_creatorId cg_members].
  split; [now apply importGroupKey_spec|]. split; [reflexivity|].
  split; [|exact Hkeys].
  destruct memberKeys as [|first others]; [discriminate|].
  cbn [map] in Hids. injection Hids as Hid _. cbn [hd_error option_map].
  now rewrite Hid.
Qed.

End CreateGroupFacts.

(* ================================================================== *)
(** * The transcoder and the envelopes, further *)
(* ================================================================== *)

Lemma btoa_groups_length (s : list N) :
  List.length (btoa_groups s) = (4 * ((List.length s + 2) / 3))%nat.
Proof.
  induction s as [| a | a b | a b c l IH] using list_ind3;
    try reflexivity.
  cbn [btoa_groups List.length]. rewrite IH.
  replace (S (S (S (List.length l))) + 2)%nat
    with (1 * 3 + (List.length l + 2))%nat by lia.
  rewrite Nat.div_add_l by discriminate. lia.
Qed.

Lemma btoa_groups_alphabet (s : list N) :
  Forall (fun c => c < 256) s ->
  Forall (fun c => b64_index c <> None \/ c = pad_char) (btoa_groups s).
Proof.
  intros Hs. rewrite btoa_groups_shape. apply Forall_app. split.
  - apply Forall_forall. intros c Hc. apply in_map_iff in Hc.
    destruct Hc as (i & <- & Hi). left.
    pose proof (enc_sextets_small s Hs) as Hsmall.
    rewrite Forall_forall in Hsmall.
    rewrite (b64_index_char i (Hsmall i Hi)). discriminate.
  - destruct (enc_padding_cases s) as [-> | [-> | ->]];
      repeat constructor; now right.
Qed.

(** X18.  The text [arrayBufferToBase64] returns has four characters for
    every three bytes, the last group filled up: [4 * ceil(n / 3)]
    characters for [n] bytes, each a character of the base64 alphabet or
    the padding character. *)
Theorem base64_text_shape (buffer : bytes) (text : jsstring) :
  arrayBufferToBase64 buffer = Ok text ->
  List.length text = (4 * ((List.length buffer + 2) / 3))%nat
  /\ Forall (fun c => b64_index c <> None \/ c = pad_char) text.
Proof.
  intros H. apply arrayBufferToBase64_ok in H. destruct H as [_ ->].
  unfold base64_text. split.
  - now rewrite btoa_groups_length, length_map.
  - apply btoa_groups_alphabet, to_N_small.
Qed.

Lemma filter_idempotent {A : Type} (f : A -> bool) (l : list A) :
  filter f (filter f l) = filter f l.
Proof.
  induction l as [|a l IH]; cbn [filter]; [reflexivity|].
  destruct (f a) eqn:E; [|exact IH]. cbn [filter]. now rewrite E, IH.
Qed.

Lemma atob_filter (text : jsstring) :
  atob text = atob (filter (fun c => negb (is_ascii_whitespace c)) text).
Proof. unfold atob. now rewrite filter_idempotent. Qed.

Lemma enc_sextets_plain (s : list N) :
  Forall (fun c => c < 256) s ->
  Forall (fun c => is_ascii_whitespace c = false)
    (map b64_char (enc_sextets s))
  /\ Forall (fun c => c <> pad_char) (map b64_char (enc_sextets s)).
Proof.
  intros Hs. pose proof (enc_sextets_small s Hs) as Hsmall.
  rewrite Forall_forall in Hsmall.
  split; apply Forall_forall; intros c Hc; apply in_map_iff in Hc;
    destruct Hc as (i & <- & Hi); now apply b64_char_plain, Hsmall.
Qed.

Lemma filter_padding (s : list N) :
  Forall (fun c => c < 256) s ->
  filter (fun c => negb (c =? pad_char)) (btoa_groups s)
  = map b64_char (enc_sextets s).
Proof.
  intros Hs. rewrite btoa_groups_shape, filter_app.
  destruct (enc_sextets_plain s Hs) as [_ Hplain].
  replace (filter (fun c => negb (c =? pad_char)) (enc_padding s))
    with (@nil N)
    by (destruct (enc_padding_cases s) as [-> | [-> | ->]]; reflexivity).
  rewrite app_nil_r.
  induction (map b64_char (enc_sextets s)) as [|c l IH]; [reflexivity|].
  inversion Hplain as [|? ? Hc Hl]; subst. cbn [filter].
  apply N.eqb_neq in Hc. rewrite Hc. cbn [negb]. now rewrite IH.
Qed.

Lemma atob_unpadded (s : list N) :
  Forall (fun c => c < 256) s -> atob (map b64_char (enc_sextets s)) = Ok s.
Proof.
  intros Hs. destruct (enc_sextets_plain s Hs) as [Hws Hpad].
  unfold atob. rewrite (filter_plain _ Hws).
  assert (Hstrip : strip_padding (map b64_char (enc_sextets s))
                   = map b64_char (enc_sextets s)).
  { unfold strip_padding. destruct (_ =? 0)%nat; [|reflexivity].
    rewrite (drop_pad_plain _ Hpad). exact (drop_pad_plain _ Hpad). }
  rewrite Hstrip, length_map.
  destruct (enc_lengths s) as (k & r & Hlen & _ & Hr). rewrite Hlen.
  replace ((4 * k + r) mod 4 =? 1)%nat with false
    by (symmetry; apply Nat.eqb_neq; lia).
  rewrite (sextets_map_char _ (enc_sextets_small s Hs)).
  now rewrite atob_groups_enc.
Qed.

(** X19.  [base64ToArrayBuffer] reads more than [arrayBufferToBase64]
    writes: the text of a byte array is also accepted, and gives the same
    bytes, with ASCII white space anywhere in it and with its padding
    removed.  (The stricter check of the alphabet is commented out in the
    source.) *)
Theorem base64_decoding_forgiving (buffer : bytes) (text : jsstring) :
  buffer <> [] ->
  (filter (fun c => negb (is_ascii_whitespace c)) text = base64_text buffer ->
   base64ToArrayBuffer text = Ok buffer)
  /\ base64ToArrayBuffer
       (filter (fun c => negb (c =? pad_char)) (base64_text buffer))
     = Ok buffer.
Proof.
  intros Hb. split.
  - intros Hfilter. unfold base64ToArrayBuffer.
    destruct text as [|c text].
    { cbn [filter] in Hfilter. symmetry in Hfilter.
      now apply base64_text_nonempty in Hfilter. }
    rewrite atob_filter, Hfilter. unfold base64_text.
    rewrite atob_btoa_groups by apply to_N_small.
    cbn [bind try_catch]. now rewrite map_byte_of_to_N.
  - unfold base64_text. rewrite filter_padding by apply to_N_small.
    unfold base64ToArrayBuffer.
    destruct (map b64_char (enc_sextets (map Byte.to_N buffer)))
      as [|c l] eqn:E.
    { destruct buffer as [|x [|y [|z buffer]]]; discriminate || contradiction. }
    rewrite <- E, atob_unpadded by apply to_N_small.
    cbn [bind try_catch]. now rewrite map_byte_of_to_N.
Qed.

Section EnvelopeFacts.

Context {P : Platform} {L : PlatformLaws P}.

(** X20.  The envelope [encryptMessage] returns has a nonce of 96 bits,
    written in 16 characters, and a ciphertext of the UTF-8 length of the
    message plus the 16 bytes of the tag; the key decrypts it to the UTF-8
    bytes of the message.  This holds for every message, the empty one
    included. *)
Theorem envelope_sizes (message : jsstring) (aesKey : AesKey) (rng : Rng) :
  exists envelope rng' nonce12 data,
    encryptMessage message aesKey rng = (Ok envelope, rng')
    /\ base64ToArrayBuffer (nonce envelope) = Ok nonce12
    /\ List.length nonce12 = 12%nat
    /\ List.length (nonce envelope) = 16%nat
    /\ base64ToArrayBuffer (encryptedData envelope) = Ok data
    /\ List.length data = (List.length (TextEncoder_encode message) + 16)%nat
    /\ aes_gcm_decrypt aesKey nonce12 data = Some (TextEncoder_encode message).
Proof.
  eexists. eexists. eexists. eexists.
  split; [apply encryptMessage_spec|]. cbn [nonce encryptedData].
  split; [apply base64ToArrayBuffer_text, (random_values_nonempty 11)|].
  split; [apply random_values_length|].
  split.
  { unfold base64_text.
    now rewrite btoa_groups_length, length_map, random_values_length. }
  split; [apply base64ToArrayBuffer_text, gcm_nonempty|].
  split; [apply gcm_length|apply gcm_roundtrip].
Qed.

(** X21.  [encryptGroupKeyForMember] succeeds exactly when the group key
    is not empty and the public key of the member imports.  When the key of
    the member does not import it throws the [DataError] of the import;
    when it imports and the group key is empty it throws [Buffer vazio]. *)
Theorem group_key_wrapped_when (groupKey memberRaw : bytes) (rng : Rng) :
  ((exists wrapped rng',
       encryptGroupKeyForMember groupKey memberRaw rng = (Ok wrapped, rng'))
   <-> groupKey <> [] /\ import_raw memberRaw <> None)
  /\ (import_raw memberRaw = None ->
      fst (encryptGroupKeyForMember groupKey memberRaw rng) = Throw data_error)
  /\ (import_raw memberRaw <> None -> groupKey = [] ->
      fst (encryptGroupKeyForMember groupKey memberRaw rng)
      = Throw (Error "Buffer vazio")).
Proof.
  assert (Hnone : import_raw memberRaw = None ->
                  fst (encryptGroupKeyForMember groupKey memberRaw rng)
                  = Throw data_error).
  { intros Hi. unfold encryptGroupKeyForMember. rewrite rtry_catch_rethrow.
    unfold rbind at 1. rewrite generateKeyPair_spec.
    unfold rbind, lift, importPublicKey, subtle_importKey_raw.
    now rewrite Hi. }
  assert (Hempty : import_raw memberRaw <> None -> groupKey = [] ->
                   fst (encryptGroupKeyForMember groupKey memberRaw rng)
                   = Throw (Error "Buffer vazio")).
  { intros Hi ->. destruct (import_raw memberRaw) as [Q|] eqn:E;
      [|contradiction].
    unfold encryptGroupKeyForMember. rewrite rtry_catch_rethrow.
    unfold rbind at 1. rewrite generateKeyPair_spec.
    unfold rbind, lift. now rewrite (importPublicKey_spec _ _ E). }
  split; [|split; assumption]. split.
  - intros (wrapped & rng' & H).
    destruct (import_raw memberRaw) as [Q|] eqn:E.
    + split; [|discriminate]. intros ->.
      rewrite <- E in Hempty. rewrite H in Hempty. cbn [fst] in Hempty.
      rewrite E in Hempty. now specialize (Hempty ltac:(discriminate) eq_refl).
    + specialize (Hnone eq_refl). rewrite H in Hnone. discriminate.
  - intros [HG Hi]. destruct (import_raw memberRaw) as [Q|] eqn:E;
      [|contradiction].
    eexists. eexists. now apply (encryptGroupKeyForMember_spec _ _ Q).
Qed.

(** X22.  [sendMessage] of the chat page emits a message exactly when the
    text is not blank, a conversation is open, the socket exists, the
    directory answered [ok] with a receiver whose public key is base64 text
    of a key that imports, and the session holds a raw public key that
    imports.  This holds for both versions of the page. *)
Theorem direct_message_sent_when (checked : bool) (messageInput : jsstring)
  (selectedChat : option jsstring) (socket : bool) (userId : jsstring)
  (response : Response) (myPublicKeyRaw : option bytes) (rng : Rng) :
  (exists message rng',
      sendMessage checked messageInput selectedChat socket userId response
        myPublicKeyRaw rng = (Emitted message, rng'))
  <-> truthy (trim messageInput) = true
      /\ selectedChat <> None
      /\ socket = true
      /\ response_ok response = true
      /\ exists receiverKey receiverRaw myRaw,
           response_json response
           = Some {| receiver_publicKey := Some receiverKey |}
           /\ base64ToArrayBuffer receiverKey = Ok receiverRaw
           /\ import_raw receiverRaw <> None
           /\ myPublicKeyRaw = Some myRaw
           /\ import_raw myRaw <> None.
Proof.
  split.
  - intros (message & rng' & H). revert H. unfold sendMessage.
    destruct selectedChat as [receiver|]; [|discriminate].
    destruct (truthy (trim messageInput)); [|discriminate].
    destruct socket; [|discriminate]. cbn [negb orb].
    destruct (sendMessage_try checked messageInput userId receiver response
                myPublicKeyRaw rng) as [[e|m] r] eqn:Htry; [discriminate|].
    intros _. split; [reflexivity|]. split; [discriminate|].
    split; [reflexivity|]. split.
    { revert Htry. unfold sendMessage_try.
      now destruct (response_ok response). }
    apply sendMessage_try_emitted in Htry.
    destruct Htry as (rk & rraw & myRaw & theirs & mine & H1 & H2 & H3 & H4
                      & H5 & _).
    exists rk, rraw, myRaw. rewrite H3, H5. now repeat split.
  - intros (Hmsg & Hchat & -> & Hok & rk & rraw & myRaw & Hjson & Hkey
            & Htheirs & -> & Hmine).
    destruct selectedChat as [receiver|]; [|contradiction].
    destruct (import_raw rraw) as [theirs|] eqn:E1; [|contradiction].
    destruct (import_raw myRaw) as [mine|] eqn:E2; [|contradiction].
    destruct response as [ok json]. cbn [response_ok response_json] in *.
    subst ok json.
    exact (sendMessage_emits checked messageInput receiver userId rk rraw
             myRaw theirs mine rng Hmsg Hkey E1 E2).
Qed.

End EnvelopeFacts.

Section BlankFacts.

Context {P : Platform} {G : GroupKeyProvider P}.

(** X23.  A message made of white space only is never sent: both
    [sendMessage] of the chat page and [sendMessage] of the group chat
    return at once, without a draw of the random generator, without a
    payload and, in the group chat, without a local copy. *)
Theorem blank_message_not_sent (checked : bool) (messageInput : jsstring)
  (selectedChat : option jsstring) (socket : bool) (userId : jsstring)
  (response : Response) (myPublicKeyRaw : option bytes) (rng : Rng)
  (groupKey : option AesKey) (group : Group) (userName : jsstring)
  (now : Date) (messages : list GroupMessage) :
  Forall (fun c => is_js_whitespace c = true) messageInput ->
  sendMessage checked messageInput selectedChat socket userId response
    myPublicKeyRaw rng = (Returned, rng)
  /\ GroupChat.sendMessage messageInput groupKey socket group userId userName
       now messages rng
     = ({| GroupChat.sent_payload := None;
           GroupChat.sent_messages := messages;
           GroupChat.sent_alert := None |}, rng).
Proof.
  intros H. unfold sendMessage, GroupChat.sendMessage.
  rewrite (trim_blank _ H). cbn [truthy negb orb].
  split; [now destruct selectedChat|now destruct groupKey].
Qed.

End BlankFacts.

(* ================================================================== *)
(** * Missing keys and malformed records *)
(* ================================================================== *)

Lemma encoding_failure_name (error : exn) :
  is_encoding_failure error = true ->
  String.eqb (exn_name error) "OperationError" = false.
Proof.
  unfold is_encoding_failure, exn_eqb. intros H.
  apply orb_true_iff in H. destruct H as [H|H].
  - apply orb_true_iff in H. destruct H as [H|H].
    + apply String.eqb_eq in H. now rewrite H.
    + apply andb_true_iff in H. destruct H as [H _].
      apply String.eqb_eq in H. now rewrite H.
  - apply andb_true_iff in H. destruct H as [H _].
    apply String.eqb_eq in H. now rewrite H.
Qed.

Section MissingKeyFacts.

Context {P : Platform}.

(** What [decryptPrivateKey] throws when a field does not decode. *)
Lemma decryptPrivateKey_encoding (cause : exn)
  (body : result N) :
  is_encoding_failure cause = true ->
  try_catch (A := N) (Throw cause)
    (fun error =>
       if String.eqb (exn_name error) "OperationError"
       then Throw wrong_password
       else Throw (Error ("Falha ao decifrar chave privada: "
                          ++ exn_message error)))
  = Throw (Error ("Falha ao decifrar chave privada: " ++ exn_message cause)).
Proof.
  intros H. cbn [try_catch]. now rewrite (encoding_failure_name _ H).
Qed.

(** X24.  A protected key record with a field that is not base64 text is
    not reported as a wrong password: [decryptPrivateKey] throws the error
    [Falha ao decifrar chave privada: ] followed by the message of the
    encoding failure, whatever the password. *)
Theorem malformed_record_not_wrong_password
  (encryptedB64 saltB64 ivB64 password : jsstring) :
  decodes encryptedB64 && decodes saltB64 && decodes ivB64 = false ->
  exists cause,
    is_encoding_failure cause = true
    /\ decryptPrivateKey encryptedB64 saltB64 ivB64 password
       = Throw (Error ("Falha ao decifrar chave privada: "
                       ++ exn_message cause))
    /\ decryptPrivateKey encryptedB64 saltB64 ivB64 password
       <> Throw wrong_password.
Proof.
  intros H.
  assert (E : exists cause,
             is_encoding_failure cause = true
             /\ decryptPrivateKey encryptedB64 saltB64 ivB64 password
                = Throw (Error ("Falha ao decifrar chave privada: "
                                ++ exn_message cause))).
  { unfold decryptPrivateKey. unfold decodes in H.
    destruct (base64ToArrayBuffer encryptedB64) as [e1|E] eqn:H1.
    { exists e1. split; [exact (base64ToArrayBuffer_failure _ _ H1)|].
      apply (decryptPrivateKey_encoding e1 (Throw e1)).
      exact (base64ToArrayBuffer_failure _ _ H1). }
    destruct (base64ToArrayBuffer saltB64) as [e2|S] eqn:H2.
    { exists e2. split; [exact (base64ToArrayBuffer_failure _ _ H2)|].
      apply (decryptPrivateKey_encoding e2 (Throw e2)).
      exact (base64ToArrayBuffer_failure _ _ H2). }
    destruct (base64ToArrayBuffer ivB64) as [e3|I] eqn:H3; [|discriminate].
    exists e3. split; [exact (base64ToArrayBuffer_failure _ _ H3)|].
    apply (decryptPrivateKey_encoding e3 (Throw e3)).
    exact (base64ToArrayBuffer_failure _ _ H3). }
  destruct E as (cause & Hc & E). exists cause.
  split; [exact Hc|]. split; [exact E|].
  rewrite E. discriminate.
Qed.

(** X25.  Without a private key in the session no stored message is
    read: every entry [loadConversation] makes is the placeholder, with
    [decrypted = false], whatever the server stored. *)
Theorem history_without_private_key (userId : jsstring)
  (data : list EncryptedMessage) :
  Forall (fun m => shown_decrypted m = false
                   /\ shown_text m = lit "[Erro ao descriptografar]")
    (loadConversation userId None (Ok data))
  /\ List.length (loadConversation userId None (Ok data)) = List.length data.
Proof.
  rewrite loadConversation_map. split; [|apply length_map].
  apply Forall_forall. intros m Hm. apply in_map_iff in Hm.
  destruct Hm as (msg & <- & _).
  assert (E : forall ephemPk encryptedB64 nonceB64,
             exists e, open_envelope None ephemPk encryptedB64 nonceB64
                       = Throw e).
  { intros ephemPk encryptedB64 nonceB64. unfold open_envelope.
    destruct (base64ToArrayBuffer ephemPk) as [e|raw]; cbn [bind];
      [now exists e|].
    destruct (importPublicKey raw) as [e|Q]; cbn [bind]; [now exists e|].
    now exists not_a_key. }
  unfold loadConversation_entry, loadConversation_text.
  destruct (strict_equal (em_senderId msg) (Some userId)).
  - destruct (negb (truthy (em_senderEncryptedData msg))
              || negb (truthy (em_senderNonce msg))
              || negb (truthy (em_senderEphemPkForSelf msg))); [now split|].
    destruct (E (em_senderEphemPkForSelf msg) (em_senderEncryptedData msg)
                (em_senderNonce msg)) as [e ->]. now split.
  - destruct (E (em_senderEphemPk msg) (em_encryptedData msg) (em_nonce msg))
      as [e ->]. now split.
Qed.

End MissingKeyFacts.

Section GroupEdgeFacts.

Context {P : Platform} {L : PlatformLaws P}.

(** X26.  A member whose browser does not hold the group key cannot add a
    member: when [localStorage] has no key for the group, [handleAddMember]
    ends with the alert [Erro: Base64 inválido] whatever user the directory
    found, without a draw of the random generator and without asking the
    server. *)
Theorem add_member_needs_stored_key (group : Group)
  (userId newMemberEmail : jsstring) (newMember : UserData)
  (server : AddMemberBody -> Answer unit) (storage : LocalStorage)
  (rng : Rng) :
  truthy (trim newMemberEmail) = true ->
  get_property (stored_groupKeys storage) (group_id group) = None ->
  GroupChat.handleAddMember group userId newMemberEmail (Accepted newMember)
    server storage rng
  = (GroupChat.AddFailed "Erro: Base64 inválido", rng).
Proof.
  intros Hemail Hkey. unfold GroupChat.handleAddMember.
  rewrite Hemail. cbn [negb].
  unfold GroupChat.handleAddMember_request. rewrite Hkey. reflexivity.
Qed.

(** X27.  The group chat shows a message as sent even when there is no
    socket: for a text that is not blank and a group key, [sendMessage]
    appends the text to the messages with [decrypted = true] and shows no
    alert, and it emits the payload only if the socket exists.  (The chat
    page returns at once without a socket.) *)
Theorem group_message_shown_without_socket (messageInput : jsstring)
  (groupKey : AesKey) (socket : bool) (group : Group)
  (userId userName : jsstring) (now : Date) (messages : list GroupMessage)
  (rng : Rng) :
  truthy (trim messageInput) = true ->
  let sent :=
    fst (GroupChat.sendMessage messageInput (Some groupKey) socket group
           userId userName now messages rng) in
  GroupChat.sent_messages sent
  = messages
    ++ [{| gm_id := Some (Number_toString now);
           gm_senderId := Some userId;
           gm_senderName := userName;
           gm_text := messageInput;
           gm_createdAt := now;
           gm_decrypted := true |}]
  /\ GroupChat.sent_alert sent = None
  /\ (socket = false -> GroupChat.sent_payload sent = None)
  /\ (socket = true -> GroupChat.sent_payload sent <> None).
Proof.
  intros Hmsg sent. subst sent. unfold GroupChat.sendMessage.
  rewrite Hmsg. cbn [negb]. unfold encryptGroupMessage.
  rewrite encryptMessage_spec.
  cbn [fst GroupChat.sent_messages GroupChat.sent_alert
       GroupChat.sent_payload].
  split; [reflexivity|]. split; [reflexivity|].
  split; intros ->; [reflexivity|discriminate].
Qed.

End GroupEdgeFacts.

(* ================================================================== *)
(** * The list of conversations *)
(* ================================================================== *)

Lemma chat_found (id : jsstring) (chats : list Chat) :
  existsb (fun c => jsstring_eqb (chat_userId c) id) chats = true
  <-> In id (map chat_userId chats).
Proof.
  rewrite existsb_exists, in_map_iff. split.
  - intros (c & Hc & E). exists c. apply jsstring_eqb_eq in E. now split.
  - intros (c & E & Hc). exists c. split; [exact Hc|].
    now apply jsstring_eqb_eq.
Qed.

(** X28.  On the page with groups [handleAddChat] never makes a second
    conversation with the same user: users that were pairwise distinct in
    the list stay so whatever the directory answers, and for a user who is
    already in the list the list is left as it is.  On the first page the
    same user is added again. *)
Theorem add_chat_keeps_users_distinct (answer : Answer UserData)
  (foundUser : UserData) (chats : list Chat) :
  (NoDup (map chat_userId chats) ->
   NoDup (map chat_userId (added_chats (handleAddChat true answer chats))))
  /\ (In (user_id foundUser) (map chat_userId chats) ->
      added_chats (handleAddChat true (Accepted foundUser) chats) = chats
      /\ ~ NoDup (map chat_userId
                    (added_chats
                       (handleAddChat false (Accepted foundUser) chats)))).
Proof.
  split.
  - intros Hnd. destruct answer as [e|m|found]; cbn [handleAddChat added_chats];
      try exact Hnd.
    destruct (existsb _ chats) eqn:E; cbn [added_chats]; [exact Hnd|].
    rewrite map_app. cbn [map chat_userId].
    apply NoDup_app; [exact Hnd|constructor; [intros []|constructor]|].
    intros id Hin [<-|[]]. apply chat_found in Hin.
    rewrite Hin in E. discriminate.
  - intros Hin. cbn [handleAddChat].
    rewrite (proj2 (chat_found _ _) Hin). cbn [added_chats].
    split; [reflexivity|]. rewrite map_app. cbn [map chat_userId].
    intros Hnd. apply NoDup_remove_2 in Hnd. rewrite app_nil_r in Hnd.
    exact (Hnd Hin).
Qed.

(* ================================================================== *)
(** * The small platform keeps the contract *)
(* ================================================================== *)

Lemma to_N_byte_of_N_mod (n : N) : Byte.to_N (byte_of_N n) = n mod 256.
Proof.
  unfold byte_of_N.
  destruct (Byte.of_N (n mod 256)) as [b|] eqn:E.
  - now apply Byte.to_of_N.
  - apply Byte.of_N_None_iff in E. lia.
Qed.

Lemma byte_of_N_eq (n m : N) :
  n mod 256 = m mod 256 -> byte_of_N n = byte_of_N m.
Proof. unfold byte_of_N. now intros ->. Qed.

Lemma byte_of_N_inv (n m : N) :
  byte_of_N n = byte_of_N m -> n mod 256 = m mod 256.
Proof.
  intros H. apply (f_equal Byte.to_N) in H.
  now rewrite !to_N_byte_of_N_mod in H.
Qed.

Lemma to_N_inj (a b : byte) : Byte.to_N a = Byte.to_N b -> a = b.
Proof.
  intros H. rewrite <- (byte_of_to_N a), <- (byte_of_to_N b). now rewrite H.
Qed.

Lemma to_N_lt (b : byte) : Byte.to_N b < 256.
Proof. pose proof (Byte.to_N_bounded b). lia. Qed.

Lemma toy_padd_assoc (a b c : byte) :
  byte_of_N (Byte.to_N a + Byte.to_N (byte_of_N (Byte.to_N b + Byte.to_N c)))
  = byte_of_N (Byte.to_N (byte_of_N (Byte.to_N a + Byte.to_N b)) + Byte.to_N c).
Proof.
  apply byte_of_N_eq. rewrite !to_N_byte_of_N_mod.
  pose proof (to_N_lt a). pose proof (to_N_lt b). pose proof (to_N_lt c). lia.
Qed.

Lemma toy_sub_add (m b : byte) : Toy.sub_byte m (Toy.add_byte m b) = b.
Proof.
  unfold Toy.sub_byte, Toy.add_byte. rewrite to_N_byte_of_N_mod.
  rewrite <- (byte_of_to_N b) at 2. apply byte_of_N_eq.
  pose proof (to_N_lt m). pose proof (to_N_lt b). lia.
Qed.

Lemma toy_tag_length (key iv body : bytes) :
  List.length (Toy.tag key iv body) = 16%nat.
Proof.
  unfold Toy.tag. rewrite length_app, length_firstn, length_app, repeat_length.
  cbn [List.length]. lia.
Qed.

Lemma toy_bytes_eqb_refl (a : bytes) : Toy.bytes_eqb a a = true.
Proof.
  induction a as [|x a IH]; [reflexivity|].
  cbn [Toy.bytes_eqb]. rewrite IH, andb_true_r.
  now apply Byte.byte_dec_lb.
Qed.

Lemma toy_bytes_eqb_eq (a b : bytes) : Toy.bytes_eqb a b = true -> a = b.
Proof.
  revert b. induction a as [|x a IH]; intros [|y b] H; try discriminate.
  - reflexivity.
  - cbn [Toy.bytes_eqb] in H. apply andb_true_iff in H. destruct H as [H1 H2].
    apply Byte.byte_dec_bl in H1. now rewrite H1, (IH b H2).
Qed.

Lemma toy_bytes_eqb_neq (a b : bytes) : a <> b -> Toy.bytes_eqb a b = false.
Proof.
  intros H. destruct (Toy.bytes_eqb a b) eqn:E; [|reflexivity].
  now apply toy_bytes_eqb_eq in E.
Qed.

(** The parts of a toy ciphertext, whatever was done to them. *)
Lemma toy_decrypt_parts (key iv body stored : bytes) :
  List.length stored = 16%nat ->
  Toy.decrypt key iv (body ++ stored)
  = if Toy.bytes_eqb stored (Toy.tag key iv body)
    then Some (map (Toy.sub_byte (Toy.checksum key)) body)
    else None.
Proof.
  intros Hlen. unfold Toy.decrypt. rewrite length_app, Hlen.
  replace (List.length body + 16 <? 16)%nat with false
    by (symmetry; apply Nat.ltb_ge; lia).
  replace (List.length body + 16 - 16)%nat with (List.length body + 0)%nat
    by lia.
  rewrite firstn_app_2, skipn_app, Nat.add_0_r, skipn_all.
  cbn [firstn skipn app]. rewrite app_nil_r.
  replace (List.length body - List.length body)%nat with 0%nat by lia.
  reflexivity.
Qed.

Lemma toy_gcm_roundtrip (key iv plaintext : bytes) :
  Toy.decrypt key iv (Toy.encrypt key iv plaintext) = Some plaintext.
Proof.
  unfold Toy.encrypt. rewrite toy_decrypt_parts by apply toy_tag_length.
  rewrite toy_bytes_eqb_refl, map_map. cbv iota. apply f_equal.
  rewrite <- (map_id plaintext) at 2. apply map_ext. intros b. apply toy_sub_add.
Qed.

Lemma toy_parse_letters (n : nat) :
  Toy.parse_letters (repeat 100 n ++ [125]) = Some (N.of_nat n).
Proof.
  induction n as [|n IH]; [reflexivity|].
  change (repeat 100 (S n) ++ [125]) with (100 :: (repeat 100 n ++ [125])).
  cbn [Toy.parse_letters].
  destruct (repeat 100 n ++ [125]) as [|c rest] eqn:E.
  { now destruct n. }
  rewrite IH. cbn [option_map N.eqb Pos.eqb]. f_equal. lia.
Qed.

Lemma toy_laws : PlatformLaws Toy.platform.
Proof.
  constructor; cbn.
  - apply toy_padd_assoc.
  - intros a. apply byte_of_to_N.
  - intros n rng. now rewrite length_map, length_seq.
  - reflexivity.
  - reflexivity.
  - reflexivity.
  - intros d. unfold Toy.parse, Toy.stringify. cbn [app N.eqb Pos.eqb].
    now rewrite toy_parse_letters, N2Nat.id.
  - intros d. unfold Toy.stringify. cbn [app]. constructor; [lia|].
    apply Forall_app. split; [|repeat constructor; lia].
    apply Forall_forall. intros c Hc. apply repeat_spec in Hc. lia.
  - apply toy_gcm_roundtrip.
  - intros key iv plaintext. unfold Toy.encrypt.
    now rewrite length_app, length_map, toy_tag_length.
Qed.

(** ** The small cipher detects bit flips *)

Lemma below_256_in (n : N) : n < 256 -> In n (map N.of_nat (seq 0 256)).
Proof.
  intros Hn. apply in_map_iff. exists (N.to_nat n). split; [lia|].
  apply in_seq. lia.
Qed.

Lemma flip_byte_neq (i : nat) (b : byte) : (i < 8)%nat -> flip_byte i b <> b.
Proof.
  intros Hi.
  assert (H : forallb
                (fun i => forallb
                            (fun n => negb (Byte.eqb (flip_byte i (byte_of_N n))
                                              (byte_of_N n)))
                            (map N.of_nat (seq 0 256)))
                (seq 0 8) = true) by (vm_compute; reflexivity).
  rewrite forallb_forall in H.
  assert (Hin : In i (seq 0 8)) by (apply in_seq; lia).
  specialize (H i Hin). rewrite forallb_forall in H.
  specialize (H (Byte.to_N b) (below_256_in _ (to_N_lt b))).
  rewrite byte_of_to_N in H. apply negb_true_iff in H.
  intros E. rewrite E in H.
  now rewrite (Byte.byte_dec_lb (eq_refl b)) in H.
Qed.

(** A flip changes one byte and nothing else. *)
Lemma flip_bit_split (i : nat) (bs : bytes) :
  (i < 8 * List.length bs)%nat ->
  exists (pre post : bytes) (b b' : byte),
    bs = pre ++ b :: post /\ flip_bit i bs = pre ++ b' :: post /\ b' <> b.
Proof.
  revert i. induction bs as [|x bs IH]; intros i Hi; [cbn in Hi; lia|].
  cbn [flip_bit]. destruct (Nat.ltb_spec i 8) as [Hlt|Hge].
  - exists [], bs, x, (flip_byte i x). repeat split. now apply flip_byte_neq.
  - destruct (IH (i - 8)%nat) as (pre & post & b & b' & H1 & H2 & H3).
    { cbn [List.length] in Hi. lia. }
    exists (x :: pre), post, b, b'. cbn [app]. now rewrite H1 at 1; rewrite H2.
Qed.

Lemma flip_bit_neq (i : nat) (bs : bytes) :
  (i < 8 * List.length bs)%nat -> flip_bit i bs <> bs.
Proof.
  intros Hi. destruct (flip_bit_split i bs Hi) as (pre & post & b & b' & H1 & H2 & H3).
  rewrite H2, H1. intros E. apply app_inv_head in E. congruence.
Qed.

Lemma flip_bit_app (i : nat) (l1 l2 : bytes) :
  flip_bit i (l1 ++ l2)
  = if (i <? 8 * List.length l1)%nat then flip_bit i l1 ++ l2
    else l1 ++ flip_bit (i - 8 * List.length l1) l2.
Proof.
  revert i. induction l1 as [|x l1 IH]; intros i.
  - replace (i <? 8 * List.length (@nil byte))%nat with false
      by (symmetry; apply Nat.ltb_ge; cbn; lia).
    cbn [app List.length]. f_equal. lia.
  - cbn [app flip_bit List.length]. destruct (Nat.ltb_spec i 8) as [Hlt|Hge].
    + replace (i <? 8 * S (List.length l1))%nat with true
        by (symmetry; apply Nat.ltb_lt; lia).
      reflexivity.
    + rewrite IH.
      destruct (Nat.ltb_spec (i - 8) (8 * List.length l1)),
        (Nat.ltb_spec i (8 * S (List.length l1))); try lia; cbn [app].
      * reflexivity.
      * do 3 f_equal. lia.
Qed.

Lemma toy_byte_sum_app (l1 l2 : bytes) :
  Toy.byte_sum (l1 ++ l2) = Toy.byte_sum l1 + Toy.byte_sum l2.
Proof.
  induction l1 as [|x l1 IH]; [reflexivity|].
  change (Toy.byte_sum ((x :: l1) ++ l2))
    with (Byte.to_N x + Toy.byte_sum (l1 ++ l2)).
  change (Toy.byte_sum (x :: l1)) with (Byte.to_N x + Toy.byte_sum l1). lia.
Qed.

Lemma toy_checksum_flip (i : nat) (bs : bytes) :
  (i < 8 * List.length bs)%nat ->
  Toy.checksum (flip_bit i bs) <> Toy.checksum bs.
Proof.
  intros Hi. destruct (flip_bit_split i bs Hi) as (pre & post & b & b' & H1 & H2 & H3).
  rewrite H2, H1. unfold Toy.checksum. intros E. apply byte_of_N_inv in E.
  rewrite !toy_byte_sum_app in E.
  change (Toy.byte_sum (b' :: post))
    with (Byte.to_N b' + Toy.byte_sum post) in E.
  change (Toy.byte_sum (b :: post))
    with (Byte.to_N b + Toy.byte_sum post) in E.
  assert (Hne : Byte.to_N b' <> Byte.to_N b)
    by (intros Hb; now apply to_N_inj in Hb).
  pose proof (to_N_lt b). pose proof (to_N_lt b'). lia.
Qed.

Lemma toy_tag_nonce (iv : bytes) :
  List.length iv = 12%nat -> firstn 12 (iv ++ repeat x00 12) = iv.
Proof.
  intros H. rewrite firstn_app, H, Nat.sub_diag, firstn_O, app_nil_r.
  rewrite <- H. apply firstn_all.
Qed.

Lemma toy_detects_bit_flips (key : bytes) :
  gcm_detects_bit_flips (P := Toy.platform) key.
Proof.
  intros iv plaintext i. cbn [aes_gcm_encrypt aes_gcm_decrypt Toy.platform].
  unfold Toy.encrypt.
  set (body := map (Toy.add_byte (Toy.checksum key)) plaintext).
  split.
  - intros Hi. rewrite length_app, toy_tag_length in Hi. rewrite flip_bit_app.
    destruct (Nat.ltb_spec i (8 * List.length body)) as [Hlt|Hge].
    + rewrite toy_decrypt_parts by apply toy_tag_length.
      rewrite toy_bytes_eqb_neq; [reflexivity|].
      unfold Toy.tag. intros E. apply app_inv_head in E.
      injection E as E. symmetry in E. revert E. now apply toy_checksum_flip.
    + assert (Hj : (i - 8 * List.length body
                    < 8 * List.length (Toy.tag key iv body))%nat)
        by (rewrite toy_tag_length; lia).
      rewrite toy_decrypt_parts
        by (rewrite flip_bit_length; apply toy_tag_length).
      rewrite toy_bytes_eqb_neq; [reflexivity|]. now apply flip_bit_neq.
  - intros Hlen Hi. rewrite toy_decrypt_parts by apply toy_tag_length.
    rewrite toy_bytes_eqb_neq; [reflexivity|].
    unfold Toy.tag. intros E. apply app_inv_tail in E.
    rewrite !toy_tag_nonce in E by (rewrite ?flip_bit_length; exact Hlen).
    symmetry in E. revert E. apply flip_bit_neq. lia.
Qed.

(* ================================================================== *)
(** * The theorems at work on the small platform *)
(* ================================================================== *)

#[local] Existing Instance Toy.platform.

Lemma message_roundtrip_witness :
  well_formed (lit "hello") = true
  /\ starts_with_bom (lit "hello") = false
  /\ exists envelope rng',
       encryptMessage (P := Toy.platform) (lit "hello") [x2a] 7
       = (Ok envelope, rng')
       /\ decryptMessage (encryptedData envelope) (nonce envelope) [x2a]
          = Ok (lit "hello").
Proof.
  split; [reflexivity|]. split; [reflexivity|].
  apply (@message_roundtrip Toy.platform toy_laws (lit "hello") [x2a] 7);
    reflexivity.
Defined.

(** A message that starts with U+FEFF comes back without it: the envelope of
    [U+FEFF hi] decrypts to [hi]. *)
Lemma message_with_bom_not_returned :
  exists envelope rng',
    encryptMessage (P := Toy.platform) (bom :: lit "hi") [x2a] 7
    = (Ok envelope, rng')
    /\ decryptMessage (encryptedData envelope) (nonce envelope) [x2a]
       = Ok (lit "hi")
    /\ lit "hi" <> bom :: lit "hi".
Proof.
  eexists. eexists. split; [apply (encryptMessage_spec (L := toy_laws))|].
  split; [vm_compute; reflexivity | discriminate].
Qed.

(** A surrogate without its partner comes back as U+FFFD. *)
Lemma message_with_lone_surrogate_not_returned :
  exists envelope rng',
    encryptMessage (P := Toy.platform) [0xD800] [x2a] 7 = (Ok envelope, rng')
    /\ decryptMessage (encryptedData envelope) (nonce envelope) [x2a]
       = Ok [replacement].
Proof.
  eexists. eexists. split; [apply (encryptMessage_spec (L := toy_laws))|].
  vm_compute. reflexivity.
Qed.

Lemma group_key_roundtrip_witness :
  List.length sample_group_key = 32%nat
  /\ exists wrapped rng',
       encryptGroupKeyForMember (P := Toy.platform) sample_group_key
         (export_raw (public_of 5)) 3
       = (Ok wrapped, rng')
       /\ decryptGroupKey (encryptedGroupKey wrapped)
            (ephemeralPublicKey wrapped) 5
          = Ok sample_group_key.
Proof.
  split; [reflexivity|].
  apply (@group_key_roundtrip Toy.platform toy_laws sample_group_key 5 3).
  reflexivity.
Defined.

Lemma private_key_roundtrip_witness :
  exists record rng',
    encryptPrivateKey (P := Toy.platform) 3 (lit "correct-horse") 0
    = (Ok record, rng')
    /\ decryptPrivateKey (encryptedPrivateKey record) (salt record) (iv record)
         (lit "correct-horse")
       = Ok 3.
Proof.
  apply (@private_key_roundtrip Toy.platform toy_laws 3 (lit "correct-horse") 0).
Defined.

Lemma shared_secret_commutes_witness :
  let A := {| privateKey := 3; publicKey := public_of (P := Toy.platform) 3;
              publicKeyRaw := export_raw (public_of (P := Toy.platform) 3) |} in
  let B := {| privateKey := 10; publicKey := public_of (P := Toy.platform) 10;
              publicKeyRaw := export_raw (public_of (P := Toy.platform) 10) |} in
  valid_pair A /\ valid_pair B
  /\ exists secret : bytes,
       computeSharedSecret (privateKey A) (publicKey B) = Ok secret
       /\ computeSharedSecret (privateKey B) (publicKey A) = Ok secret.
Proof.
  intros A B.
  assert (HA : valid_pair A) by (split; reflexivity).
  assert (HB : valid_pair B) by (split; reflexivity).
  split; [exact HA|]. split; [exact HB|].
  exact (@shared_secret_commutes Toy.platform toy_laws A B HA HB).
Defined.

Lemma wrong_password_witness :
  exists record rng',
    encryptPrivateKey (P := Toy.platform) 3 (lit "correct-horse") 0
    = (Ok record, rng')
    /\ decryptPrivateKey (encryptedPrivateKey record) (salt record) (iv record)
         (lit "wrong-horse")
       = Throw wrong_password.
Proof.
  apply (proj2 (@wrong_password_reported Toy.platform toy_laws
                  [] [] [] (lit "wrong-horse") [] [] []
                  3 (lit "correct-horse") 0)).
  vm_compute. reflexivity.
Defined.

Lemma tampered_envelope_witness :
  let iv12 := fst (getRandomValues (Platform := Toy.platform) 12 7) in
  let data :=
    aes_gcm_encrypt (Platform := Toy.platform) [x2a] iv12
      (TextEncoder_encode (lit "hi")) in
  fst (encryptMessage (P := Toy.platform) (lit "hi") [x2a] 7)
  = Ok {| encryptedData := base64_text data; nonce := base64_text iv12 |}
  /\ (forall i : nat,
         (i < 8 * List.length data)%nat ->
         decryptMessage (P := Toy.platform) (base64_text (flip_bit i data))
           (base64_text iv12) [x2a]
         = Throw decryption_failure)
  /\ (forall i : nat,
         (i < 8 * List.length iv12)%nat ->
         decryptMessage (P := Toy.platform) (base64_text data)
           (base64_text (flip_bit i iv12)) [x2a]
         = Throw decryption_failure).
Proof.
  exact (@tampered_envelope_rejected Toy.platform toy_laws (lit "hi") [x2a] 7
           (toy_detects_bit_flips [x2a])).
Defined.

Lemma malformed_envelope_witness :
  envelope_malformed (lit "no separator") = true
  /\ exists error,
       decryptGroupKey (P := Toy.platform) (lit "no separator") (lit "AAAA") 1
       = Throw error
       /\ (halves_absent (lit "no separator") = true -> error = invalid_format)
       /\ (is_encoding_failure error = true
           \/ (exists raw,
                  base64ToArrayBuffer (lit "AAAA") = Ok raw
                  /\ import_raw (Platform := Toy.platform) raw = None)
              /\ error = data_error).
Proof.
  split; [reflexivity|].
  apply (@malformed_envelope_fails Toy.platform (lit "no separator")
           (lit "AAAA") 1).
  reflexivity.
Defined.

(** Both halves are there and the first is not base64 text, but the
    ephemeral public key is three zero bytes: the failure is the import's
    [DataError], not one of the encoding kind. *)
Lemma malformed_envelope_import_error :
  envelope_malformed (lit "!:AAAA") = true
  /\ decryptGroupKey (P := Toy.platform) (lit "!:AAAA") (lit "AAAA") 1
     = Throw data_error
  /\ is_encoding_failure data_error = false.
Proof. repeat split; vm_compute; reflexivity. Qed.

(** Pieces after the second are not looked at: an envelope with a third
    piece is unwrapped like the envelope without it. *)
Example extra_pieces_ignored :
  exists wrapped rng',
    encryptGroupKeyForMember (P := Toy.platform) sample_group_key
      (export_raw (public_of 5)) 3
    = (Ok wrapped, rng')
    /\ decryptGroupKey (encryptedGroupKey wrapped ++ lit ":more")
         (ephemeralPublicKey wrapped) 5
       = Ok sample_group_key.
Proof.
  eexists. eexists. split.
  { apply (encryptGroupKeyForMember_spec (L := toy_laws) _ _ (public_of 5));
      [discriminate | reflexivity]. }
  vm_compute. reflexivity.
Qed.

Lemma group_key_envelope_witness :
  let d := fst (random_scalar (Platform := Toy.platform) 3) in
  let nonce12 :=
    fst (getRandomValues (Platform := Toy.platform) 12
           (snd (random_scalar (Platform := Toy.platform) 3))) in
  let data :=
    aes_gcm_encrypt (Platform := Toy.platform) (exchange_key d x05) nonce12
      (TextEncoder_encode (base64_text sample_group_key)) in
  sample_group_key <> []
  /\ import_raw (Platform := Toy.platform) (Toy.export x05) = Some x05
  /\ fst (encryptGroupKeyForMember (P := Toy.platform) sample_group_key
            (Toy.export x05) 3)
     = Ok {| encryptedGroupKey :=
               base64_text data ++ [colon] ++ base64_text nonce12;
             ephemeralPublicKey := base64_text (export_raw (public_of d)) |}
  /\ split colon (base64_text data ++ [colon] ++ base64_text nonce12)
     = [base64_text data; base64_text nonce12]
  /\ TextDecoder_decode (TextEncoder_encode (base64_text sample_group_key))
     = base64_text sample_group_key.
Proof.
  intros d nonce12 data.
  assert (HG : sample_group_key <> []) by discriminate.
  assert (HQ : import_raw (Platform := Toy.platform) (Toy.export x05) = Some x05)
    by reflexivity.
  split; [exact HG|]. split; [exact HQ|].
  exact (@group_key_envelope_format Toy.platform toy_laws sample_group_key
           (Toy.export x05) x05 3 HG HQ).
Defined.

(** The ciphertext on the wire is not that of the 32 bytes of the group
    key: it is that of the 44 characters of their base64 text. *)
Lemma group_key_not_encrypted_raw :
  let d := fst (random_scalar (Platform := Toy.platform) 3) in
  let nonce12 :=
    fst (getRandomValues (Platform := Toy.platform) 12
           (snd (random_scalar (Platform := Toy.platform) 3))) in
  exists wrapped rng',
    encryptGroupKeyForMember (P := Toy.platform) sample_group_key
      (Toy.export x05) 3
    = (Ok wrapped, rng')
    /\ encryptedGroupKey wrapped
       <> wrapped_text (P := Toy.platform) (exchange_key d x05) nonce12
            sample_group_key
    /\ encryptedGroupKey wrapped
       = wrapped_text (P := Toy.platform) (exchange_key d x05) nonce12
           (TextEncoder_encode (base64_text sample_group_key)).
Proof.
  intros d nonce12. eexists. eexists. split.
  { apply (encryptGroupKeyForMember_spec (L := toy_laws) _ _ x05);
      [discriminate | reflexivity]. }
  split; [|reflexivity].
  vm_compute. discriminate.
Qed.

Lemma direct_message_witness :
  exists message rng',
    sendMessage (P := Toy.platform) true (lit "hello") (Some (lit "bob")) true
      (lit "alice") sample_response (Some (Toy.export x09)) 0
    = (Emitted message, rng')
    /\ msg_nonce message <> senderNonce message
    /\ senderEphemPk message <> senderEphemPkForSelf message
    /\ msg_encryptedData message <> senderEncryptedData message.
Proof.
  pose (out := sendMessage (P := Toy.platform) true (lit "hello")
                 (Some (lit "bob")) true (lit "alice") sample_response
                 (Some (Toy.export x09)) 0).
  assert (E : out = (Emitted (emitted (fst out)), snd out))
    by (vm_compute; reflexivity).
  exists (emitted (fst out)), (snd out). split; [exact E|].
  destruct (@direct_message_encrypted_twice Toy.platform toy_laws _ _ _ _ _ _
              _ _ _ _ E)
    as (rk & rraw & myRaw & theirs & mine & _ & _ & _ & _ & _ & H).
  cbv zeta in H.
  destruct H as (_ & _ & _ & _ & _ & _ & _ & Hnonce & Hkey).
  split; [apply Hnonce; vm_compute; discriminate|].
  split; [apply Hkey; vm_compute; discriminate|].
  vm_compute. discriminate.
Defined.

Lemma base64_buffer_witness :
  [x68; x69] <> []
  /\ (exists text,
         arrayBufferToBase64 [x68; x69] = Ok text
         /\ base64ToArrayBuffer text = Ok [x68; x69])
  /\ arrayBufferToBase64 [] = Throw (Error "Buffer vazio").
Proof.
  assert (H : [x68; x69] <> []) by discriminate.
  split; [exact H|].
  split; [exact (proj1 (base64_buffer_roundtrip [x68; x69]) H)|].
  exact (proj2 (base64_buffer_roundtrip [x68; x69])).
Defined.

(* ================================================================== *)
(** * The small platform for the pages keeps its contract *)
(* ================================================================== *)

Lemma read_write_field (field rest : jsstring) :
  ToyPages.read_field (ToyPages.write_field field ++ rest) = Some (field, rest).
Proof.
  unfold ToyPages.write_field.
  induction field as [|c field IH]; [reflexivity|].
  cbn [flat_map app ToyPages.read_field]. cbn [app] in IH. now rewrite IH.
Qed.

Lemma toy_user_json_laws : UserJSONLaws Toy.platform ToyPages.json.
Proof.
  split.
  - intros [id name email publicKey encryptedPrivateKey salt iv].
    cbn [JSON_parse_user JSON_stringify_user ToyPages.json].
    unfold ToyPages.parse_user, ToyPages.stringify_user.
    cbn [user_id user_name user_email user_publicKey user_encryptedPrivateKey
         user_salt user_iv].
    rewrite !read_write_field.
    rewrite <- (app_nil_r (ToyPages.write_field iv)).
    now rewrite read_write_field.
  - intros data E. apply (f_equal (@List.length N)) in E.
    cbn [JSON_stringify_user ToyPages.json] in E.
    unfold ToyPages.stringify_user, ToyPages.write_field in E.
    rewrite !length_app in E. cbn [List.length] in E. lia.
  - intros d. discriminate.
Qed.

Lemma toy_group_key_laws : GroupKeyLaws Toy.platform ToyPages.group_keys.
Proof.
  split; intros rng.
  - apply (nonempty_length _ 31).
    cbn [generate_aes export_aes_raw ToyPages.group_keys].
    unfold ToyPages.generate, Toy.random. cbn [fst].
    now rewrite length_map, length_seq.
  - cbn [generate_aes export_aes_raw import_aes_raw ToyPages.group_keys].
    unfold ToyPages.generate, ToyPages.import_key, Toy.random. cbn [fst].
    now rewrite length_map, length_seq.
Qed.

(* ================================================================== *)
(** * The pages at work on the small platform *)
(* ================================================================== *)

#[local] Existing Instance ToyPages.json.
#[local] Existing Instance ToyPages.group_keys.

Lemma sample_direct_emitted :
  sample_direct = (Emitted (emitted (fst sample_direct)), snd sample_direct).
Proof. vm_compute. reflexivity. Qed.

Lemma direct_message_delivered_witness :
  messages
    (message_listener false (receiverId (emitted (fst sample_direct)))
       (Some 5) sample_delivered 9 {| messages := []; chats := [] |})
  = [] ++ [{| shown_id := Some (lit "m1");
              shown_senderId := Some (lit "alice");
              shown_text := lit "hello";
              shown_createdAt := 7;
              shown_decrypted := true |}].
Proof.
  apply (direct_message_delivered (P := Toy.platform) (L := toy_laws) false true (lit "hello")
           (Some (lit "bob")) true (lit "alice") sample_response
           (Some (Toy.export x09)) 0 (snd sample_direct)
           (emitted (fst sample_direct)) 5 (Some (lit "m1")) 7 9
           {| messages := []; chats := [] |}).
  - exact sample_direct_emitted.
  - vm_compute. reflexivity.
  - vm_compute. reflexivity.
  - vm_compute. reflexivity.
  - reflexivity.
Defined.

Lemma delivered_twice_witness :
  let once :=
    decryptAndAddMessage false (Some 5) sample_delivered 9
      {| messages := []; chats := [] |} in
  messages (decryptAndAddMessage false (Some 5) sample_delivered 10 once)
  = messages once
  /\ NoDup (map shown_id (messages once)).
Proof.
  assert (H : decryptAndAddMessage_text (P := Toy.platform) false (Some 5)
                sample_delivered = Ok (lit "hello"))
    by (vm_compute; reflexivity).
  destruct (delivered_twice_shown_once false (Some 5) sample_delivered 9 10
              {| messages := []; chats := [] |} (lit "hello") H) as [H1 H2].
  split; [exact H1|]. apply H2. constructor.
Defined.



Lemma sample_registration_made :
  sample_registration = (Ok (sample_keys, sample_body), snd sample_registration).
Proof. vm_compute. reflexivity. Qed.

Lemma login_after_register_witness :
  login (J := ToyPages.json) (lit "bob@example.org") (lit "secret")
    (Accepted sample_user) empty_storage
  = Ok (open_session sample_user (privateKey sample_keys)
          (publicKey sample_keys) (publicKeyRaw sample_keys) empty_storage).
Proof.
  apply (login_after_register (P := Toy.platform) (L := toy_laws) (J := ToyPages.json) (lit "Bob")
           (lit "bob@example.org") (lit "555") (lit "secret") 4
           (snd sample_registration) sample_keys sample_body sample_user
           empty_storage).
  - exact sample_registration_made.
  - repeat split.
Defined.

Lemma login_survives_reload_witness :
  restore_session (J := ToyPages.json)
    (snd (returned (no_session, empty_storage) sample_login))
  = returned (no_session, empty_storage) sample_login.
Proof.
  assert (E : sample_login
              = Ok (fst (returned (no_session, empty_storage) sample_login),
                    snd (returned (no_session, empty_storage) sample_login)))
    by (vm_compute; reflexivity).
  destruct (login_survives_reload (P := Toy.platform) (L := toy_laws) (LJ := toy_user_json_laws)
              (lit "bob@example.org") (lit "secret") (Accepted sample_user)
              empty_storage _ _ E) as [H _].
  rewrite H. now destruct (returned (no_session, empty_storage) sample_login).
Defined.

Lemma register_without_public_key_witness :
  let state := returned (no_session, empty_storage) (fst sample_register) in
  signed_in (fst state)
  /\ restore_session (J := ToyPages.json) (snd state)
     = (no_session, remove_session_items (snd state)).
Proof.
  intros state.
  assert (E : sample_register = (Ok (fst state, snd state), snd sample_register))
    by (vm_compute; reflexivity).
  apply (register_without_public_key_lost (P := Toy.platform) (L := toy_laws)
           (LJ := toy_user_json_laws) (lit "Bob") (lit "bob@example.org")
           (lit "555") (lit "secret")
           (fun _ => Accepted sample_user_without_key) empty_storage _ 4 _ _
           E).
  intros body. exists sample_user_without_key. now split.
Defined.




Lemma group_history_needs_senders_witness :
  let loaded :=
    GroupChat.loadGroupKeyAndMessages (G := ToyPages.group_keys) sample_group 5
      (Accepted [sample_listed; sample_listed_without_sender]) None []
      empty_storage in
  load_alert loaded <> None
  /\ load_messages loaded = []
  /\ load_groupKey loaded = Some sample_group_key.
Proof.
  apply (group_history_needs_senders (P := Toy.platform)
           (G := ToyPages.group_keys) sample_group 5
           sample_group_key sample_group_key
           [sample_listed; sample_listed_without_sender]
           sample_listed_without_sender None [] empty_storage).
  - vm_compute. reflexivity.
  - reflexivity.
  - right. now left.
  - reflexivity.
Defined.

Lemma added_member_witness :
  let loaded :=
    GroupChat.loadGroupKeyAndMessages (G := ToyPages.group_keys) sample_group 5
      (Accepted []) None [] empty_storage in
  exists body rng',
    GroupChat.handleAddMember_request sample_group (lit "bob") sample_user
      (load_storage loaded) 30 = (Ok body, rng')
    /\ add_userId body = user_id sample_user
    /\ load_groupKey loaded <> None
    /\ load_groupKey
         (GroupChat.loadGroupKeyAndMessages (G := ToyPages.group_keys)
            {| group_id := group_id sample_group;
               myEncryptedGroupKey := add_encryptedGroupKey body;
               myEphemeralPublicKey := add_ephemeralPublicKey body;
               myKeyVersion := 1 |}
            (privateKey sample_keys) (Accepted []) None [] empty_storage)
       = load_groupKey loaded.
Proof.
  apply (added_member_gets_group_key (P := Toy.platform) (L := toy_laws)
           (G := ToyPages.group_keys) sample_group 5 (Accepted [])
           (Accepted []) None None [] [] empty_storage empty_storage
           (lit "bob") sample_user (privateKey sample_keys) 30 1).
  - vm_compute. reflexivity.
  - vm_compute. reflexivity.
Defined.

Lemma created_group_witness :
  exists groupKeyRaw body rng',
    handleCreateGroup_request (G := ToyPages.group_keys) (lit "Friends") []
      (lit "bob@example.org, carol@example.org") sample_directory (lit "alice")
      (Some (export_raw (public_of 9))) 40
    = (Ok (groupKeyRaw, body), rng')
    /\ importGroupKey (G := ToyPages.group_keys) groupKeyRaw
       = Ok (fst (generate_aes (GroupKeyProvider := ToyPages.group_keys) 40))
    /\ cg_creatorId body = lit "alice"
    /\ option_map mk_userId (hd_error (cg_members body)) = Some (lit "alice")
    /\ Forall2 (fun entry d =>
                  decryptGroupKey (mk_encryptedGroupKey entry)
                    (mk_ephemeralPublicKey entry) d = Ok groupKeyRaw)
         (cg_members body) [9; 5; 5].
Proof.
  apply (created_group_key_reaches_every_member (P := Toy.platform) (L := toy_laws)
           (LG := toy_group_key_laws) (lit "Friends") []
           (lit "bob@example.org, carol@example.org") sample_directory
           (lit "alice") 9 [5; 5] 40).
  - vm_compute. reflexivity.
  - assert (E : member_emails (lit "bob@example.org, carol@example.org")
                = [lit "bob@example.org"; lit "carol@example.org"])
      by (vm_compute; reflexivity).
    rewrite E.
    repeat constructor; eexists; (split; [reflexivity|]);
      vm_compute; reflexivity.
Defined.

Lemma base64_text_shape_witness :
  arrayBufferToBase64 [x68; x69] = Ok (lit "aGk=")
  /\ List.length (lit "aGk=") = (4 * ((List.length [x68; x69] + 2) / 3))%nat
  /\ Forall (fun c => b64_index c <> None \/ c = pad_char) (lit "aGk=").
Proof.
  assert (H : arrayBufferToBase64 [x68; x69] = Ok (lit "aGk="))
    by (vm_compute; reflexivity).
  split; [exact H|]. exact (base64_text_shape [x68; x69] (lit "aGk=") H).
Defined.

Lemma base64_decoding_forgiving_witness :
  base64ToArrayBuffer (lit " aG k= ") = Ok [x68; x69]
  /\ base64ToArrayBuffer
       (filter (fun c => negb (c =? pad_char)) (base64_text [x68; x69]))
     = Ok [x68; x69].
Proof.
  assert (H : [x68; x69] <> []) by discriminate.
  destruct (base64_decoding_forgiving [x68; x69] (lit " aG k= ") H)
    as [H1 H2].
  split; [apply H1; vm_compute; reflexivity|exact H2].
Defined.

Lemma group_key_wrapped_when_witness :
  (exists wrapped rng',
      encryptGroupKeyForMember sample_group_key (Toy.export x05) 3
      = (Ok wrapped, rng'))
  /\ fst (encryptGroupKeyForMember sample_group_key [x00; x01] 3)
     = Throw data_error
  /\ fst (encryptGroupKeyForMember [] (Toy.export x05) 3)
     = Throw (Error "Buffer vazio").
Proof.
  split; [|split].
  - apply (proj1 (group_key_wrapped_when (P := Toy.platform) (L := toy_laws) sample_group_key
                    (Toy.export x05) 3)).
    split; discriminate.
  - apply (proj2 (group_key_wrapped_when (P := Toy.platform) (L := toy_laws) sample_group_key
                    [x00; x01] 3)).
    reflexivity.
  - apply (proj2 (group_key_wrapped_when (P := Toy.platform) (L := toy_laws) []
                    (Toy.export x05) 3)); [discriminate|reflexivity].
Defined.

Lemma direct_message_sent_when_witness :
  exists message rng',
    sendMessage false (lit "hello") (Some (lit "bob")) true (lit "alice")
      sample_response (Some (Toy.export x09)) 0
    = (Emitted message, rng').
Proof.
  apply (direct_message_sent_when (P := Toy.platform) (L := toy_laws) false (lit "hello")
           (Some (lit "bob")) true (lit "alice") sample_response
           (Some (Toy.export x09)) 0).
  split; [vm_compute; reflexivity|]. split; [discriminate|].
  split; [reflexivity|]. split; [reflexivity|].
  exists (base64_text (Toy.export x05)), (Toy.export x05), (Toy.export x09).
  split; [reflexivity|]. split; [vm_compute; reflexivity|].
  split; [discriminate|]. split; [reflexivity|discriminate].
Defined.

Lemma blank_message_witness :
  sendMessage (P := Toy.platform) true (lit "  ") (Some (lit "bob")) true
    (lit "alice") sample_response (Some (Toy.export x09)) 0 = (Returned, 0)
  /\ GroupChat.sendMessage (P := Toy.platform) (lit "  ")
       (Some sample_group_key) true sample_group (lit "alice") (lit "Alice")
       11 [] 0
     = ({| GroupChat.sent_payload := None;
           GroupChat.sent_messages := [];
           GroupChat.sent_alert := None |}, 0).
Proof.
  apply (blank_message_not_sent (P := Toy.platform) true (lit "  ") (Some (lit "bob")) true
           (lit "alice") sample_response (Some (Toy.export x09)) 0
           (Some sample_group_key) sample_group (lit "Alice") 11 []).
  repeat constructor.
Defined.

Lemma malformed_record_witness :
  exists cause,
    is_encoding_failure cause = true
    /\ decryptPrivateKey (P := Toy.platform) (lit "!") (lit "AAAA")
         (lit "AAAA") (lit "secret")
       = Throw (Error ("Falha ao decifrar chave privada: "
                       ++ exn_message cause))
    /\ decryptPrivateKey (P := Toy.platform) (lit "!") (lit "AAAA")
         (lit "AAAA") (lit "secret")
       <> Throw wrong_password.
Proof.
  apply (malformed_record_not_wrong_password (P := Toy.platform)).
  vm_compute. reflexivity.
Defined.

Lemma add_member_needs_stored_key_witness :
  GroupChat.handleAddMember (P := Toy.platform) sample_group (lit "alice")
    (lit "bob@example.org") (Accepted sample_user) (fun _ => Accepted tt)
    empty_storage 30
  = (GroupChat.AddFailed "Erro: Base64 inválido", 30).
Proof.
  apply (add_member_needs_stored_key (P := Toy.platform) sample_group
           (lit "alice") (lit "bob@example.org") sample_user
           (fun _ => Accepted tt) empty_storage 30).
  - vm_compute. reflexivity.
  - reflexivity.
Defined.

Lemma group_message_without_socket_witness :
  let sent :=
    fst (GroupChat.sendMessage (P := Toy.platform) (lit "hello all")
           (Some sample_group_key) false sample_group (lit "alice")
           (lit "Alice") 11 [] 20) in
  GroupChat.sent_messages sent
  = [] ++ [{| gm_id := Some (Number_toString 11);
              gm_senderId := Some (lit "alice");
              gm_senderName := lit "Alice";
              gm_text := lit "hello all";
              gm_createdAt := 11;
              gm_decrypted := true |}]
  /\ GroupChat.sent_alert sent = None
  /\ GroupChat.sent_payload sent = None.
Proof.
  intros sent.
  destruct (group_message_shown_without_socket (P := Toy.platform)
              (L := toy_laws) (lit "hello all") sample_group_key false
              sample_group (lit "alice") (lit "Alice") 11 [] 20)
    as (H1 & H2 & H3 & _).
  { vm_compute. reflexivity. }
  split; [exact H1|]. split; [exact H2|]. now apply H3.
Defined.

Lemma registration_request_witness :
  exists keys body rng',
    register_request (P := Toy.platform) (lit "Bob") (lit "bob@example.org")
      (lit "555") (lit "secret") 4 = (Ok (keys, body), rng')
    /\ register (P := Toy.platform) (lit "Bob") (lit "bob@example.org")
         (lit "555") (lit "secret") (fun _ => Accepted sample_user)
         empty_storage 4
       = (register_answer keys (Accepted sample_user) empty_storage, rng')
    /\ body_password body = lit "secret"
    /\ decryptPrivateKey (body_encryptedPrivateKey body) (body_salt body)
         (body_iv body) (body_password body)
       = Ok (privateKey keys)
    /\ valid_pair keys.
Proof.
  exact (registration_request_opens_key (P := Toy.platform) (L := toy_laws)
           (lit "Bob") (lit "bob@example.org") (lit "555") (lit "secret")
           (fun _ => Accepted sample_user) empty_storage 4).
Defined.

Lemma session_set_and_cleared_witness :
  let state :=
    fst (auth_actions (P := Toy.platform)
           [Login (lit "bob@example.org") (lit "secret") (Accepted sample_user);
            Login (lit "bob@example.org") (lit "other") (Accepted sample_user);
            Logout]
           (restore_session empty_storage) 0) in
  (fst state = no_session \/ signed_in (fst state))
  /\ stored_groupKeys (snd state) = stored_groupKeys empty_storage.
Proof.
  exact (session_set_and_cleared_together (P := Toy.platform) (L := toy_laws)
           empty_storage
           [Login (lit "bob@example.org") (lit "secret") (Accepted sample_user);
            Login (lit "bob@example.org") (lit "other") (Accepted sample_user);
            Logout] 0).
Defined.

Lemma envelope_sizes_witness :
  exists envelope rng' nonce12 data,
    encryptMessage (P := Toy.platform) [] sample_group_key 0
    = (Ok envelope, rng')
    /\ base64ToArrayBuffer (nonce envelope) = Ok nonce12
    /\ List.length nonce12 = 12%nat
    /\ List.length (nonce envelope) = 16%nat
    /\ base64ToArrayBuffer (encryptedData envelope) = Ok data
    /\ List.length data = (List.length (TextEncoder_encode []) + 16)%nat
    /\ aes_gcm_decrypt (Platform := Toy.platform) sample_group_key nonce12 data
       = Some (TextEncoder_encode []).
Proof.
  exact (envelope_sizes (P := Toy.platform) (L := toy_laws) []
           sample_group_key 0).
Defined.

Lemma add_chat_witness :
  let bob :=
    {| chat_userId := lit "u2"; chat_name := lit "Bob";
       chat_email := lit "bob@example.org"; chat_publicKey := None;
       chat_lastMessage := None; chat_lastMessageTime := None |} in
  NoDup (map chat_userId
           (added_chats (handleAddChat true (Accepted sample_user) [bob])))
  /\ added_chats (handleAddChat true (Accepted sample_user) [bob]) = [bob]
  /\ ~ NoDup (map chat_userId
                (added_chats (handleAddChat false (Accepted sample_user) [bob]))).
Proof.
  intros bob.
  destruct (add_chat_keeps_users_distinct (Accepted sample_user) sample_user
              [bob]) as [H1 H2].
  split.
  - apply H1. repeat constructor. intros [].
  - apply H2. now left.
Defined.
